(** * DPI prediction pipeline: schema-driven decoder, segmentation, synthesis

    A shallow embedding of [py_scripts/ML/predict_DPI.py]:
    [load_custom_types], [load_protocol_definitions], [parse_pcap_with_ip],
    [extract_aggregated_features], [segment_stats] and [generate_dpi].

    Python values are embedded as follows.
    - [int] is [Z]; [//] on ints is [Z.div] (both round towards minus
      infinity) and raises [ZeroDivisionError] on a zero divisor. The
      sizes and offsets of the decoder are Python ints or NumPy scalars,
      told apart in [num]: a size read with [protocol_df.iloc] is a scalar
      of the type of the column and wraps around.
    - [float] is an IEEE binary64 number, [spec_float] with [prec = 53] and
      [emax = 1024]; arithmetic is the correctly rounded arithmetic of
      [SpecFloat].
    - [bytes] is [list byte]; [str] is [string], read as the UTF-8 encoding
      of the Python string (byte order coincides with code point order).
    - a [dict] is an association list in insertion order.
    - an exception is a [Raise] result.

    Routines of the Python runtime, NumPy and the trained networks whose
    inner working the program does not depend on are gathered in the class
    [Runtime]. *)

From Stdlib Require Import ZArith List String Ascii Bool Lia.
From Stdlib Require Import Permutation Sorted Mergesort Orders.
From Stdlib Require Import SpecFloat DecimalString.
From Stdlib Require Init.Byte Strings.Byte DecimalZ.
Import ListNotations.

Local Open Scope string_scope.
Local Open Scope list_scope.
Local Open Scope Z_scope.

Abbreviation byte := Init.Byte.byte.

(** ** Exceptions and results *)

Inductive exn : Type :=
| ZeroDivisionError
| StructError
| TypeError
| ValueError
| OverflowError
| IndexError
| KeyError
| Unmodelled.

Inductive result (A : Type) : Type :=
| Ok (a : A)
| Raise (e : exn).

Arguments Ok {A} a.
Arguments Raise {A} e.

Definition bind {A B} (m : result A) (k : A -> result B) : result B :=
  match m with
  | Ok a => k a
  | Raise e => Raise e
  end.

Notation "x <- m ;; k" := (bind m (fun x => k))
  (at level 61, m at next level, right associativity).
Notation "' p <- m ;; k" := (bind m (fun p => k))
  (at level 61, p pattern, m at next level, right associativity).

Definition of_option {A} (e : exn) (o : option A) : result A :=
  match o with
  | Some a => Ok a
  | None => Raise e
  end.

(** [[f(x) for x in l]] where [f] may raise: the first failure wins. *)
Fixpoint mapM {A B} (f : A -> result B) (l : list A) : result (list B) :=
  match l with
  | [] => Ok []
  | x :: l' => y <- f x ;; ys <- mapM f l' ;; Ok (y :: ys)
  end.

(** [try: f(x) except: d]. *)
Definition try_default {A} (m : result A) (d : A) : A :=
  match m with
  | Ok a => a
  | Raise _ => d
  end.

(** ** Python floats *)

Module PyFloat.

Definition prec : Z := 53.
Definition emax : Z := 1024.

Definition float : Type := spec_float.

Definition nan : float := S754_nan.
Definition zero : float := S754_zero false.

Definition add : float -> float -> float := SFadd prec emax.
Definition sub : float -> float -> float := SFsub prec emax.
Definition mul : float -> float -> float := SFmul prec emax.
Definition div : float -> float -> float := SFdiv prec emax.
Definition eqb : float -> float -> bool := SFeqb.
Definition ltb : float -> float -> bool := SFltb.
Definition leb : float -> float -> bool := SFleb.

Definition is_nan (x : float) : bool :=
  match x with S754_nan => true | _ => false end.

Definition is_inf (x : float) : bool :=
  match x with S754_infinity _ => true | _ => false end.

Definition is_zero (x : float) : bool :=
  match x with S754_zero _ => true | _ => false end.

Definition sign (x : float) : bool :=
  match x with
  | S754_zero s | S754_infinity s | S754_finite s _ _ => s
  | S754_nan => false
  end.

(** Nearest binary64 number to an integer (ties to even); infinite when
    the integer is out of range. *)
Definition of_Z (n : Z) : float := binary_normalize prec emax n 0 false.

(** Nearest binary64 number to [m * 2^e], with the sign [s] also on a
    zero result. *)
Definition of_scaled (s : bool) (m : Z) (e : Z) : float :=
  match m with
  | Z0 => S754_zero s
  | Zpos p | Zneg p => binary_round prec emax s p e
  end.

(** [float(n)] for an int [n]. *)
Definition of_int (n : Z) : result float :=
  let x := of_Z n in
  if is_inf x then Raise OverflowError else Ok x.

(** The literal [0.01]. *)
Definition c_001 : float := S754_finite false 5764607523034235 (-59).

(** Round half to even of the rational [m / 2^k], [m >= 0], [k > 0]. *)
Definition rhe_shift (m : Z) (k : Z) : Z :=
  let d := Z.shiftl 1 k in
  let q := m / d in
  let r := m mod d in
  match Z.compare (2 * r) d with
  | Lt => q
  | Gt => q + 1
  | Eq => if Z.even q then q else q + 1
  end.

(** [round(x)] with one argument: nearest integer, ties to even. *)
Definition round (x : float) : result Z :=
  match x with
  | S754_nan => Raise ValueError
  | S754_infinity _ => Raise OverflowError
  | S754_zero _ => Ok 0
  | S754_finite s m e =>
      let a := if 0 <=? e then Z.shiftl (Zpos m) e
               else rhe_shift (Zpos m) (- e) in
      Ok (if s then - a else a)
  end.

(** [int(x)]: truncation towards zero. *)
Definition trunc (x : float) : result Z :=
  match x with
  | S754_nan => Raise ValueError
  | S754_infinity _ => Raise OverflowError
  | S754_zero _ => Ok 0
  | S754_finite s m e =>
      let a := if 0 <=? e then Z.shiftl (Zpos m) e
               else Z.shiftr (Zpos m) (- e) in
      Ok (if s then - a else a)
  end.

(** [round(x, 3)]: the exact value is rounded half to even at the third
    decimal, and the decimal result is converted back to the nearest
    binary64 number. Non-finite values and zeros round to themselves. *)
Definition round3 (x : float) : float :=
  match x with
  | S754_finite s m e =>
      if 0 <=? e then x
      else
        match rhe_shift (Zpos m * 1000) (- e) with
        | Zpos n => div (S754_finite s n 0) (S754_finite false 1000 0)
        | _ => S754_zero s
        end
  | _ => x
  end.

(** [math.floor] as a float. *)
Definition floor (x : float) : float :=
  match x with
  | S754_finite s m e =>
      if 0 <=? e then x
      else
        let q := Z.shiftr (Zpos m) (- e) in
        let r := Z.land (Zpos m) (Z.ones (- e)) in
        if r =? 0 then x
        else if s then of_scaled true (q + 1) 0
        else of_scaled false q 0
  | _ => x
  end.

(** C [fmod]: [x - trunc(x / y) * y], exact, with the sign of [x]. *)
Definition fmod (x y : float) : float :=
  match x, y with
  | S754_nan, _ | _, S754_nan => S754_nan
  | S754_infinity _, _ => S754_nan
  | _, S754_zero _ => S754_nan
  | S754_zero _, _ => x
  | S754_finite _ _ _, S754_infinity _ => x
  | S754_finite sx mx ex, S754_finite _ my ey =>
      let e := Z.min ex ey in
      let a := Z.shiftl (Zpos mx) (ex - e) in
      let b := Z.shiftl (Zpos my) (ey - e) in
      of_scaled sx (a mod b) e
  end.

Definition truthy (x : float) : bool := negb (is_zero x).

Definition copysign0 (x : float) : float := S754_zero (sign x).

(** [vx // wx] on floats, following [_float_div_mod] of CPython. *)
Definition floordiv (vx wx : float) : result float :=
  if is_zero wx then Raise ZeroDivisionError
  else
    let md := fmod vx wx in
    let dv := div (sub vx md) wx in
    let dv :=
      if truthy md && negb (Bool.eqb (ltb wx zero) (ltb md zero))
      then sub dv (of_Z 1) else dv in
    if truthy dv then
      let fl := floor dv in
      Ok (if ltb (div (of_Z 1) (of_Z 2)) (sub dv fl)
          then add fl (of_Z 1) else fl)
    else Ok (copysign0 (div vx wx)).

(** Exact comparison of an integer with a float, as Python does for mixed
    operands; [None] when the float is not a number. *)
Definition compare_Z (n : Z) (x : float) : option comparison :=
  match x with
  | S754_nan => None
  | S754_infinity s => Some (if s then Gt else Lt)
  | S754_zero _ => Some (n ?= 0)
  | S754_finite s m e =>
      let v := if s then Zneg m else Zpos m in
      Some (if 0 <=? e then n ?= Z.shiftl v e
            else Z.shiftl n (- e) ?= v)
  end.

(** [struct.unpack('!f', b)] and [struct.unpack('!d', b)] on the integer
    read big-endian from the 4 or 8 bytes. *)
Definition of_bits (mbits ebits : Z) (bits : Z) : float :=
  let s := Z.testbit bits (mbits + ebits) in
  let ex := Z.land (Z.shiftr bits mbits) (Z.ones ebits) in
  let mt := Z.land bits (Z.ones mbits) in
  let bias := Z.ones (ebits - 1) in
  if ex =? Z.ones ebits then
    if mt =? 0 then S754_infinity s else S754_nan
  else if ex =? 0 then of_scaled s mt (1 - bias - mbits)
  else of_scaled s (mt + Z.shiftl 1 mbits) (ex - bias - mbits).

Definition of_bits32 : Z -> float := of_bits 23 8.
Definition of_bits64 : Z -> float := of_bits 52 11.

End PyFloat.

Abbreviation float := PyFloat.float.

(** ** Strings, bytes and sequences *)

Definition lower_ascii (c : ascii) : ascii :=
  let n := nat_of_ascii c in
  if ((65 <=? n) && (n <=? 90))%nat then ascii_of_nat (n + 32) else c.

(** [s.lower()]; only compared against ASCII keywords. *)
Fixpoint lower (s : string) : string :=
  match s with
  | EmptyString => EmptyString
  | String c s' => String (lower_ascii c) (lower s')
  end.

Fixpoint drop (n : nat) (s : string) : string :=
  match n, s with
  | O, _ => s
  | S n', String _ s' => drop n' s'
  | S _, EmptyString => EmptyString
  end.

(** [s.split(sep, 1)[1]]: what follows the first occurrence of [sep]. *)
Fixpoint split_after (sep s : string) : result string :=
  if String.prefix sep s then Ok (drop (String.length sep) s)
  else
    match s with
    | EmptyString => Raise IndexError
    | String _ s' => split_after sep s'
    end.

Definition is_space (c : ascii) : bool :=
  let n := nat_of_ascii c in
  (((9 <=? n) && (n <=? 13)) || ((28 <=? n) && (n <=? 32)))%nat.

(** [s.strip() == ""], for the ASCII white space; the strings tested are
    tokens of the description, which hold no white space at all. *)
Fixpoint blank (s : string) : bool :=
  match s with
  | EmptyString => true
  | String c s' => is_space c && blank s'
  end.

(** [s.rstrip('\x00')]. *)
Fixpoint rstrip_nul (s : string) : string :=
  match s with
  | EmptyString => EmptyString
  | String c s' =>
      match rstrip_nul s' with
      | EmptyString =>
          if Ascii.eqb c Ascii.zero then EmptyString
          else String c EmptyString
      | r => String c r
      end
  end.

Definition hex_digit (n : N) : ascii :=
  match String.get (N.to_nat n) "0123456789abcdef" with
  | Some c => c
  | None => "0"%char
  end.

(** [chunk.hex()]. *)
Fixpoint hex (chunk : list byte) : string :=
  match chunk with
  | [] => EmptyString
  | b :: chunk' =>
      let n := Strings.Byte.to_N b in
      String (hex_digit (n / 16)) (String (hex_digit (n mod 16)) (hex chunk'))
  end.

(** [str(n)] for an int. *)
Definition str_of_Z (n : Z) : string := NilZero.string_of_int (Z.to_int n).

(** [int.from_bytes(chunk, 'big')]. *)
Definition from_bytes_big (chunk : list byte) : Z :=
  fold_left (fun acc b => acc * 256 + Z.of_N (Strings.Byte.to_N b)) chunk 0.

Definition len {A} (l : list A) : Z := Z.of_nat (List.length l).

(** Position denoted by a slice bound on a sequence of length [n]. *)
Definition slice_bound (n i : Z) : Z :=
  if i <? 0 then Z.max 0 (i + n) else Z.min i n.

(** [l[a:b]]. *)
Definition slice {A} (l : list A) (a b : Z) : list A :=
  let a' := slice_bound (len l) a in
  let b' := slice_bound (len l) b in
  firstn (Z.to_nat (b' - a')) (skipn (Z.to_nat a') l).

(** [range(n)]. *)
Definition range (n : Z) : list Z := map Z.of_nat (seq 0 (Z.to_nat n)).

Fixpoint bits_of_pos (p : positive) (acc : list Z) : list Z :=
  match p with
  | xH => 1 :: acc
  | xO p' => bits_of_pos p' (0 :: acc)
  | xI p' => bits_of_pos p' (1 :: acc)
  end.

Definition binary_digits (n : Z) : list Z :=
  match n with
  | Zpos p => bits_of_pos p []
  | _ => [0]
  end.

(** [list(map(int, format(n, f'0{w}b')))] for [n >= 0]; a negative width
    makes the format specification invalid. *)
Definition format_bits (n w : Z) : result (list Z) :=
  if w <? 0 then Raise ValueError
  else
    let d := binary_digits n in
    Ok (repeat 0 (Z.to_nat w - List.length d)%nat ++ d).

Definition sumZ (l : list Z) : Z := fold_left Z.add l 0.

(** ** Integers: Python ints and NumPy scalars

    A Python int is unbounded. A [numpy.int64] or [numpy.uint64] scalar
    wraps around on overflow, with a warning only. The embedding follows
    the promotion rules of NumPy 2: an operation between such a scalar
    and a Python int gives a scalar of the same type, and raises
    [OverflowError] when the Python int is outside the range of the type.
    An int64 that meets a uint64 gives a float64 and leaves the integers:
    there the embedding stops with [Unmodelled]. *)

Inductive num : Type :=
| PyInt (n : Z)
| Int64 (n : Z)
| UInt64 (n : Z).

(** The integer a Python int or a scalar stands for. *)
Definition num_val (x : num) : Z :=
  match x with
  | PyInt n | Int64 n | UInt64 n => n
  end.

Definition wrap_int64 (n : Z) : Z := (n + 2 ^ 63) mod 2 ^ 64 - 2 ^ 63.

Definition wrap_uint64 (n : Z) : Z := n mod 2 ^ 64.

Definition in_int64 (n : Z) : bool := (- 2 ^ 63 <=? n) && (n <? 2 ^ 63).

Definition in_uint64 (n : Z) : bool := (0 <=? n) && (n <? 2 ^ 64).

(** [a op b] for an operation [op] of the integers. *)
Definition arith (op : Z -> Z -> Z) (a b : num) : result num :=
  match a, b with
  | PyInt x, PyInt y => Ok (PyInt (op x y))
  | Int64 x, Int64 y => Ok (Int64 (wrap_int64 (op x y)))
  | UInt64 x, UInt64 y => Ok (UInt64 (wrap_uint64 (op x y)))
  | PyInt x, Int64 y =>
      if in_int64 x then Ok (Int64 (wrap_int64 (op x y)))
      else Raise OverflowError
  | Int64 x, PyInt y =>
      if in_int64 y then Ok (Int64 (wrap_int64 (op x y)))
      else Raise OverflowError
  | PyInt x, UInt64 y =>
      if in_uint64 x then Ok (UInt64 (wrap_uint64 (op x y)))
      else Raise OverflowError
  | UInt64 x, PyInt y =>
      if in_uint64 y then Ok (UInt64 (wrap_uint64 (op x y)))
      else Raise OverflowError
  | Int64 _, UInt64 _ | UInt64 _, Int64 _ => Raise Unmodelled
  end.

Definition int_add : num -> num -> result num := arith Z.add.

Definition int_sub : num -> num -> result num := arith Z.sub.

Definition int_mul : num -> num -> result num := arith Z.mul.

(** [a // b]: a Python int divided by zero raises; a NumPy scalar divided
    by zero is 0, with a warning only. *)
Definition int_floordiv (a b : num) : result num :=
  match a, b with
  | PyInt _, PyInt 0 => Raise ZeroDivisionError
  | _, _ => arith Z.div a b
  end.

(** ** Dictionaries *)

Definition dict (V : Type) : Type := list (string * V).

Fixpoint dict_get {V} (k : string) (d : dict V) : option V :=
  match d with
  | [] => None
  | (k', v) :: d' => if String.eqb k k' then Some v else dict_get k d'
  end.

(** [d[k] = v]: an existing key keeps its position. *)
Fixpoint dict_set {V} (k : string) (v : V) (d : dict V) : dict V :=
  match d with
  | [] => [(k, v)]
  | (k', v') :: d' =>
      if String.eqb k k' then (k, v) :: d' else (k', v') :: dict_set k v d'
  end.

Definition dict_mem {V} (k : string) (d : dict V) : bool :=
  match dict_get k d with Some _ => true | None => false end.

Definition keys {V} (d : dict V) : list string := map fst d.

(** [d[k].append(x)] on a [defaultdict(list)]. *)
Definition dict_append {V} (k : string) (x : V) (d : dict (list V))
  : dict (list V) :=
  match dict_get k d with
  | Some l => dict_set k (l ++ [x]) d
  | None => dict_set k [x] d
  end.

(** ** Decoded values *)

Inductive scalar : Type :=
| SInt (n : Z)
| SFloat (f : float)
| SStr (s : string)
| SBool (b : bool).

Inductive value : Type :=
| VScalar (x : scalar)
| VList (xs : list scalar).

(** ** The flattened schema: rows of [protocol_df] *)

Module Row.
Record t : Type := mk {
  name : string;
  size : Z;
  type : string;
  size_field : string;
  num_elements : Z;
  is_bitfield : bool
}.
End Row.

(** ** Decoded records *)

Inductive rec_extra : Type :=
| ArrayKeys (num_elements : Z)
| FieldKeys (size_defining_field : string) (bitfields_count : option Z)
            (bit_vector : option (list Z)).

Module Rec.
Record t : Type := mk {
  field_name : string;
  size : Z;
  value : value;
  field_type : string;
  extra : rec_extra
}.
End Rec.

(** ** Aggregated features and model outputs *)

Module Feat.
Record t : Type := mk {
  count : float;
  mean_size : float;
  std_size : float;
  min_size : float;
  max_size : float;
  mean_value : float;
  std_value : float;
  min_value : float;
  max_value : float
}.
End Feat.

(** The arrays returned by the seven [predict] calls: a row of class scores
    for the two classifiers, the single output read as a float for the
    regressors. *)
Module Pred.
Record t : Type := mk {
  is_dynamic : list float;
  min_size : float;
  max_size : float;
  min_value : float;
  max_value : float;
  field_type : list float;
  bit_count : float
}.
End Pred.

(** ** Final descriptors

    A size or value bound is one number, or for a fixed array one number
    per element. *)

Inductive bound : Type :=
| Scalar (x : float)
| PerElement (l : list float).

Module Dpi.
Record t : Type := mk {
  is_dynamic_array : bool;
  min_size : bound;
  max_size : bound;
  min_value : option bound;
  max_value : option bound;
  size_defining_field : option string;
  field_type : string;
  bitfields_count : option Z
}.
End Dpi.

(** The order in which NumPy sorts floats: not-a-number last. *)
Definition np_le (x y : float) : bool :=
  PyFloat.is_nan y || (negb (PyFloat.is_nan x) && PyFloat.leb x y).

(** [values[indices]]. *)
Definition take {A} (values : list A) (indices : list nat) : result (list A) :=
  mapM (fun i => of_option IndexError (nth_error values i)) indices.

(** What [segment_stats] needs of the element type of the array [values].
    [sort_le] is the order [argsort] sorts by, and [gap_small gap range] is
    [gap < 0.01 * range]. *)
Record dtype (A : Type) : Type := {
  argsort : list A -> list nat;
  sort_le : A -> A -> bool;
  minus : A -> A -> A;
  is_zero : A -> bool;
  le : A -> A -> bool;
  is_nan : A -> bool;
  gap_small : A -> A -> bool
}.

Arguments argsort {A}.
Arguments sort_le {A}.
Arguments minus {A}.
Arguments is_zero {A}.
Arguments le {A}.
Arguments is_nan {A}.
Arguments gap_small {A}.

(** ** Library routines taken as given

    [argsort_int] and [argsort_float] are [np.argsort] on an integer and on
    a float array: some permutation of the positions that sorts the array
    (the default sort is not stable, so which one is left open). *)
Class Runtime : Type := {
  utf8_decode_ignore : list byte -> string;
  int_of_str : string -> result Z;
  float_of_str : string -> result float;
  np_mean : list float -> float;
  np_std : list float -> float;
  predict : list float -> Pred.t;
  inverse_transform : nat -> result string;
  argsort_int : list Z -> list nat;
  argsort_float : list float -> list nat;
  argsort_int_perm : forall l,
    Permutation (argsort_int l) (seq 0 (List.length l));
  argsort_int_sorted : forall l s,
    take l (argsort_int l) = Ok s -> Sorted (fun x y => x <= y) s;
  argsort_float_perm : forall l,
    Permutation (argsort_float l) (seq 0 (List.length l));
  argsort_float_sorted : forall l s,
    take l (argsort_float l) = Ok s ->
    Sorted (fun x y => np_le x y = true) s
}.

Section Pipeline.

Context {RT : Runtime}.

(** ** Conversions of decoded values *)

(** [float(x)]. *)
Definition py_float (x : scalar) : result float :=
  match x with
  | SInt n => PyFloat.of_int n
  | SFloat f => Ok f
  | SStr s => float_of_str s
  | SBool b => Ok (PyFloat.of_Z (if b then 1 else 0))
  end.

Definition value_float (v : value) : result float :=
  match v with
  | VScalar x => py_float x
  | VList _ => Raise TypeError
  end.

(** [int(x)]. *)
Definition py_int (v : value) : result Z :=
  match v with
  | VScalar (SInt n) => Ok n
  | VScalar (SFloat f) => PyFloat.trunc f
  | VScalar (SStr s) => int_of_str s
  | VScalar (SBool b) => Ok (if b then 1 else 0)
  | VList _ => Raise TypeError
  end.

(** ** Schema compiler: [load_protocol_definitions] *)

Record custom_type : Type := {
  fields : list Row.t;
  total_size : Z
}.

Definition is_bit (ftype : string) : bool :=
  let t := lower ftype in String.eqb t "bit" || String.eqb t "bitfield".

Definition inline (prefix : string) (sub : Row.t) : Row.t :=
  Row.mk (prefix ++ "." ++ Row.name sub) (Row.size sub) (Row.type sub)
         (Row.size_field sub) (Row.num_elements sub) (Row.is_bitfield sub).

(** One line of the description, already split into tokens. *)
Definition compile_line (custom_types : dict custom_type) (toks : list string)
  : result (list Row.t) :=
  match toks with
  | [n; sz; typ] =>
      match dict_get typ custom_types with
      | Some ct => Ok (map (inline n) (fields ct))
      | None =>
          s <- int_of_str sz ;;
          Ok [Row.mk n s typ "" 0 (is_bit typ)]
      end
  | [n; sz; arr; base; ne] =>
      if String.eqb (lower arr) "array" then
        match dict_get base custom_types with
        | Some ct =>
            total <- int_of_str sz ;;
            count <- int_of_str ne ;;
            Ok (flat_map
                  (fun i => map (inline (n ++ "[" ++ str_of_Z i ++ "]"))
                                (fields ct))
                  (range count))
        | None =>
            s <- int_of_str sz ;;
            c <- int_of_str ne ;;
            Ok [Row.mk n s ("array of " ++ base) "" c false]
        end
      else Raise ValueError
  | [n; sz; ftype; sf] =>
      s <- int_of_str sz ;;
      Ok [Row.mk n s ftype sf 0 (is_bit ftype)]
  | _ => Raise ValueError
  end.

(** The first non-empty line is the declared count; a count that differs
    from the number of rows is only reported. *)
Definition load_protocol_definitions (custom_types : dict custom_type)
           (header : string) (lines : list (list string))
  : result (list Row.t) :=
  _ <- int_of_str header ;;
  rows <- mapM (compile_line custom_types) lines ;;
  Ok (List.concat rows).

(** [dict(zip(protocol_df['name'], protocol_df['size_field']))]. *)
Definition protocol_mapping (protocol_df : list Row.t) : dict string :=
  fold_left (fun d r => dict_set (Row.name r) (Row.size_field r) d)
            protocol_df [].

(** ** Packet decoder: [parse_pcap_with_ip] *)

Record dstate : Type := {
  offset : num;
  packet_data : dict value;
  records : list Rec.t
}.

Definition dstate0 : dstate :=
  {| offset := PyInt 0; packet_data := []; records := [] |}.

(** The type pandas gives the column [size] of the frame built from the
    rows, whose sizes are Python ints: int64 when they all fit, uint64
    when none is negative and they all fit that, and else object, which
    leaves them Python ints. *)
Inductive column : Type :=
| Int64Column
| UInt64Column
| ObjectColumn.

Definition size_dtype (protocol_df : list Row.t) : column :=
  let sizes := map Row.size protocol_df in
  if forallb in_int64 sizes then Int64Column
  else if forallb in_uint64 sizes then UInt64Column
  else ObjectColumn.

(** [protocol_df.iloc[j]['size']] for the row [r] at position [j]: a scalar
    of the type of the column. ([row['size']] of [iterrows] is a Python
    int whatever the column is.) *)
Definition iloc_size (protocol_df : list Row.t) (r : Row.t) : num :=
  match size_dtype protocol_df with
  | Int64Column => Int64 (Row.size r)
  | UInt64Column => UInt64 (Row.size r)
  | ObjectColumn => PyInt (Row.size r)
  end.

(** The loop over the rows after position [idx] that adds up their
    non-zero sizes. *)
Definition remaining_after (protocol_df : list Row.t) (idx : nat)
  : result num :=
  fold_left (fun acc r =>
               remaining <- acc ;;
               let s := iloc_size protocol_df r in
               if negb (num_val s =? 0) then int_add remaining s
               else Ok remaining)
            (skipn (S idx) protocol_df) (Ok (PyInt 0)).

(** The size used for a row: its declared size, or for a dynamic row what
    the size field or the remaining bytes give. *)
Definition resolve_size (protocol_df : list Row.t) (payload : list byte)
           (idx : nat) (row : Row.t) (st : dstate) : result num :=
  let fsize := Row.size row in
  if fsize =? 0 then
    remaining <- remaining_after protocol_df idx ;;
    left <- int_sub (PyInt (len payload)) (offset st) ;;
    dyn <- int_sub left remaining ;;
    if negb (String.eqb (Row.size_field row) "") then
      match dict_get (Row.size_field row) (packet_data st) with
      | Some cand =>
          match py_int cand with
          | Ok n => Ok (PyInt n)
          | Raise _ => Ok dyn
          end
      | None => Ok dyn
      end
    else Ok dyn
  else Ok (PyInt fsize).

Definition unpack_f (chunk : list byte) : result float :=
  if len chunk =? 4 then Ok (PyFloat.of_bits32 (from_bytes_big chunk))
  else Raise StructError.

Definition unpack_d (chunk : list byte) : result float :=
  if len chunk =? 8 then Ok (PyFloat.of_bits64 (from_bytes_big chunk))
  else Raise StructError.

Definition text (chunk : list byte) : string :=
  rstrip_nul (utf8_decode_ignore chunk).

(** One array element of base type [base]. *)
Definition decode_element (base : string) (chunk : list byte)
  : result scalar :=
  let b := lower base in
  if String.eqb b "int" then Ok (SInt (from_bytes_big chunk))
  else if String.eqb b "float" then f <- unpack_f chunk ;; Ok (SFloat f)
  else if String.eqb b "double" then f <- unpack_d chunk ;; Ok (SFloat f)
  else if String.eqb b "char" then Ok (SStr (text chunk))
  else Ok (SStr (hex chunk)).

(** A field that is neither an array nor a bitfield. *)
Definition decode_scalar (ftype_descr : string) (chunk : list byte)
  : result scalar :=
  let lt := lower ftype_descr in
  if String.eqb lt "int" then Ok (SInt (from_bytes_big chunk))
  else if String.eqb lt "float" then f <- unpack_f chunk ;; Ok (SFloat f)
  else if String.eqb lt "double" then f <- unpack_d chunk ;; Ok (SFloat f)
  else if String.eqb lt "char" then Ok (SStr (text chunk))
  else if String.eqb lt "bool" then
    Ok (SBool (negb (from_bytes_big chunk =? 0)))
  else Ok (SStr (hex chunk)).

(** The element values of an array field of [ne] elements. *)
Definition decode_array (payload : list byte) (base : string)
           (off fsize : num) (ne : Z) : result (list scalar) :=
  elem_sz <- int_floordiv fsize (PyInt ne) ;;
  mapM (fun i =>
          step <- int_mul (PyInt i) elem_sz ;;
          start <- int_add off step ;;
          stop <- int_add start elem_sz ;;
          decode_element base (slice payload (num_val start) (num_val stop)))
       (range ne).

(** The state after a field: [offset += fsize] gives once more the sum
    [stop] that the bounds check has computed. *)
Definition advance (st : dstate) (fname : string) (stop : num) (val : value)
           (rec : Rec.t) : dstate :=
  {| offset := stop;
     packet_data := dict_set fname val (packet_data st);
     records := records st ++ [rec] |}.

(** The body of the loop over the rows; [None] is the [break]. The size
    of a record is the integer that [fsize] stands for. *)
Definition decode_field (protocol_df : list Row.t) (payload : list byte)
           (idx : nat) (row : Row.t) (st : dstate) : result (option dstate) :=
  let fname := Row.name row in
  let ftype_descr := Row.type row in
  let sf := Row.size_field row in
  let ne := Row.num_elements row in
  fsize <- resolve_size protocol_df payload idx row st ;;
  stop <- int_add (offset st) fsize ;;
  if num_val stop >? len payload then Ok None
  else if String.prefix "array of " ftype_descr then
    base <- split_after "array of " ftype_descr ;;
    vals <- decode_array payload base (offset st) fsize ne ;;
    Ok (Some (advance st fname stop (VList vals)
                (Rec.mk fname (num_val fsize) (VList vals) ftype_descr
                        (ArrayKeys ne))))
  else
    let chunk := slice payload (num_val (offset st)) (num_val stop) in
    if Row.is_bitfield row then
      width <- int_mul fsize (PyInt 8) ;;
      bits <- format_bits (from_bytes_big chunk) (num_val width) ;;
      let val := VList (map SInt bits) in
      Ok (Some (advance st fname stop val
                  (Rec.mk fname (num_val fsize) val ftype_descr
                          (FieldKeys sf (Some (sumZ bits)) (Some bits)))))
    else
      x <- decode_scalar ftype_descr chunk ;;
      Ok (Some (advance st fname stop (VScalar x)
                  (Rec.mk fname (num_val fsize) (VScalar x) ftype_descr
                          (FieldKeys sf None None)))).

(** The loop over the rows from position [idx] on. The flag tells whether
    the loop was left by [break]. *)
Fixpoint decode_rows (protocol_df : list Row.t) (payload : list byte)
         (idx : nat) (rows : list Row.t) (st : dstate)
  : result (bool * dstate) :=
  match rows with
  | [] => Ok (false, st)
  | row :: rest =>
      r <- decode_field protocol_df payload idx row st ;;
      match r with
      | None => Ok (true, st)
      | Some st' => decode_rows protocol_df payload (S idx) rest st'
      end
  end.

Definition decode_packet (protocol_df : list Row.t) (payload : list byte)
  : result (list Rec.t) :=
  '(_, st) <- decode_rows protocol_df payload 0 protocol_df dstate0 ;;
  Ok (records st).

(** A captured packet: the UDP ports when it has a UDP layer, the
    addresses when it has an IP layer, and the UDP payload. *)
Record packet : Type := {
  udp : option (Z * Z);
  ip : option (string * string);
  payload_of : list byte
}.

Definition series : Type := dict (list (list Rec.t)).

(** The body of the loop over the packets. *)
Definition parse_packet (protocol_df : list Row.t) (data : series)
           (pkt : packet) : result series :=
  match udp pkt with
  | Some (sport, dport) =>
      if (dport =? 10000) || (sport =? 10000) then
        '(src, dst) <- of_option IndexError (ip pkt) ;;
        let src_ip := if dport =? 10000 then src else dst in
        recs <- decode_packet protocol_df (payload_of pkt) ;;
        match recs with
        | [] => Ok data
        | _ :: _ => Ok (dict_append src_ip recs data)
        end
      else Ok data
  | None => Ok data
  end.

Fixpoint parse_packets (protocol_df : list Row.t) (data : series)
         (packets : list packet) : result series :=
  match packets with
  | [] => Ok data
  | pkt :: rest =>
      data' <- parse_packet protocol_df data pkt ;;
      parse_packets protocol_df data' rest
  end.

Definition parse_pcap_with_ip (packets : list packet)
           (protocol_df : list Row.t) : result series :=
  parse_packets protocol_df [] packets.

(** ** Feature aggregator: [extract_aggregated_features] *)

Definition mem (t : string) (l : list string) : bool :=
  existsb (String.eqb t) l.

(** Reduction with [np.minimum] / [np.maximum]: a not-a-number value is
    propagated, and among equal values the later one is kept. *)
Definition np_min (a : list float) : float :=
  match a with
  | [] => PyFloat.nan
  | x :: a' =>
      fold_left (fun io1 in2 =>
                   if PyFloat.ltb io1 in2 || PyFloat.is_nan io1
                   then io1 else in2) a' x
  end.

Definition np_max (a : list float) : float :=
  match a with
  | [] => PyFloat.nan
  | x :: a' =>
      fold_left (fun io1 in2 =>
                   if PyFloat.ltb in2 io1 || PyFloat.is_nan io1
                   then io1 else in2) a' x
  end.

(** [float(a.f()) if a.size > 0 else 0.0]. *)
Definition stat (f : list float -> float) (a : list float) : float :=
  match a with
  | [] => PyFloat.zero
  | _ :: _ => f a
  end.

(** The numbers one record contributes to the value statistics. *)
Definition numeric_vals_of (s : Rec.t) : list float :=
  match Rec.value s with
  | VList l => map (fun elt => try_default (py_float elt) PyFloat.zero) l
  | VScalar val =>
      if mem (lower (Rec.field_type s))
             ["int"; "float"; "double"; "long"; "short"]
      then [try_default (py_float val) PyFloat.zero]
      else [PyFloat.zero]
  end.

Definition extract_aggregated_features (stats : list Rec.t)
  : result Feat.t :=
  sizes <- mapM (fun s => PyFloat.of_int (Rec.size s)) stats ;;
  let numeric_vals := flat_map numeric_vals_of stats in
  Ok {| Feat.count := PyFloat.of_Z (len sizes);
        Feat.mean_size := stat np_mean sizes;
        Feat.std_size := stat np_std sizes;
        Feat.min_size := stat np_min sizes;
        Feat.max_size := stat np_max sizes;
        Feat.mean_value := stat np_mean numeric_vals;
        Feat.std_value := stat np_std numeric_vals;
        Feat.min_value := stat np_min numeric_vals;
        Feat.max_value := stat np_max numeric_vals |}.

Definition create_feature_vector (features : Feat.t) : list float :=
  [ Feat.count features; Feat.mean_size features; Feat.std_size features;
    Feat.min_size features; Feat.max_size features;
    Feat.mean_value features; Feat.std_value features;
    Feat.min_value features; Feat.max_value features ].

(** ** Segmentation engine: [segment_stats] *)

(** The array [values]: integer when built from sizes, float when built
    from parsed values. *)
Inductive axis : Type :=
| AxInt (values : list Z)
| AxFloat (values : list float).

Definition sizes_of (stats : list Rec.t) : list Z := map Rec.size stats.

Definition all_zero_int (a : list Z) : bool := forallb (fun x => x =? 0) a.

Definition all_zero_float (a : list float) : bool :=
  forallb (fun x => PyFloat.eqb x PyFloat.zero) a.

(** The first part of [segment_stats], up to the choice of [values]. *)
Definition clustering_axis (stats : list Rec.t) : result axis :=
  first <- of_option IndexError (hd_error stats) ;;
  let first_field_type := Rec.field_type first in
  if mem (lower first_field_type) ["int"; "float"; "double"; "long"] then
    match mapM (fun s => value_float (Rec.value s)) stats with
    | Ok numeric_values =>
        if all_zero_float numeric_values then Ok (AxInt (sizes_of stats))
        else Ok (AxFloat numeric_values)
    | Raise _ =>
        let numeric_values := sizes_of stats in
        if all_zero_int numeric_values then Ok (AxInt (sizes_of stats))
        else Ok (AxInt numeric_values)
    end
  else Ok (AxInt (sizes_of stats)).

Definition int64 : dtype Z :=
  {| argsort := argsort_int;
     sort_le := Z.leb;
     minus := fun x y => wrap_int64 (x - y);
     is_zero := fun x => x =? 0;
     le := Z.leb;
     is_nan := fun _ => false;
     gap_small := fun gap overall_range =>
       PyFloat.ltb (PyFloat.of_Z gap)
                   (PyFloat.mul PyFloat.c_001 (PyFloat.of_Z overall_range)) |}.

Definition float64 : dtype float :=
  {| argsort := argsort_float;
     sort_le := np_le;
     minus := PyFloat.sub;
     is_zero := fun x => PyFloat.eqb x PyFloat.zero;
     le := PyFloat.leb;
     is_nan := PyFloat.is_nan;
     gap_small := fun gap overall_range =>
       PyFloat.ltb gap (PyFloat.mul PyFloat.c_001 overall_range) |}.

(** [np.diff]. *)
Fixpoint np_diff {A} (T : dtype A) (a : list A) : list A :=
  match a with
  | x :: ((y :: _) as a') => minus T y x :: np_diff T a'
  | _ => []
  end.

(** The scan of [np.argmax]: the running maximum [mp] found at [best] is
    replaced by a later element unless that element is [<= mp]; the scan
    stops at the first not-a-number. *)
Fixpoint argmax_from {A} (T : dtype A) (mp : A) (best i : nat) (a : list A)
  : nat :=
  if is_nan T mp then best
  else
    match a with
    | [] => best
    | x :: a' =>
        if negb (le T x mp) then argmax_from T x i (S i) a'
        else argmax_from T mp best (S i) a'
    end.

Definition np_argmax {A} (T : dtype A) (a : list A) : result nat :=
  match a with
  | [] => Raise ValueError
  | x :: a' => Ok (argmax_from T x 0 1 a')
  end.

Definition all_indices (stats : list Rec.t) : list nat :=
  seq 0 (List.length stats).

(** [int(round((len(main_indices) / len(stats)) * 100))]. *)
Definition main_percentage (main_indices : list nat) (stats : list Rec.t)
  : result Z :=
  if len stats =? 0 then Raise ZeroDivisionError
  else
    PyFloat.round
      (PyFloat.mul
         (PyFloat.div (PyFloat.of_Z (len main_indices))
                      (PyFloat.of_Z (len stats)))
         (PyFloat.of_Z 100)).

Definition label_of (pct : Z) : string := (str_of_Z pct ++ "%")%string.

(** The two groups on either side of the largest gap, the main one first. *)
Definition split_groups (sorted_indices : list nat) (max_gap_index : nat)
  : list nat * list nat :=
  let seg1_indices := firstn (S max_gap_index) sorted_indices in
  let seg2_indices := skipn (S max_gap_index) sorted_indices in
  if (List.length seg2_indices <=? List.length seg1_indices)%nat
  then (seg1_indices, seg2_indices)
  else (seg2_indices, seg1_indices).

(** The second part of [segment_stats], from [len(values) < 2] on. *)
Definition segment_values {A} (T : dtype A) (values : list A)
           (stats : list Rec.t) : result (dict (list nat)) :=
  if len values <? 2 then Ok [("100%", all_indices stats)]
  else
    let sorted_indices := argsort T values in
    sorted_values <- take values sorted_indices ;;
    let diffs := np_diff T sorted_values in
    first <- of_option IndexError (hd_error sorted_values) ;;
    last <- of_option IndexError (hd_error (rev sorted_values)) ;;
    let overall_range := minus T last first in
    if is_zero T overall_range then Ok [("100%", all_indices stats)]
    else
      max_gap_index <- np_argmax T diffs ;;
      gap <- of_option IndexError (nth_error diffs max_gap_index) ;;
      if gap_small T gap overall_range then Ok [("100%", all_indices stats)]
      else
        let '(main_indices, outlier_indices) :=
          split_groups sorted_indices max_gap_index in
        pct <- main_percentage main_indices stats ;;
        Ok (dict_set "100%" (all_indices stats)
              (dict_set (label_of pct) main_indices [])).

Definition segment_stats (stats : list Rec.t) : result (dict (list nat)) :=
  ax <- clustering_axis stats ;;
  match ax with
  | AxInt values => segment_values int64 values stats
  | AxFloat values => segment_values float64 values stats
  end.

(** ** DPI synthesizer: [generate_dpi] *)

Definition count_of (t : string) (l : list string) : nat :=
  List.length (filter (String.eqb t) l).

(** [pd.Series(l).mode()[0]]: the most frequent entry, the least one in
    string order among equally frequent ones. *)
Definition better (l : list string) (t best : string) : bool :=
  ((count_of best l <? count_of t l)%nat
   || ((count_of t l =? count_of best l)%nat && String.ltb t best)).

Definition mode (l : list string) : option string :=
  match l with
  | [] => None
  | x :: l' =>
      Some (fold_left (fun best t => if better l t best then t else best)
                      l' x)
  end.

(** An int or a bool as an integer. *)
Definition as_int (x : scalar) : option Z :=
  match x with
  | SInt n => Some n
  | SBool b => Some (if b then 1 else 0)
  | _ => None
  end.

(** Comparison of two decoded scalars, exact between an int and a float;
    [None] when one is not-a-number, [TypeError] between text and a
    number. *)
Definition py_compare (a b : scalar) : result (option comparison) :=
  match a, b with
  | SStr s, SStr t => Ok (Some (String.compare s t))
  | SStr _, _ | _, SStr _ => Raise TypeError
  | SFloat x, SFloat y => Ok (SFcompare x y)
  | SFloat x, _ =>
      match as_int b with
      | Some n => Ok (option_map CompOpp (PyFloat.compare_Z n x))
      | None => Raise TypeError
      end
  | _, SFloat y =>
      match as_int a with
      | Some n => Ok (PyFloat.compare_Z n y)
      | None => Raise TypeError
      end
  | _, _ =>
      match as_int a, as_int b with
      | Some n, Some m => Ok (Some (n ?= m))
      | _, _ => Raise TypeError
      end
  end.

(** [min(lst)] and [max(lst)]: the running result is replaced by an item
    that compares strictly below (above) it. *)
Fixpoint extreme_from (want : comparison) (cur : scalar) (lst : list scalar)
  : result scalar :=
  match lst with
  | [] => Ok cur
  | item :: lst' =>
      c <- py_compare item cur ;;
      match c with
      | Some c' =>
          if match c', want with Lt, Lt | Gt, Gt => true | _, _ => false end
          then extreme_from want item lst'
          else extreme_from want cur lst'
      | None => extreme_from want cur lst'
      end
  end.

Definition py_min (lst : list scalar) : result scalar :=
  match lst with
  | [] => Raise ValueError
  | x :: lst' => extreme_from Lt x lst'
  end.

Definition py_max (lst : list scalar) : result scalar :=
  match lst with
  | [] => Raise ValueError
  | x :: lst' => extreme_from Gt x lst'
  end.

(** The characters of a string: a byte [10xxxxxx] continues the character
    before it. *)
Definition is_continuation (c : ascii) : bool :=
  let n := nat_of_ascii c in ((128 <=? n) && (n <? 192))%nat.

Fixpoint chars (s : string) : list string :=
  match s with
  | EmptyString => []
  | String c s' =>
      match chars s' with
      | r :: rs =>
          match r with
          | String c' _ =>
              if is_continuation c' then String c r :: rs
              else String c EmptyString :: r :: rs
          | EmptyString => String c EmptyString :: rs
          end
      | [] => [String c EmptyString]
      end
  end.

(** [v[i]] for [i >= 0]. *)
Definition index_value (v : value) (i : Z) : result scalar :=
  match v with
  | VList l => of_option IndexError (nth_error l (Z.to_nat i))
  | VScalar (SStr s) =>
      c <- of_option IndexError (nth_error (chars s) (Z.to_nat i)) ;;
      Ok (SStr c)
  | VScalar _ => Raise TypeError
  end.

(** [a + b] on numbers. *)
Definition py_add (a b : scalar) : result scalar :=
  match a, b with
  | SFloat x, SFloat y => Ok (SFloat (PyFloat.add x y))
  | SFloat x, _ =>
      match as_int b with
      | Some n => y <- PyFloat.of_int n ;; Ok (SFloat (PyFloat.add x y))
      | None => Raise TypeError
      end
  | _, SFloat y =>
      match as_int a with
      | Some n => x <- PyFloat.of_int n ;; Ok (SFloat (PyFloat.add x y))
      | None => Raise TypeError
      end
  | _, _ =>
      match as_int a, as_int b with
      | Some n, Some m => Ok (SInt (n + m))
      | _, _ => Raise TypeError
      end
  end.

(** [sum(l)], adding from left to right from [0]. *)
Fixpoint sum_from (acc : scalar) (l : list scalar) : result scalar :=
  match l with
  | [] => Ok acc
  | x :: l' => acc' <- py_add acc x ;; sum_from acc' l'
  end.

Definition py_sum (l : list scalar) : result scalar := sum_from (SInt 0) l.

(** [np.mean([sum(s['value']) for s in alt_stats
              if isinstance(s['value'], list)])]. *)
Definition list_values (alt_stats : list Rec.t) : list (list scalar) :=
  flat_map (fun s => match Rec.value s with
                     | VList l => [l]
                     | VScalar _ => []
                     end) alt_stats.

Definition mean_popcount (alt_stats : list Rec.t) : result float :=
  sums <- mapM py_sum (list_values alt_stats) ;;
  xs <- mapM py_float sums ;;
  Ok (np_mean xs).

(** The schema's size field for a field name, when it is not blank. *)
Definition size_field_of (protocol_df : list Row.t) (field_name : string)
  : option string :=
  match dict_get field_name (protocol_mapping protocol_df) with
  | Some sf => if blank sf then None else Some sf
  | None => None
  end.

Definition numeric_bases : list string := ["int"; "float"; "double"; "long"].

(** [any(t == nb or t.startswith(f'array of {nb}') for nb in numeric_bases)]. *)
Definition numeric_type (t : string) : bool :=
  existsb (fun nb => String.eqb t nb
                     || String.prefix ("array of " ++ nb)%string t)
          numeric_bases.

Definition nan_fallback (pred observed : float) : float :=
  if PyFloat.is_nan pred then observed else pred.

(** The rounding of all bounds to three decimals. *)
Definition round_bound (b : bound) : bound :=
  match b with
  | Scalar x => Scalar (PyFloat.round3 x)
  | PerElement l => PerElement (map PyFloat.round3 l)
  end.

(** [float(min(lst)) if lst else 0.0] for every element position. *)
Definition extreme_vals (ext : list scalar -> result scalar)
           (value_lists : list (list scalar)) : result (list float) :=
  mapM (fun lst => match lst with
                   | [] => Ok PyFloat.zero
                   | _ :: _ => m <- ext lst ;; py_float m
                   end) value_lists.

(** The per-element lists of a fixed array of [nelems] elements of type
    [base]: sizes, then values. *)
Definition expand_array (base : string) (nelems : Z)
           (min_size_pred max_size_pred : float) (alt_stats : list Rec.t)
  : result (bound * bound * option bound * option bound) :=
  n <- PyFloat.of_int nelems ;;
  min_elem_sz <- PyFloat.floordiv min_size_pred n ;;
  max_elem_sz <- PyFloat.floordiv max_size_pred n ;;
  value_lists <-
    mapM (fun i => mapM (fun rec => index_value (Rec.value rec) i) alt_stats)
         (range nelems) ;;
  '(min_vals, max_vals) <-
    (if mem base numeric_bases then
       mn <- extreme_vals py_min value_lists ;;
       mx <- extreme_vals py_max value_lists ;;
       Ok (Some (PerElement mn), Some (PerElement mx))
     else Ok (None, None)) ;;
  Ok (PerElement (repeat min_elem_sz (Z.to_nat nelems)),
      PerElement (repeat max_elem_sz (Z.to_nat nelems)),
      min_vals, max_vals).

(** [aggregated_field_types.mode()[0]], or ["unknown"] without any type. *)
Definition aggregated_type (stats : list Rec.t) : string :=
  match mode (map Rec.field_type stats) with
  | Some t => t
  | None => "unknown"
  end.

(** The bit count of a field whose aggregated type is a bitfield. *)
Definition bit_count_of (aggregated_field_type : string) (p : Pred.t)
           (alt_stats : list Rec.t) : result (option Z) :=
  if String.eqb (lower aggregated_field_type) "bitfield" then
    let predicted_bit_count := Pred.bit_count p in
    if PyFloat.is_nan predicted_bit_count then
      m <- mean_popcount alt_stats ;;
      c <- PyFloat.round m ;; Ok (Some c)
    else c <- PyFloat.round predicted_bit_count ;; Ok (Some c)
  else Ok None.

(** The four bounds of the descriptor before rounding: the scalar ones,
    overridden by per-element lists when the row [proto_row] of the field
    declares a fixed array. *)
Definition bounds_of (proto_row : Row.t)
           (min_size_pred max_size_pred min_value_pred max_value_pred : float)
           (alt_stats : list Rec.t)
  : result (bound * bound * option bound * option bound) :=
  let ftype_desc := Row.type proto_row in
  let nelems := Row.num_elements proto_row in
  if String.prefix "array of " ftype_desc && (0 <? nelems) then
    base <- split_after "array of " ftype_desc ;;
    expand_array (lower base) nelems min_size_pred max_size_pred alt_stats
  else Ok (Scalar min_size_pred, Scalar max_size_pred,
           Some (Scalar min_value_pred), Some (Scalar max_value_pred)).

(** The body of the loop over the segments, after the seven [predict]
    calls have returned [p] for the features of the segment. *)
Definition synthesize_from (protocol_df : list Row.t) (field_name : string)
           (stats alt_stats : list Rec.t) (features : Feat.t) (p : Pred.t)
  : result Dpi.t :=
  is_dynamic_class <- np_argmax float64 (Pred.is_dynamic p) ;;
  let is_dynamic_array_pred := negb (is_dynamic_class =? 0)%nat in
  let is_dynamic_array_pred :=
    match size_field_of protocol_df field_name with
    | Some _ => true
    | None =>
        if PyFloat.eqb (Feat.min_size features) (Feat.max_size features)
        then false else is_dynamic_array_pred
    end in
  let min_size_pred := nan_fallback (Pred.min_size p) (Feat.min_size features) in
  let max_size_pred := nan_fallback (Pred.max_size p) (Feat.max_size features) in
  let min_value_pred :=
    nan_fallback (Pred.min_value p) (Feat.min_value features) in
  let max_value_pred :=
    nan_fallback (Pred.max_value p) (Feat.max_value features) in
  field_type_class <- np_argmax float64 (Pred.field_type p) ;;
  field_type_pred <- inverse_transform field_type_class ;;
  let aggregated_field_type := aggregated_type stats in
  let field_type_pred :=
    if negb (String.eqb aggregated_field_type "bitfield")
    then aggregated_field_type else field_type_pred in
  aggregated_bit_count <- bit_count_of aggregated_field_type p alt_stats ;;
  let size_def_pred := size_field_of protocol_df field_name in
  proto_row <-
    of_option IndexError
      (find (fun r => String.eqb (Row.name r) field_name) protocol_df) ;;
  '(min_size, max_size, min_value, max_value) <-
    bounds_of proto_row min_size_pred max_size_pred
              min_value_pred max_value_pred alt_stats ;;
  let keep := numeric_type (lower field_type_pred) in
  let min_value := if keep then min_value else None in
  let max_value := if keep then max_value else None in
  Ok {| Dpi.is_dynamic_array := is_dynamic_array_pred;
        Dpi.min_size := round_bound min_size;
        Dpi.max_size := round_bound max_size;
        Dpi.min_value := option_map round_bound min_value;
        Dpi.max_value := option_map round_bound max_value;
        Dpi.size_defining_field := size_def_pred;
        Dpi.field_type := field_type_pred;
        Dpi.bitfields_count := aggregated_bit_count |}.

(** The body of the loop over the segments of one field: the descriptor of
    field [field_name] for the occurrences [alt_stats] of one segment,
    [stats] being all occurrences of the field at the endpoint. *)
Definition synthesize (protocol_df : list Row.t) (field_name : string)
           (stats alt_stats : list Rec.t) : result Dpi.t :=
  features <- extract_aggregated_features alt_stats ;;
  synthesize_from protocol_df field_name stats alt_stats features
                  (predict (create_feature_vector features)).

(** [field_stats]: the records of an endpoint grouped by field name. *)
Definition group_fields (packets : list (list Rec.t)) : dict (list Rec.t) :=
  fold_left
    (fun field_stats packet =>
       fold_left (fun fs field => dict_append (Rec.field_name field) field fs)
                 packet field_stats)
    packets [].

(** The loop over the segments of one field. *)
Fixpoint synthesize_segments (protocol_df : list Row.t) (field_name : string)
         (stats : list Rec.t) (seg_dict : dict (list nat))
         (field_dpi_alternatives : dict Dpi.t) : result (dict Dpi.t) :=
  match seg_dict with
  | [] => Ok field_dpi_alternatives
  | (alt_label, indices) :: rest =>
      alt_stats <- take stats indices ;;
      field_dpi <- synthesize protocol_df field_name stats alt_stats ;;
      synthesize_segments protocol_df field_name stats rest
        (dict_set alt_label field_dpi field_dpi_alternatives)
  end.

Definition field_alternatives (protocol_df : list Row.t)
           (field_name : string) (stats : list Rec.t) : result (dict Dpi.t) :=
  seg_dict <- segment_stats stats ;;
  synthesize_segments protocol_df field_name stats seg_dict [].

(** [all_alt_keys.add(alt_label)]; the set is kept as a duplicate-free list
    (the order in which Python visits a set is not specified). *)
Definition set_add (k : string) (s : list string) : list string :=
  if mem k s then s else s ++ [k].

(** The loop over the fields of one endpoint. *)
Fixpoint synthesize_fields (protocol_df : list Row.t)
         (field_stats : dict (list Rec.t))
         (fields_dpi : dict (dict Dpi.t)) (all_alt_keys : list string)
  : result (dict (dict Dpi.t) * list string) :=
  match field_stats with
  | [] => Ok (fields_dpi, all_alt_keys)
  | (field_name, stats) :: rest =>
      alts <- field_alternatives protocol_df field_name stats ;;
      synthesize_fields protocol_df rest
        (dict_set field_name alts fields_dpi)
        (fold_left (fun s k => set_add k s) (keys alts) all_alt_keys)
  end.

(** The descriptor a field contributes under a label: its own one, or its
    ["100%"] one. *)
Definition pick (alt_label : string) (alt_dpi_dict : dict Dpi.t)
  : result Dpi.t :=
  match dict_get alt_label alt_dpi_dict with
  | Some d => Ok d
  | None => of_option KeyError (dict_get "100%" alt_dpi_dict)
  end.

Fixpoint fill_fields (alt_label : string) (fields_dpi : dict (dict Dpi.t))
         (acc : dict Dpi.t) : result (dict Dpi.t) :=
  match fields_dpi with
  | [] => Ok acc
  | (field_name, alt_dpi_dict) :: rest =>
      d <- pick alt_label alt_dpi_dict ;;
      fill_fields alt_label rest (dict_set field_name d acc)
  end.

(** The last loop of an endpoint: label, then field name, to descriptor. *)
Fixpoint assemble (all_alt_keys : list string)
         (fields_dpi : dict (dict Dpi.t))
         (dpi_alternatives : dict (dict Dpi.t))
  : result (dict (dict Dpi.t)) :=
  match all_alt_keys with
  | [] => Ok dpi_alternatives
  | alt_label :: rest =>
      row <- fill_fields alt_label fields_dpi [] ;;
      assemble rest fields_dpi (dict_set alt_label row dpi_alternatives)
  end.

Definition endpoint_dpi (protocol_df : list Row.t)
           (packets : list (list Rec.t)) : result (dict (dict Dpi.t)) :=
  '(fields_dpi, all_alt_keys) <-
    synthesize_fields protocol_df (group_fields packets) [] [] ;;
  assemble all_alt_keys fields_dpi [].

Fixpoint generate_endpoints (protocol_df : list Row.t) (endpoints : series)
         (dpi_result : dict (dict (dict Dpi.t)))
  : result (dict (dict (dict Dpi.t))) :=
  match endpoints with
  | [] => Ok dpi_result
  | (endpoint_ip, packets) :: rest =>
      dpi_alternatives <- endpoint_dpi protocol_df packets ;;
      generate_endpoints protocol_df rest
        (dict_set endpoint_ip dpi_alternatives dpi_result)
  end.

Definition generate_dpi (protocol_df : list Row.t) (endpoints : series)
  : result (dict (dict (dict Dpi.t))) :=
  generate_endpoints protocol_df endpoints [].

End Pipeline.

(** ** A reference runtime

    A stable sort by insertion gives one admissible [np.argsort]. *)

Section IndexSort.

Context {A : Type} (leb : A -> A -> bool).

Fixpoint insert_key (p : A * nat) (l : list (A * nat)) : list (A * nat) :=
  match l with
  | [] => [p]
  | q :: l' =>
      if leb (fst p) (fst q) then p :: q :: l' else q :: insert_key p l'
  end.

Definition sort_keys (l : list (A * nat)) : list (A * nat) :=
  fold_right insert_key [] l.

Definition stable_argsort (a : list A) : list nat :=
  map snd (sort_keys (combine a (seq 0 (List.length a)))).

Hypothesis leb_total : forall x y, leb x y = true \/ leb y x = true.

Lemma insert_key_perm p l : Permutation (insert_key p l) (p :: l).
Proof.
  induction l as [|q l IH]; simpl; [reflexivity|].
  destruct (leb (fst p) (fst q)); [reflexivity|].
  rewrite IH. apply perm_swap.
Qed.

Lemma sort_keys_perm l : Permutation (sort_keys l) l.
Proof.
  induction l as [|p l IH]; simpl; [constructor|].
  rewrite insert_key_perm. now constructor.
Qed.

Lemma insert_key_sorted p l :
  Sorted (fun x y => leb (fst x) (fst y) = true) l ->
  Sorted (fun x y => leb (fst x) (fst y) = true) (insert_key p l).
Proof.
  induction l as [|q l IH]; simpl; intros Hs.
  - repeat constructor.
  - destruct (leb (fst p) (fst q)) eqn:E.
    + constructor; [assumption|]. constructor. exact E.
    + inversion Hs as [|? ? Hs' Hhd]; subst.
      constructor; [apply IH; assumption|].
      destruct l as [|r l]; simpl.
      * constructor. destruct (leb_total (fst p) (fst q)); congruence.
      * destruct (leb (fst p) (fst r)).
        -- constructor. destruct (leb_total (fst p) (fst q)); congruence.
        -- inversion Hhd; subst. constructor. assumption.
Qed.

Lemma sort_keys_sorted l :
  Sorted (fun x y => leb (fst x) (fst y) = true) (sort_keys l).
Proof.
  induction l as [|p l IH]; simpl; [constructor|].
  apply insert_key_sorted, IH.
Qed.

Lemma combine_seq_lookup (a : list A) (base : nat) :
  Forall (fun p => nth_error a (snd p - base) = Some (fst p)
                   /\ (base <= snd p)%nat)
         (combine a (seq base (List.length a))).
Proof.
  revert base. induction a as [|x a IH]; intros base; simpl.
  - constructor.
  - constructor.
    + simpl. rewrite Nat.sub_diag. split; [reflexivity|lia].
    + specialize (IH (S base)).
      eapply Forall_impl; [|exact IH].
      intros [v i]; simpl. intros [Hn Hle]. split; [|lia].
      replace (i - base)%nat with (S (i - S base)) by lia. exact Hn.
Qed.

Lemma take_keys (a : list A) (l : list (A * nat)) :
  Forall (fun p => nth_error a (snd p) = Some (fst p)) l ->
  take a (map snd l) = Ok (map fst l).
Proof.
  unfold take. induction l as [|[v i] l IH]; simpl; intros Hf.
  - reflexivity.
  - inversion Hf as [|? ? Hhd Htl]; subst. simpl in Hhd.
    rewrite Hhd. simpl. rewrite (IH Htl). reflexivity.
Qed.

Lemma stable_argsort_perm (a : list A) :
  Permutation (stable_argsort a) (seq 0 (List.length a)).
Proof.
  unfold stable_argsort.
  rewrite (Permutation_map snd (sort_keys_perm _)).
  replace (map snd (combine a (seq 0 (List.length a))))
    with (seq 0 (List.length a)); [reflexivity|].
  symmetry. generalize 0%nat.
  induction a as [|x a IH]; intros b; simpl; [reflexivity|].
  now rewrite IH.
Qed.

Lemma sorted_map_fst (l : list (A * nat)) :
  Sorted (fun x y => leb (fst x) (fst y) = true) l ->
  Sorted (fun x y => leb x y = true) (map fst l).
Proof.
  induction 1 as [|p l Hs IH Hhd]; simpl; constructor; [assumption|].
  destruct Hhd; simpl; constructor; assumption.
Qed.

Lemma stable_argsort_sorted (a s : list A) :
  take a (stable_argsort a) = Ok s ->
  Sorted (fun x y => leb x y = true) s.
Proof.
  unfold stable_argsort. intros Ht.
  rewrite take_keys in Ht.
  - injection Ht as <-. apply sorted_map_fst, sort_keys_sorted.
  - eapply Permutation_Forall; [symmetry; apply sort_keys_perm|].
    eapply Forall_impl; [|apply (combine_seq_lookup a 0)].
    intros [v i]; simpl. rewrite Nat.sub_0_r. tauto.
Qed.

End IndexSort.

Lemma SFcompare_antisym (x y : float) :
  SFcompare y x = option_map CompOpp (SFcompare x y).
Proof.
  destruct x as [sx|sx| |sx mx ex], y as [sy|sy| |sy my ey]; simpl;
    try reflexivity;
    try (destruct sx; reflexivity); try (destruct sy; reflexivity);
    try (destruct sx, sy; reflexivity).
  pose proof (Pos.compare_cont_antisym mx my Eq) as Hm. simpl in Hm.
  destruct sx, sy; simpl; try reflexivity;
    rewrite (Z.compare_antisym ex ey);
    destruct (ex ?= ey); simpl; try reflexivity;
    rewrite <- Hm;
    destruct (Pos.compare_cont Eq mx my); reflexivity.
Qed.

Lemma np_le_total (x y : float) : np_le x y = true \/ np_le y x = true.
Proof.
  unfold np_le, PyFloat.leb, SFleb. rewrite (SFcompare_antisym x y).
  destruct x as [sx|sx| |sx mx ex], y as [sy|sy| |sy my ey];
    try (left; reflexivity); try (right; reflexivity);
    cbn [PyFloat.is_nan negb orb andb].
  all: destruct (SFcompare _ _) as [[ | | ]|] eqn:E; simpl; auto;
    simpl in E; discriminate E.
Qed.

Lemma Zleb_total (x y : Z) : (x <=? y) = true \/ (y <=? x) = true.
Proof. rewrite !Z.leb_le. lia. Qed.

Lemma Zle_sorted (l : list Z) :
  Sorted (fun x y => (x <=? y) = true) l -> Sorted (fun x y => x <= y) l.
Proof.
  induction 1 as [|x l Hs IH Hhd]; constructor; [assumption|].
  destruct Hhd; constructor. now apply Z.leb_le.
Qed.

(** Sequential mean and population standard deviation. *)
Definition ref_mean (a : list float) : float :=
  PyFloat.div (fold_left PyFloat.add a PyFloat.zero)
              (PyFloat.of_Z (len a)).

Definition ref_std (a : list float) : float :=
  let m := ref_mean a in
  SFsqrt PyFloat.prec PyFloat.emax
    (ref_mean (map (fun x => PyFloat.mul (PyFloat.sub x m) (PyFloat.sub x m))
                   a)).

Definition is_digit (c : ascii) : bool :=
  let n := nat_of_ascii c in ((48 <=? n) && (n <=? 57))%nat.

Fixpoint digits_value (acc : Z) (s : string) : option Z :=
  match s with
  | EmptyString => Some acc
  | String c s' =>
      if is_digit c
      then digits_value (acc * 10 + Z.of_nat (nat_of_ascii c - 48)) s'
      else None
  end.

(** Unsigned decimal literals; every other string is refused. *)
Definition ref_int_of_str (s : string) : result Z :=
  match s with
  | EmptyString => Raise ValueError
  | _ => of_option ValueError (digits_value 0 s)
  end.

Definition ref_float_of_str (s : string) : result float :=
  n <- ref_int_of_str s ;; PyFloat.of_int n.

(** ASCII text; bytes above 127 are dropped. *)
Definition ref_decode (chunk : list byte) : string :=
  string_of_list_byte
    (filter (fun b => (Strings.Byte.to_N b <? 128)%N) chunk).

(** The runtime used in the examples: the routines above, a model [model]
    and the classes [classes] of the label encoder. The text routines are
    exact on unsigned decimal literals and on ASCII bytes, the statistics on
    short arrays of small integers. *)
Definition ref_runtime (model : list float -> Pred.t) (classes : list string)
  : Runtime :=
  {| utf8_decode_ignore := ref_decode;
     int_of_str := ref_int_of_str;
     float_of_str := ref_float_of_str;
     np_mean := ref_mean;
     np_std := ref_std;
     predict := model;
     inverse_transform := fun i => of_option ValueError (nth_error classes i);
     argsort_int := stable_argsort Z.leb;
     argsort_float := stable_argsort np_le;
     argsort_int_perm := stable_argsort_perm Z.leb;
     argsort_int_sorted := fun l s H =>
       Zle_sorted s (stable_argsort_sorted Z.leb Zleb_total l s H);
     argsort_float_perm := stable_argsort_perm np_le;
     argsort_float_sorted := stable_argsort_sorted np_le np_le_total |}.

(** * Properties *)

Lemma bind_ok {A B} (m : result A) (k : A -> result B) (b : B) :
  bind m k = Ok b -> exists a, m = Ok a /\ k a = Ok b.
Proof. destruct m as [a|e]; simpl; [eauto|discriminate]. Qed.

Ltac inv_bind H :=
  let x := fresh "x" in
  let E := fresh "E" in
  apply bind_ok in H; destruct H as [x [E H]].

Lemma mapM_length {A B} (f : A -> result B) (l : list A) (r : list B) :
  mapM f l = Ok r -> List.length r = List.length l.
Proof.
  revert r. induction l as [|x l IH]; simpl; intros r H.
  - injection H as <-. reflexivity.
  - inv_bind H. inv_bind H. injection H as <-. simpl. f_equal. eauto.
Qed.

Lemma mapM_total {A B} (f : A -> result B) (l : list A) :
  (forall x, In x l -> exists y, f x = Ok y) -> exists r, mapM f l = Ok r.
Proof.
  induction l as [|x l IH]; simpl; intros Hf; [eauto|].
  destruct (Hf x) as [y ->]; [auto|].
  destruct IH as [r ->]; [auto|]. simpl. eauto.
Qed.

Lemma mapM_nth {A B} (f : A -> result B) (l : list A) (r : list B)
      (n : nat) (x : A) :
  mapM f l = Ok r -> nth_error l n = Some x ->
  exists y, f x = Ok y /\ nth_error r n = Some y.
Proof.
  revert r n. induction l as [|a l IH]; simpl; intros r n H Hn.
  - destruct n; discriminate.
  - inv_bind H. inv_bind H. injection H as <-.
    destruct n as [|n]; simpl in *.
    + injection Hn as <-. eauto.
    + eauto.
Qed.

(** ** Dictionaries *)

Lemma dict_get_set_same {V} (k : string) (v : V) (d : dict V) :
  dict_get k (dict_set k v d) = Some v.
Proof.
  induction d as [|[k' v'] d IH]; simpl.
  - now rewrite String.eqb_refl.
  - destruct (String.eqb k k') eqn:E; simpl; rewrite ?String.eqb_refl, ?E; auto.
Qed.

Lemma dict_get_set_other {V} (k k' : string) (v : V) (d : dict V) :
  k' <> k -> dict_get k' (dict_set k v d) = dict_get k' d.
Proof.
  intros Hne. induction d as [|[k0 v0] d IH]; simpl.
  - apply String.eqb_neq in Hne. now rewrite Hne.
  - destruct (String.eqb k k0) eqn:E; simpl.
    + apply String.eqb_eq in E. subst k0.
      apply String.eqb_neq in Hne. now rewrite Hne.
    + destruct (String.eqb k' k0); auto.
Qed.

Lemma dict_append_get {V} (k : string) (x : V) (d : dict (list V)) :
  dict_get k (dict_append k x d)
  = Some (match dict_get k d with
          | Some earlier => earlier ++ [x]
          | None => [x]
          end).
Proof.
  unfold dict_append. destruct (dict_get k d); apply dict_get_set_same.
Qed.

Lemma keys_dict_set {V} (k : string) (v : V) (d : dict V) :
  keys (dict_set k v d) = if dict_mem k d then keys d else keys d ++ [k].
Proof.
  unfold dict_mem, keys. induction d as [|[k' v'] d IH]; simpl; [reflexivity|].
  destruct (String.eqb k k') eqn:E; simpl.
  - apply String.eqb_eq in E. now subst.
  - rewrite IH. destruct (dict_get k d); reflexivity.
Qed.

Lemma dict_mem_In {V} (k : string) (d : dict V) :
  dict_mem k d = true <-> In k (keys d).
Proof.
  unfold dict_mem, keys. induction d as [|[k' v'] d IH]; simpl.
  - split; [discriminate|tauto].
  - destruct (String.eqb k k') eqn:E.
    + apply String.eqb_eq in E. subst. tauto.
    + apply String.eqb_neq in E. rewrite IH.
      split; [tauto|]. intros [H|H]; [congruence|assumption].
Qed.

Lemma keys_dict_set_NoDup {V} (k : string) (v : V) (d : dict V) :
  NoDup (keys d) -> NoDup (keys (dict_set k v d)).
Proof.
  intros Hnd. rewrite keys_dict_set.
  destruct (dict_mem k d) eqn:E; [assumption|].
  apply NoDup_app; [assumption|repeat constructor; auto|].
  intros x Hx [<-|[]].
  apply dict_mem_In in Hx. congruence.
Qed.

(** ** Decoder *)

Section DecoderFacts.

Context {RT : Runtime}.



(** The type of an integer, a Python int counting as what an object
    column holds, and the wrap-around into a type. *)
Definition kind_of (x : num) : column :=
  match x with
  | PyInt _ => ObjectColumn
  | Int64 _ => Int64Column
  | UInt64 _ => UInt64Column
  end.

Definition wrap_kind (k : column) (n : Z) : Z :=
  match k with
  | ObjectColumn => n
  | Int64Column => wrap_int64 n
  | UInt64Column => wrap_uint64 n
  end.



Lemma in_int64_spec (n : Z) : in_int64 n = true <-> - 2 ^ 63 <= n < 2 ^ 63.
Proof. unfold in_int64. rewrite andb_true_iff, Z.leb_le, Z.ltb_lt. tauto. Qed.

Lemma in_uint64_spec (n : Z) : in_uint64 n = true <-> 0 <= n < 2 ^ 64.
Proof. unfold in_uint64. rewrite andb_true_iff, Z.leb_le, Z.ltb_lt. tauto. Qed.

Lemma wrap_int64_range (n : Z) : - 2 ^ 63 <= wrap_int64 n < 2 ^ 63.
Proof.
  unfold wrap_int64. pose proof (Z.mod_pos_bound (n + 2 ^ 63) (2 ^ 64)).
  lia.
Qed.

Lemma wrap_int64_small (n : Z) : - 2 ^ 63 <= n < 2 ^ 63 -> wrap_int64 n = n.
Proof. intros H. unfold wrap_int64. rewrite Z.mod_small; lia. Qed.

Lemma wrap_uint64_small (n : Z) : 0 <= n < 2 ^ 64 -> wrap_uint64 n = n.
Proof. intros H. unfold wrap_uint64. apply Z.mod_small. lia. Qed.

Lemma wrap_int64_eqm (n : Z) : wrap_int64 n mod 2 ^ 64 = n mod 2 ^ 64.
Proof.
  unfold wrap_int64.
  rewrite <- Zminus_mod_idemp_l, Z.mod_mod by lia.
  rewrite Zminus_mod_idemp_l. f_equal. lia.
Qed.

Lemma wrap_int64_congr (a b : Z) :
  a mod 2 ^ 64 = b mod 2 ^ 64 -> wrap_int64 a = wrap_int64 b.
Proof.
  intros H. unfold wrap_int64. f_equal.
  rewrite <- (Zplus_mod_idemp_l a), <- (Zplus_mod_idemp_l b). now rewrite H.
Qed.

Lemma wrap_kind_eqm (k : column) (n : Z) :
  wrap_kind k n mod 2 ^ 64 = n mod 2 ^ 64.
Proof.
  destruct k; simpl; [apply wrap_int64_eqm| |reflexivity].
  unfold wrap_uint64. apply Z.mod_mod. lia.
Qed.

Lemma wrap_kind_congr (k : column) (a b : Z) :
  k <> ObjectColumn -> a mod 2 ^ 64 = b mod 2 ^ 64 ->
  wrap_kind k a = wrap_kind k b.
Proof.
  intros Hk H. destruct k; simpl; [now apply wrap_int64_congr| |congruence].
  exact H.
Qed.

(** The result of an operation has the type of its NumPy operand, and is
    the result on the integers wrapped into that type. *)
Lemma arith_spec (op : Z -> Z -> Z) (a b c : num) :
  arith op a b = Ok c ->
  kind_of c = match kind_of a with
              | ObjectColumn => kind_of b
              | k => k
              end
  /\ num_val c = wrap_kind (kind_of c) (op (num_val a) (num_val b)).
Proof.
  destruct a as [x|x|x], b as [y|y|y]; simpl; intros H;
    try discriminate;
    try (destruct (in_int64 _); [|discriminate]);
    try (destruct (in_uint64 _); [|discriminate]);
    injection H as <-; split; reflexivity.
Qed.


Lemma wrap_kind_add (ka kb : column) (a b : Z) :
  let k := match ka with ObjectColumn => kb | _ => ka end in
  wrap_kind k (wrap_kind ka a + wrap_kind kb b) = wrap_kind k (a + b).
Proof.
  assert (E : (wrap_kind ka a + wrap_kind kb b) mod 2 ^ 64
              = (a + b) mod 2 ^ 64)
    by (rewrite Zplus_mod, !wrap_kind_eqm, <- Zplus_mod; reflexivity).
  destruct ka, kb; cbn [wrap_kind] in *; try reflexivity;
    first [apply wrap_int64_congr; exact E | exact E].
Qed.






Lemma decode_field_advances protocol_df payload idx row st st' :
  decode_field protocol_df payload idx row st = Ok (Some st') ->
  exists rec fsize stop,
    resolve_size protocol_df payload idx row st = Ok fsize
    /\ int_add (offset st) fsize = Ok stop
    /\ num_val stop <= len payload
    /\ records st' = records st ++ [rec]
    /\ offset st' = stop
    /\ packet_data st' = dict_set (Row.name row) (Rec.value rec)
                                  (packet_data st)
    /\ Rec.size rec = num_val fsize
    /\ Rec.field_name rec = Row.name row
    /\ Rec.field_type rec = Row.type row.
Proof.
  unfold decode_field. intros H. inv_bind H. inv_bind H.
  destruct (Z.gtb_spec (num_val x0) (len payload)); [discriminate|].
  destruct (String.prefix _ _).
  - inv_bind H. inv_bind H. injection H as <-. simpl. eauto 12.
  - destruct (Row.is_bitfield row).
    + inv_bind H. inv_bind H. injection H as <-. simpl. eauto 12.
    + inv_bind H. injection H as <-. simpl. eauto 12.
Qed.




Lemma decode_rows_app protocol_df payload idx pre rest st :
  decode_rows protocol_df payload idx (pre ++ rest) st
  = match decode_rows protocol_df payload idx pre st with
    | Ok (false, st') =>
        decode_rows protocol_df payload (idx + List.length pre) rest st'
    | other => other
    end.
Proof.
  revert idx st. induction pre as [|row pre IH]; intros idx st; simpl.
  - now rewrite Nat.add_0_r.
  - destruct (decode_field protocol_df payload idx row st) as [[st'|]|e];
      simpl; try reflexivity.
    rewrite IH. now rewrite Nat.add_succ_r.
Qed.


End DecoderFacts.

Lemma split_after_prefix (sep s : string) :
  String.prefix sep s = true ->
  split_after sep s = Ok (drop (String.length sep) s).
Proof. intros H. destruct s; cbn [split_after]; rewrite H; reflexivity. Qed.

Lemma len_firstn_skipn {A} (l : list A) (a n : nat) :
  (a + n <= List.length l)%nat -> List.length (firstn n (skipn a l)) = n.
Proof.
  intros H. rewrite firstn_length_le; [reflexivity|].
  rewrite length_skipn. lia.
Qed.

Lemma slice_len {A} (l : list A) (a b : Z) :
  0 <= a -> a <= b -> b <= len l -> len (slice l a b) = b - a.
Proof.
  intros Ha Hab Hb. unfold slice, slice_bound, len in *.
  destruct (a <? 0) eqn:Ea; [apply Z.ltb_lt in Ea; lia|].
  destruct (b <? 0) eqn:Eb; [apply Z.ltb_lt in Eb; lia|].
  rewrite !Z.min_l by lia.
  rewrite len_firstn_skipn; lia.
Qed.

Lemma range_In (n i : Z) : In i (range n) -> 0 <= i < n.
Proof.
  unfold range. rewrite in_map_iff. intros [k [<- Hk]].
  apply in_seq in Hk. lia.
Qed.

Lemma range_length (n : Z) : List.length (range n) = Z.to_nat n.
Proof. unfold range. now rewrite length_map, length_seq. Qed.

Lemma mapM_ext_in {A B} (f g : A -> result B) (l : list A) :
  (forall x, In x l -> f x = g x) -> mapM f l = mapM g l.
Proof.
  induction l as [|x l IH]; intros H; simpl; [reflexivity|].
  rewrite (H x) by now left. rewrite IH; [reflexivity|].
  intros y Hy. apply H. now right.
Qed.

(** Two integers that can meet in an operation: not an int64 and a
    uint64. *)
Definition agree (a b : num) : Prop :=
  kind_of a = ObjectColumn \/ kind_of b = ObjectColumn
  \/ kind_of a = kind_of b.

(** On integers from 0 to below 2^63 whose result lies there too nothing
    wraps around. *)
Lemma arith_small (op : Z -> Z -> Z) (a b : num) :
  agree a b ->
  0 <= num_val a < 2 ^ 63 -> 0 <= num_val b < 2 ^ 63 ->
  0 <= op (num_val a) (num_val b) < 2 ^ 63 ->
  exists c,
    arith op a b = Ok c
    /\ num_val c = op (num_val a) (num_val b)
    /\ kind_of c = match kind_of a with
                   | ObjectColumn => kind_of b
                   | k => k
                   end.
Proof.
  intros Hag Ha Hb Hc.
  assert (Hia : in_int64 (num_val a) = true) by (apply in_int64_spec; lia).
  assert (Hib : in_int64 (num_val b) = true) by (apply in_int64_spec; lia).
  assert (Hua : in_uint64 (num_val a) = true) by (apply in_uint64_spec; lia).
  assert (Hub : in_uint64 (num_val b) = true) by (apply in_uint64_spec; lia).
  destruct a as [x|x|x], b as [y|y|y]; cbn [num_val kind_of arith] in *;
    rewrite ?Hia, ?Hib, ?Hua, ?Hub;
    try (destruct Hag as [Hag|[Hag|Hag]]; discriminate Hag);
    eexists; (split; [reflexivity|]); cbn [num_val kind_of];
    (split; [|reflexivity]);
    first [reflexivity
          |apply wrap_int64_small; lia
          |apply wrap_uint64_small; lia].
Qed.

Section ArrayFacts.

Context {RT : Runtime}.


(** The offset and the size are Python ints, or the field lies in a
    payload shorter than 2^63 bytes and has fewer than 2^63 elements, so
    that no NumPy scalar wraps around. *)
Definition plain_or_bounded (payload : list byte) (off fsize : num) (ne : Z)
  : Prop :=
  (kind_of off = ObjectColumn /\ kind_of fsize = ObjectColumn)
  \/ (agree off fsize
      /\ ne < 2 ^ 63
      /\ 0 <= num_val off /\ 0 <= num_val fsize
      /\ num_val off + num_val fsize <= len payload
      /\ len payload < 2 ^ 63).

(** The elements as Python ints give them. *)
Definition elements_at (payload : list byte) (base : string)
           (off fsize ne : Z) : result (list scalar) :=
  mapM (fun i =>
          let start := off + i * (fsize / ne) in
          decode_element base (slice payload start (start + fsize / ne)))
       (range ne).



Lemma decode_array_plain payload base off fsize ne :
  ne <> 0 ->
  decode_array payload base (PyInt off) (PyInt fsize) ne
  = elements_at payload base off fsize ne.
Proof.
  intros Hne. unfold decode_array, elements_at, int_floordiv.
  destruct ne as [|p|p]; [congruence| |]; reflexivity.
Qed.

(** A field decoded without a wrap-around has the elements that Python
    ints give. *)
Lemma decode_array_exact payload base off fsize ne :
  0 < ne ->
  plain_or_bounded payload off fsize ne ->
  decode_array payload base off fsize ne
  = elements_at payload base (num_val off) (num_val fsize) ne.
Proof.
  intros Hne [[Ho Hf]|(Hag & Hn & Ho & Hf & Hfit & Hlen)].
  - destruct off, fsize; try discriminate.
    apply decode_array_plain. lia.
  - unfold decode_array, elements_at.
    assert (Hw : 0 <= num_val fsize / ne <= num_val fsize).
    { split; [apply Z.div_pos; lia|]. apply Z.div_le_upper_bound; nia. }
    assert (Hm : ne * (num_val fsize / ne) <= num_val fsize)
      by (apply Z.mul_div_le; lia).
    assert (He : exists e,
               int_floordiv fsize (PyInt ne) = Ok e
               /\ num_val e = num_val fsize / ne
               /\ kind_of e = kind_of fsize).
    { assert (Hfd : int_floordiv fsize (PyInt ne)
                    = arith Z.div fsize (PyInt ne)).
      { unfold int_floordiv. destruct fsize; [|reflexivity|reflexivity].
        destruct ne; [lia|reflexivity|reflexivity]. }
      rewrite Hfd.
      destruct (arith_small Z.div fsize (PyInt ne)) as (e & He & Hv & Hk);
        [right; left; reflexivity|lia|cbn [num_val]; lia
        |cbn [num_val]; lia|].
      exists e. split; [exact He|]. split; [exact Hv|].
      rewrite Hk. cbn [kind_of]. destruct (kind_of fsize); reflexivity. }
    destruct He as (e & He & Hev & Hek). rewrite He. cbn [bind].
    apply mapM_ext_in. intros i Hi. apply range_In in Hi.
    destruct (arith_small Z.mul (PyInt i) e) as (step & Hs & Hsv & Hsk);
      [left; reflexivity|cbn [num_val]; lia|lia|cbn [num_val]; nia|].
    cbn [num_val kind_of] in Hsv, Hsk.
    unfold int_mul. rewrite Hs. cbn [bind].
    assert (Hag1 : agree off step).
    { unfold agree in *. rewrite Hsk, Hek. exact Hag. }
    destruct (arith_small Z.add off step) as (start & Ht & Htv & Htk);
      [exact Hag1|lia|nia|nia|].
    unfold int_add. rewrite Ht. cbn [bind].
    assert (Hag2 : agree start e).
    { unfold agree in *. rewrite Htk, Hsk, Hek.
      destruct (kind_of off), (kind_of fsize); tauto. }
    destruct (arith_small Z.add start e) as (stop & Hp & Hpv & Hpk);
      [exact Hag2|nia|lia|nia|].
    rewrite Hp. cbn [bind]. rewrite Hpv, Htv, Hsv, Hev. reflexivity.
Qed.


End ArrayFacts.

(** ** Segmentation *)





Lemma take_perm {A} (values : list A) (indices : list nat) :
  Permutation indices (seq 0 (List.length values)) ->
  exists s, take values indices = Ok s
            /\ List.length s = List.length values.
Proof.
  intros Hp. destruct (mapM_total
    (fun i => of_option IndexError (nth_error values i)) indices) as [s Hs].
  - intros i Hi. apply (Permutation_in _ Hp) in Hi. apply in_seq in Hi.
    destruct (nth_error values i) eqn:E; [simpl; eauto|].
    apply nth_error_None in E. lia.
  - exists s. split; [exact Hs|].
    apply mapM_length in Hs. rewrite Hs.
    rewrite (Permutation_length Hp). apply length_seq.
Qed.

Lemma split_groups_perm (sorted_indices : list nat) (k : nat) :
  Permutation (fst (split_groups sorted_indices k)
               ++ snd (split_groups sorted_indices k)) sorted_indices.
Proof.
  unfold split_groups. destruct (_ <=? _)%nat; cbn [fst snd].
  - now rewrite firstn_skipn.
  - rewrite Permutation_app_comm. now rewrite firstn_skipn.
Qed.

Lemma split_groups_main (sorted_indices : list nat) (k : nat) :
  (List.length (snd (split_groups sorted_indices k))
   <= List.length (fst (split_groups sorted_indices k)))%nat
  /\ (List.length (fst (split_groups sorted_indices k))
      = List.length (snd (split_groups sorted_indices k)) ->
      fst (split_groups sorted_indices k)
      = firstn (S k) sorted_indices).
Proof.
  unfold split_groups. destruct (_ <=? _)%nat eqn:E; cbn [fst snd].
  - apply Nat.leb_le in E. auto.
  - apply Nat.leb_gt in E. split; lia.
Qed.

Lemma np_le_trans (x y z : float) :
  np_le x y = true -> np_le y z = true -> np_le x z = true.
Proof.
  unfold np_le, PyFloat.leb, SFleb, SFcompare, PyFloat.is_nan.
  destruct x as [[]|[]| |[] mx ex], y as [[]|[]| |[] my ey],
           z as [[]|[]| |[] mz ez];
    cbn [negb orb andb]; try reflexivity; try discriminate.
  all: change (Pos.compare_cont Eq) with Pos.compare.
  all: destruct (Z.compare_spec ex ey); destruct (Z.compare_spec ey ez);
       destruct (Z.compare_spec ex ez); try lia;
       try reflexivity; try discriminate.
  all: destruct (Pos.compare_spec mx my); destruct (Pos.compare_spec my mz);
       destruct (Pos.compare_spec mx mz); cbn [CompOpp];
       try reflexivity; try discriminate; try lia.
Qed.





Section SegmentationFacts.

Context {RT : Runtime}.




(** The array [values] as an array of one of the two element types. *)
Inductive axis_of : forall A : Type, dtype A -> list A -> axis -> Prop :=
| axis_int (values : list Z) : axis_of Z int64 values (AxInt values)
| axis_float (values : list float) :
    axis_of float float64 values (AxFloat values).

Arguments axis_of {A} T values ax.

Lemma clustering_axis_length stats ax :
  clustering_axis stats = Ok ax ->
  match ax with
  | AxInt values => List.length values = List.length stats
  | AxFloat values => List.length values = List.length stats
  end.
Proof.
  unfold clustering_axis. intros H. inv_bind H.
  destruct (mem _ _).
  - destruct (mapM _ _) as [v|e] eqn:Ev.
    + apply mapM_length in Ev.
      destruct (all_zero_float v); injection H as <-;
        [apply length_map|exact Ev].
    + destruct (all_zero_int _); injection H as <-; apply length_map.
  - injection H as <-. apply length_map.
Qed.

Lemma axis_of_perm {A} (T : dtype A) (values : list A) (ax : axis) :
  axis_of T values ax ->
  Permutation (argsort T values) (seq 0 (List.length values)).
Proof.
  destruct 1; simpl; [apply argsort_int_perm|apply argsort_float_perm].
Qed.




End SegmentationFacts.

(** ** Synthesis *)

Lemma count_of_absent (t : string) (l : list string) :
  ~ In t l -> count_of t l = 0%nat.
Proof.
  unfold count_of. induction l as [|x l IH]; simpl; intros Hn; [reflexivity|].
  destruct (String.eqb t x) eqn:E.
  - apply String.eqb_eq in E. subst. tauto.
  - apply IH. tauto.
Qed.

Lemma better_count (l : list string) (t best : string) :
  better l t best = true -> (count_of best l <= count_of t l)%nat.
Proof.
  unfold better. intros H. apply orb_true_iff in H. destruct H as [H|H].
  - apply Nat.ltb_lt in H. lia.
  - apply andb_true_iff in H. destruct H as [H _].
    apply Nat.eqb_eq in H. lia.
Qed.

Lemma better_not (l : list string) (t best : string) :
  better l t best = false -> (count_of t l <= count_of best l)%nat.
Proof.
  unfold better. intros H. apply orb_false_iff in H. destruct H as [H _].
  apply Nat.ltb_ge in H. exact H.
Qed.

Lemma mode_scan (l rest : list string) (best : string) :
  In best l -> incl rest l ->
  let r := fold_left (fun best t => if better l t best then t else best)
                     rest best in
  In r l
  /\ (count_of best l <= count_of r l)%nat
  /\ forall t, In t rest -> (count_of t l <= count_of r l)%nat.
Proof.
  revert best. induction rest as [|x rest IH]; intros best Hb Hincl; simpl.
  - repeat split; auto. intros t [].
  - assert (Hx : In x l) by (apply Hincl; left; reflexivity).
    assert (Hrest : incl rest l) by (intros y Hy; apply Hincl; right; exact Hy).
    destruct (better l x best) eqn:E.
    + destruct (IH x Hx Hrest) as [H1 [H2 H3]].
      pose proof (better_count _ _ _ E).
      repeat split; [assumption|lia|].
      intros t [<-|Ht]; [assumption|auto].
    + destruct (IH best Hb Hrest) as [H1 [H2 H3]].
      pose proof (better_not _ _ _ E).
      repeat split; [assumption|assumption|].
      intros t [<-|Ht]; [lia|auto].
Qed.

(** [mode] returns an entry that no other string outnumbers. *)
Lemma mode_most_frequent (l : list string) (m : string) :
  mode l = Some m ->
  In m l /\ forall t, (count_of t l <= count_of m l)%nat.
Proof.
  destruct l as [|x rest]; [discriminate|].
  unfold mode. intros H. injection H as <-.
  destruct (mode_scan (x :: rest) rest x) as [H1 [H2 H3]].
  - left; reflexivity.
  - intros y Hy. right. exact Hy.
  - split; [exact H1|]. intros t.
    destruct (in_dec string_dec t (x :: rest)) as [Hin|Hout].
    + destruct Hin as [<-|Hin]; [exact H2|auto].
    + rewrite (count_of_absent _ _ Hout). lia.
Qed.


Section SynthesisFacts.

Context {RT : Runtime}.

(** The descriptor assembled from the intermediate results of the loop
    body. *)
Lemma synthesize_from_inv protocol_df field_name stats alt_stats features p d :
  synthesize_from protocol_df field_name stats alt_stats features p = Ok d ->
  exists cls ftc ftp bc proto_row mn mx mnv mxv,
    np_argmax float64 (Pred.is_dynamic p) = Ok cls
    /\ np_argmax float64 (Pred.field_type p) = Ok ftc
    /\ inverse_transform ftc = Ok ftp
    /\ bit_count_of (aggregated_type stats) p alt_stats = Ok bc
    /\ find (fun r => String.eqb (Row.name r) field_name) protocol_df
       = Some proto_row
    /\ bounds_of proto_row
         (nan_fallback (Pred.min_size p) (Feat.min_size features))
         (nan_fallback (Pred.max_size p) (Feat.max_size features))
         (nan_fallback (Pred.min_value p) (Feat.min_value features))
         (nan_fallback (Pred.max_value p) (Feat.max_value features))
         alt_stats = Ok (mn, mx, mnv, mxv)
    /\ let ft := if negb (String.eqb (aggregated_type stats) "bitfield")
                 then aggregated_type stats else ftp in
       d = {| Dpi.is_dynamic_array :=
                match size_field_of protocol_df field_name with
                | Some _ => true
                | None =>
                    if PyFloat.eqb (Feat.min_size features)
                                   (Feat.max_size features)
                    then false else negb (cls =? 0)%nat
                end;
              Dpi.min_size := round_bound mn;
              Dpi.max_size := round_bound mx;
              Dpi.min_value :=
                option_map round_bound
                  (if numeric_type (lower ft) then mnv else None);
              Dpi.max_value :=
                option_map round_bound
                  (if numeric_type (lower ft) then mxv else None);
              Dpi.size_defining_field :=
                size_field_of protocol_df field_name;
              Dpi.field_type := ft;
              Dpi.bitfields_count := bc |}.
Proof.
  unfold synthesize_from. intros H.
  inv_bind H. rename x into cls.
  inv_bind H. rename x into ftc.
  inv_bind H. rename x into ftp.
  inv_bind H. rename x into bc.
  inv_bind H. rename x into proto_row.
  inv_bind H. destruct x as [[[mn mx] mnv] mxv].
  injection H as <-.
  destruct (find _ protocol_df) as [r|] eqn:Ef; [|discriminate].
  injection E3 as ->.
  exists cls, ftc, ftp, bc, proto_row, mn, mx, mnv, mxv.
  repeat split; assumption.
Qed.

Lemma synthesize_inv protocol_df field_name stats alt_stats d :
  synthesize protocol_df field_name stats alt_stats = Ok d ->
  exists features,
    extract_aggregated_features alt_stats = Ok features
    /\ synthesize_from protocol_df field_name stats alt_stats features
         (predict (create_feature_vector features)) = Ok d.
Proof. unfold synthesize. intros H. inv_bind H. eauto. Qed.

(** C4: in every descriptor the synthesizer returns, [is_dynamic_array] is
    true when the schema's size field for the field name is not blank;
    without one it is false when the observed minimum and maximum sizes of
    the segment are equal, and otherwise it is the class the model
    predicts. *)
Theorem C4_is_dynamic_array protocol_df field_name stats alt_stats d :
  synthesize protocol_df field_name stats alt_stats = Ok d ->
  exists features cls,
    extract_aggregated_features alt_stats = Ok features
    /\ np_argmax float64
         (Pred.is_dynamic (predict (create_feature_vector features)))
       = Ok cls
    /\ Dpi.is_dynamic_array d
       = match size_field_of protocol_df field_name with
         | Some _ => true
         | None =>
             if PyFloat.eqb (Feat.min_size features) (Feat.max_size features)
             then false
             else negb (cls =? 0)%nat
         end.
Proof.
  intros H. apply synthesize_inv in H. destruct H as [features [Hf H]].
  apply synthesize_from_inv in H.
  destruct H as (cls & ftc & ftp & bc & row & mn & mx & mnv & mxv
                 & Hc & _ & _ & _ & _ & _ & Hd).
  cbv zeta in Hd. exists features, cls. subst d. auto.
Qed.

(** C5, as amended: the final field type is the most frequent declared
    type among all occurrences of the field at the endpoint (not only
    those of the segment), whenever that type is not ["bitfield"]; the
    class the model predicts is used exactly when that most frequent type
    is ["bitfield"]. *)
Theorem C5_field_type protocol_df field_name stats alt_stats d :
  stats <> [] ->
  synthesize protocol_df field_name stats alt_stats = Ok d ->
  exists m features ftc ftp,
    mode (map Rec.field_type stats) = Some m
    /\ In m (map Rec.field_type stats)
    /\ (forall t, (count_of t (map Rec.field_type stats)
                   <= count_of m (map Rec.field_type stats))%nat)
    /\ extract_aggregated_features alt_stats = Ok features
    /\ np_argmax float64
         (Pred.field_type (predict (create_feature_vector features)))
       = Ok ftc
    /\ inverse_transform ftc = Ok ftp
    /\ Dpi.field_type d = if String.eqb m "bitfield" then ftp else m.
Proof.
  intros Hne H. apply synthesize_inv in H. destruct H as [features [Hf H]].
  apply synthesize_from_inv in H.
  destruct H as (cls & ftc & ftp & bc & row & mn & mx & mnv & mxv
                 & _ & Hc & Hi & _ & _ & _ & Hd).
  destruct (mode (map Rec.field_type stats)) as [m|] eqn:Em.
  - destruct (mode_most_frequent _ _ Em) as [Hin Hmax].
    cbv zeta in Hd. exists m, features, ftc, ftp. subst d.
    cbn [Dpi.field_type].
    unfold aggregated_type. rewrite Em.
    destruct (String.eqb m "bitfield"); auto 10.
  - destruct stats; [congruence|discriminate].
Qed.



End SynthesisFacts.

Lemma range_nth (n : Z) (i : nat) :
  (i < Z.to_nat n)%nat -> nth_error (range n) i = Some (Z.of_nat i).
Proof.
  intros Hi. unfold range. rewrite nth_error_map.
  rewrite nth_error_seq. destruct (Nat.ltb_spec i (Z.to_nat n)); [|lia].
  reflexivity.
Qed.

Lemma prefix_append (a b : string) : String.prefix a (a ++ b) = true.
Proof.
  induction a as [|c a IH]; simpl; [destruct b; reflexivity|].
  destruct (ascii_dec c c); [exact IH|congruence].
Qed.

Lemma drop_append (a b : string) : drop (String.length a) (a ++ b) = b.
Proof. induction a as [|c a IH]; simpl; [reflexivity|exact IH]. Qed.

(** On integers [min] and [max] are the least and the greatest element. *)
Lemma extreme_from_ints (want : comparison) (cur : Z) (l : list Z) :
  want <> Eq ->
  extreme_from want (SInt cur) (map SInt l)
  = Ok (SInt (fold_left (if match want with Lt => true | _ => false end
                         then Z.min else Z.max) l cur)).
Proof.
  intros Hw. revert cur. induction l as [|x l IH]; intros cur; simpl.
  - reflexivity.
  - destruct (Z.compare_spec x cur), want; try congruence;
      rewrite IH; do 2 f_equal; cbn;
      apply (f_equal (fold_left _ l)); lia.
Qed.

Section ArraySynthesis.

Context {RT : Runtime}.

Lemma expand_array_inv base nelems mins maxs alt_stats a b c e :
  expand_array base nelems mins maxs alt_stats = Ok (a, b, c, e) ->
  exists n qmin qmax value_lists,
    PyFloat.of_int nelems = Ok n
    /\ PyFloat.floordiv mins n = Ok qmin
    /\ PyFloat.floordiv maxs n = Ok qmax
    /\ mapM (fun i =>
               mapM (fun rec => index_value (Rec.value rec) i) alt_stats)
            (range nelems) = Ok value_lists
    /\ a = PerElement (repeat qmin (Z.to_nat nelems))
    /\ b = PerElement (repeat qmax (Z.to_nat nelems))
    /\ if mem base numeric_bases
       then exists mn mx,
           extreme_vals py_min value_lists = Ok mn
           /\ extreme_vals py_max value_lists = Ok mx
           /\ c = Some (PerElement mn) /\ e = Some (PerElement mx)
       else c = None /\ e = None.
Proof.
  unfold expand_array. intros H.
  inv_bind H. rename x into n.
  inv_bind H. rename x into qmin.
  inv_bind H. rename x into qmax.
  inv_bind H. rename x into value_lists.
  inv_bind H. destruct x as [c' e']. injection H as <- <- <- <-.
  exists n, qmin, qmax, value_lists.
  repeat (split; [assumption || reflexivity|]).
  destruct (mem base numeric_bases).
  - inv_bind E3. rename x into mn. inv_bind E3. rename x into mx.
    injection E3 as <- <-. eauto 10.
  - injection E3 as <- <-. auto.
Qed.

Lemma extreme_vals_nth ext value_lists res i column :
  extreme_vals ext value_lists = Ok res ->
  nth_error value_lists i = Some column ->
  column <> [] ->
  exists m f, ext column = Ok m /\ py_float m = Ok f
              /\ nth_error res i = Some f.
Proof.
  unfold extreme_vals. intros H Hn Hne.
  destruct (mapM_nth _ _ _ _ _ H Hn) as [f [Hf Hr]].
  destruct column as [|x column]; [congruence|].
  inv_bind Hf. eauto.
Qed.

(** C7, as amended: for a field whose schema row declares ["array of X"]
    with a positive element count, the descriptor of a non-empty segment
    has as size bounds two lists of that many entries, each the scalar
    bound (the prediction, or the observed aggregate when the prediction is
    not-a-number) floor-divided by the count and rounded to three decimals.
    When X is one of int, float, double, long and the final field type is
    numeric, the value bounds are lists of that many entries, the i-th one
    being the minimum (maximum) of the i-th element values of the
    segment's occurrences, converted to a float and rounded to three
    decimals; when the final field type is not numeric, or X is not one of
    these, both value bounds are null. *)
Theorem C7_fixed_array protocol_df field_name stats alt_stats d proto_row X :
  find (fun r => String.eqb (Row.name r) field_name) protocol_df
  = Some proto_row ->
  Row.type proto_row = ("array of " ++ X)%string ->
  0 < Row.num_elements proto_row ->
  alt_stats <> [] ->
  synthesize protocol_df field_name stats alt_stats = Ok d ->
  let nelems := Z.to_nat (Row.num_elements proto_row) in
  exists features n qmin qmax,
    extract_aggregated_features alt_stats = Ok features
    /\ PyFloat.of_int (Row.num_elements proto_row) = Ok n
    /\ PyFloat.floordiv
         (nan_fallback
            (Pred.min_size (predict (create_feature_vector features)))
            (Feat.min_size features)) n = Ok qmin
    /\ PyFloat.floordiv
         (nan_fallback
            (Pred.max_size (predict (create_feature_vector features)))
            (Feat.max_size features)) n = Ok qmax
    /\ Dpi.min_size d = PerElement (repeat (PyFloat.round3 qmin) nelems)
    /\ Dpi.max_size d = PerElement (repeat (PyFloat.round3 qmax) nelems)
    /\ if mem (lower X) numeric_bases
          && numeric_type (lower (Dpi.field_type d))
       then exists mins maxs,
           Dpi.min_value d = Some (PerElement mins)
           /\ Dpi.max_value d = Some (PerElement maxs)
           /\ List.length mins = nelems
           /\ List.length maxs = nelems
           /\ forall i, (i < nelems)%nat ->
                exists column lo hi flo fhi,
                  mapM (fun rec => index_value (Rec.value rec) (Z.of_nat i))
                       alt_stats = Ok column
                  /\ py_min column = Ok lo
                  /\ py_float lo = Ok flo
                  /\ nth_error mins i = Some (PyFloat.round3 flo)
                  /\ py_max column = Ok hi
                  /\ py_float hi = Ok fhi
                  /\ nth_error maxs i = Some (PyFloat.round3 fhi)
       else Dpi.min_value d = None /\ Dpi.max_value d = None.
Proof.
  intros Hfind Htype Hpos Hne H nelems.
  apply synthesize_inv in H. destruct H as [features [Hf H]].
  apply synthesize_from_inv in H.
  destruct H as (cls & ftc & ftp & bc & row & mn & mx & mnv & mxv
                 & _ & _ & _ & _ & Hrow & Hb & Hd).
  rewrite Hfind in Hrow. injection Hrow as <-.
  cbv zeta in Hd.
  unfold bounds_of in Hb. rewrite Htype, prefix_append in Hb.
  apply Z.ltb_lt in Hpos as Hpos'. rewrite Hpos' in Hb. cbn [andb] in Hb.
  rewrite (split_after_prefix _ _ (prefix_append _ _)), drop_append in Hb.
  cbn [bind] in Hb.
  apply expand_array_inv in Hb.
  destruct Hb as (n & qmin & qmax & value_lists
                  & Hn & Hqmin & Hqmax & Hvl & -> & -> & Hvals).
  exists features, n, qmin, qmax.
  repeat (split; [assumption|]).
  subst d. cbn [Dpi.min_size Dpi.max_size Dpi.min_value Dpi.max_value
                Dpi.field_type round_bound].
  rewrite !map_repeat.
  repeat (split; [reflexivity|]).
  destruct (mem (lower X) numeric_bases).
  - destruct Hvals as (mins & maxs & Hmin & Hmax & -> & ->).
    cbn [andb]. destruct (numeric_type _); [|split; reflexivity].
    cbn [option_map round_bound].
    exists (map PyFloat.round3 mins), (map PyFloat.round3 maxs).
    repeat (split; [reflexivity|]).
    assert (Hlen : List.length value_lists = nelems).
    { apply mapM_length in Hvl. rewrite Hvl. apply range_length. }
    split; [rewrite length_map; apply mapM_length in Hmin; congruence|].
    split; [rewrite length_map; apply mapM_length in Hmax; congruence|].
    intros i Hi.
    destruct (mapM_nth _ _ _ _ _ Hvl (range_nth _ _ Hi))
      as [column [Hcol Hnth]].
    assert (Hcne : column <> []).
    { apply mapM_length in Hcol. destruct column; [|discriminate].
      destruct alt_stats; [congruence|discriminate]. }
    destruct (extreme_vals_nth _ _ _ _ _ Hmin Hnth Hcne)
      as (lo & flo & Hlo & Hflo & Hnlo).
    destruct (extreme_vals_nth _ _ _ _ _ Hmax Hnth Hcne)
      as (hi & fhi & Hhi & Hfhi & Hnhi).
    exists column, lo, hi, flo, fhi.
    rewrite !nth_error_map, Hnlo, Hnhi. auto 10.
  - destruct Hvals as [-> ->]. cbn [andb].
    destruct (numeric_type _); split; reflexivity.
Qed.

End ArraySynthesis.

(** ** Assembly of the endpoint result *)

Lemma dict_get_absent {V} (k : string) (d : dict V) :
  ~ In k (keys d) -> dict_get k d = None.
Proof.
  intros Hn. destruct (dict_get k d) eqn:E; [|reflexivity].
  exfalso. apply Hn, dict_mem_In. unfold dict_mem. now rewrite E.
Qed.

Lemma dict_get_In {V} (k : string) (v : V) (d : dict V) :
  NoDup (keys d) -> In (k, v) d -> dict_get k d = Some v.
Proof.
  induction d as [|[k' v'] d IH]; simpl; intros Hnd Hin; [tauto|].
  inversion Hnd as [|? ? Hk Hnd']; subst.
  destruct Hin as [Heq|Hin].
  - injection Heq as -> ->. now rewrite String.eqb_refl.
  - destruct (String.eqb k k') eqn:E; [|auto].
    apply String.eqb_eq in E. subst k'. exfalso. apply Hk.
    unfold keys. apply in_map_iff. exists (k, v). auto.
Qed.

Lemma dict_mem_set {V} (k k' : string) (v : V) (d : dict V) :
  dict_mem k' (dict_set k v d) = String.eqb k' k || dict_mem k' d.
Proof.
  unfold dict_mem. destruct (String.eqb k' k) eqn:E.
  - apply String.eqb_eq in E. subst. now rewrite dict_get_set_same.
  - apply String.eqb_neq in E. now rewrite dict_get_set_other.
Qed.

Lemma mem_In (k : string) (s : list string) : mem k s = true <-> In k s.
Proof.
  unfold mem. rewrite existsb_exists. split.
  - intros [x [Hx E]]. apply String.eqb_eq in E. now subst.
  - intros H. exists k. split; [assumption|apply String.eqb_refl].
Qed.

Lemma set_add_In (k x : string) (s : list string) :
  In x (set_add k s) <-> x = k \/ In x s.
Proof.
  unfold set_add. destruct (mem k s) eqn:E.
  - apply mem_In in E. split; [auto|]. intros [->|H]; assumption.
  - rewrite in_app_iff. simpl. split; intros H; intuition (subst; auto).
Qed.

Lemma set_add_NoDup (k : string) (s : list string) :
  NoDup s -> NoDup (set_add k s).
Proof.
  intros Hnd. unfold set_add. destruct (mem k s) eqn:E; [assumption|].
  apply NoDup_app; [assumption|repeat constructor; auto|].
  intros x Hx [<-|[]]. apply mem_In in Hx. congruence.
Qed.

Lemma set_add_all (ks s : list string) :
  NoDup s ->
  NoDup (fold_left (fun s k => set_add k s) ks s)
  /\ forall x, In x (fold_left (fun s k => set_add k s) ks s)
               <-> In x ks \/ In x s.
Proof.
  revert s. induction ks as [|k ks IH]; intros s Hnd; simpl.
  - split; [assumption|]. intros x. tauto.
  - destruct (IH (set_add k s) (set_add_NoDup k s Hnd)) as [H1 H2].
    split; [assumption|]. intros x. rewrite H2, set_add_In.
    intuition.
Qed.

Section AssemblyFacts.

Context {RT : Runtime}.

Lemma segment_values_full {A} (T : dtype A) values stats seg_dict :
  segment_values T values stats = Ok seg_dict ->
  dict_mem "100%" seg_dict = true.
Proof.
  unfold segment_values. intros H.
  destruct (len values <? 2); [injection H as <-; reflexivity|].
  inv_bind H. inv_bind H. inv_bind H.
  destruct (is_zero T _); [injection H as <-; reflexivity|].
  inv_bind H. inv_bind H.
  destruct (gap_small T _ _); [injection H as <-; reflexivity|].
  destruct (split_groups _ _) as [main_indices outlier_indices].
  inv_bind H. revert H.
  generalize (dict_set (label_of x4) main_indices []). intros d0 H.
  injection H as <-. unfold dict_mem. now rewrite dict_get_set_same.
Qed.

Lemma segment_stats_full stats seg_dict :
  segment_stats stats = Ok seg_dict -> dict_mem "100%" seg_dict = true.
Proof.
  unfold segment_stats. intros H. inv_bind H.
  destruct x; eapply segment_values_full; eassumption.
Qed.

Lemma synthesize_segments_keys protocol_df field_name stats seg_dict acc alts :
  synthesize_segments protocol_df field_name stats seg_dict acc = Ok alts ->
  forall label,
    dict_mem label acc = true \/ In label (keys seg_dict) ->
    dict_mem label alts = true.
Proof.
  revert acc. induction seg_dict as [|[l0 idx] rest IH]; intros acc H label Hl.
  - simpl in H. injection H as <-. destruct Hl as [Hl|[]]. exact Hl.
  - simpl in H. inv_bind H. inv_bind H.
    apply (IH _ H). rewrite dict_mem_set.
    destruct Hl as [Hl|[Hl|Hl]].
    + left. rewrite Hl. apply orb_true_r.
    + left. simpl in Hl. subst. now rewrite String.eqb_refl.
    + right. exact Hl.
Qed.

Lemma field_alternatives_full protocol_df field_name stats alts :
  field_alternatives protocol_df field_name stats = Ok alts ->
  dict_mem "100%" alts = true.
Proof.
  unfold field_alternatives. intros H. inv_bind H.
  eapply synthesize_segments_keys; [exact H|].
  right. apply dict_mem_In. eapply segment_stats_full. eassumption.
Qed.

(** What holds of [fields_dpi] and [all_alt_keys] throughout the loop over
    the fields. *)
Definition fields_inv (fields_dpi : dict (dict Dpi.t))
           (all_alt_keys : list string) : Prop :=
  NoDup (keys fields_dpi)
  /\ NoDup all_alt_keys
  /\ forall f alts,
      dict_get f fields_dpi = Some alts ->
      dict_mem "100%" alts = true
      /\ forall label, In label (keys alts) -> In label all_alt_keys.

Lemma synthesize_fields_inv protocol_df field_stats fd ks fd' ks' :
  synthesize_fields protocol_df field_stats fd ks = Ok (fd', ks') ->
  fields_inv fd ks -> fields_inv fd' ks'.
Proof.
  revert fd ks. induction field_stats as [|[f stats] rest IH];
    intros fd ks H Hinv.
  - simpl in H. injection H as <- <-. exact Hinv.
  - simpl in H. inv_bind H. rename x into alts.
    apply (IH _ _ H). destruct Hinv as [Hnd [Hks Hall]].
    destruct (set_add_all (keys alts) ks Hks) as [Hks' Hin].
    split; [apply keys_dict_set_NoDup; exact Hnd|].
    split; [exact Hks'|].
    intros g alts' Hg.
    destruct (string_dec g f) as [->|Hne].
    + rewrite dict_get_set_same in Hg. injection Hg as <-.
      split; [eapply field_alternatives_full; eassumption|].
      intros label Hl. apply Hin. auto.
    + rewrite dict_get_set_other in Hg by assumption.
      destruct (Hall g alts' Hg) as [H100 Hlab].
      split; [exact H100|]. intros label Hl. apply Hin. auto.
Qed.

Lemma pick_total label alts :
  dict_mem "100%" alts = true ->
  exists d, pick label alts = Ok d
            /\ match dict_get label alts with
               | Some own => d = own
               | None => dict_get "100%" alts = Some d
               end.
Proof.
  unfold pick, dict_mem. intros H.
  destruct (dict_get label alts) as [own|]; [eauto|].
  destruct (dict_get "100%" alts) as [d|]; [simpl; eauto|discriminate].
Qed.

Lemma fill_fields_spec label fd :
  NoDup (keys fd) ->
  (forall f alts, In (f, alts) fd -> dict_mem "100%" alts = true) ->
  forall acc, exists row,
    fill_fields label fd acc = Ok row
    /\ forall f,
        match dict_get f fd with
        | Some alts => exists d, pick label alts = Ok d
                                 /\ dict_get f row = Some d
        | None => dict_get f row = dict_get f acc
        end.
Proof.
  induction fd as [|[f0 alts0] rest IH]; intros Hnd H100 acc.
  - exists acc. split; [reflexivity|]. intros f. reflexivity.
  - inversion Hnd as [|? ? Hf0 Hnd']; subst.
    destruct (pick_total label alts0) as [d0 [Hp _]].
    { apply (H100 f0). left. reflexivity. }
    destruct (IH Hnd' (fun f a Hin => H100 f a (or_intror Hin))
                 (dict_set f0 d0 acc)) as [row [Hrow Hget]].
    exists row. split; [simpl; rewrite Hp; exact Hrow|].
    intros f. simpl. destruct (String.eqb f f0) eqn:E.
    + apply String.eqb_eq in E. subst f.
      specialize (Hget f0). rewrite (dict_get_absent _ _ Hf0) in Hget.
      rewrite dict_get_set_same in Hget. eauto.
    + apply String.eqb_neq in E. specialize (Hget f).
      destruct (dict_get f rest); [exact Hget|].
      now rewrite dict_get_set_other in Hget.
Qed.

Lemma assemble_spec ks fd :
  NoDup (keys fd) ->
  (forall f alts, In (f, alts) fd -> dict_mem "100%" alts = true) ->
  NoDup ks ->
  forall acc, exists res,
    assemble ks fd acc = Ok res
    /\ forall label,
        if mem label ks
        then exists row, fill_fields label fd [] = Ok row
                         /\ dict_get label res = Some row
        else dict_get label res = dict_get label acc.
Proof.
  intros Hnd H100. induction ks as [|k ks IH]; intros Hks acc.
  - exists acc. split; [reflexivity|]. intros label. reflexivity.
  - inversion Hks as [|? ? Hk Hks']; subst.
    destruct (fill_fields_spec k fd Hnd H100 []) as [row [Hrow _]].
    destruct (IH Hks' (dict_set k row acc)) as [res [Hres Hget]].
    exists res. split; [simpl; rewrite Hrow; exact Hres|].
    intros label. specialize (Hget label).
    unfold mem in *. simpl. destruct (String.eqb label k) eqn:E; simpl.
    + apply String.eqb_eq in E. subst label.
      assert (Hm : existsb (String.eqb k) ks = false).
      { destruct (existsb (String.eqb k) ks) eqn:Em; [|reflexivity].
        exfalso. apply Hk. apply mem_In. exact Em. }
      rewrite Hm in Hget. rewrite dict_get_set_same in Hget. eauto.
    + destruct (existsb (String.eqb label) ks); [exact Hget|].
      apply String.eqb_neq in E. now rewrite dict_get_set_other in Hget.
Qed.

(** C9: once every field of an endpoint has been synthesized, the result
    of the endpoint exists and has an entry for every label some field
    produced; under each label every field of the endpoint, and nothing
    else, has a descriptor: the field's own one under that label when
    there is one, and otherwise the field's ["100%"] descriptor. *)
Theorem C9_labels_for_all_fields protocol_df packets fields_dpi all_alt_keys :
  synthesize_fields protocol_df (group_fields packets) [] []
  = Ok (fields_dpi, all_alt_keys) ->
  exists res,
    endpoint_dpi protocol_df packets = Ok res
    /\ (forall f alts label,
           dict_get f fields_dpi = Some alts ->
           In label (keys alts) ->
           dict_mem label res = true)
    /\ (forall label row,
           dict_get label res = Some row ->
           forall f,
             match dict_get f fields_dpi with
             | Some alts =>
                 exists d,
                   dict_get f row = Some d
                   /\ match dict_get label alts with
                      | Some own => d = own
                      | None => dict_get "100%" alts = Some d
                      end
             | None => dict_get f row = None
             end).
Proof.
  intros H.
  assert (Hinv : fields_inv fields_dpi all_alt_keys).
  { eapply synthesize_fields_inv; [exact H|].
    repeat split; try constructor; discriminate. }
  destruct Hinv as [Hnd [Hks Hall]].
  assert (H100 : forall f alts,
             In (f, alts) fields_dpi -> dict_mem "100%" alts = true).
  { intros f alts Hin. apply (Hall f alts). now apply dict_get_In. }
  destruct (assemble_spec all_alt_keys fields_dpi Hnd H100 Hks [])
    as [res [Hres Hget]].
  exists res. split; [unfold endpoint_dpi; rewrite H; exact Hres|].
  split.
  - intros f alts label Hf Hl.
    destruct (Hall f alts Hf) as [_ Hin]. specialize (Hin label Hl).
    apply mem_In in Hin. specialize (Hget label). rewrite Hin in Hget.
    destruct Hget as [row [_ Hrow]]. unfold dict_mem. now rewrite Hrow.
  - intros label row Hrow f. specialize (Hget label).
    destruct (mem label all_alt_keys); [|simpl in Hget; congruence].
    destruct Hget as [row' [Hfill Hrow']].
    rewrite Hrow in Hrow'. injection Hrow' as <-.
    destruct (fill_fields_spec label fields_dpi Hnd H100 [])
      as [row2 [Hfill2 Hspec]].
    rewrite Hfill in Hfill2. injection Hfill2 as <-.
    specialize (Hspec f).
    destruct (dict_get f fields_dpi) as [alts|] eqn:Ef; [|exact Hspec].
    destruct Hspec as [d [Hp Hd]]. exists d. split; [exact Hd|].
    destruct (pick_total label alts) as [d' [Hp' Hd']].
    { apply (Hall f alts Ef). }
    rewrite Hp in Hp'. injection Hp' as <-. exact Hd'.
Qed.

End AssemblyFacts.

(** * Worked examples

    The examples run the pipeline with the reference runtime and a model
    that predicts the dynamic class, the first label of the encoder, and
    not-a-number for every regression output. *)

Definition ex_model (_ : list float) : Pred.t :=
  {| Pred.is_dynamic := [PyFloat.zero; PyFloat.of_Z 1];
     Pred.min_size := PyFloat.nan;
     Pred.max_size := PyFloat.nan;
     Pred.min_value := PyFloat.nan;
     Pred.max_value := PyFloat.nan;
     Pred.field_type := [PyFloat.of_Z 1; PyFloat.zero];
     Pred.bit_count := PyFloat.nan |}.

Definition ex_rt : Runtime := ref_runtime ex_model ["int"; "char"].

Definition bytes_of (l : list Z) : list byte :=
  map (fun n => match Strings.Byte.of_N (Z.to_N n) with
                | Some b => b
                | None => Init.Byte.x00
                end) l.

(** A datagram sent to port 10000 by 10.0.0.1. *)
Definition ex_packet (payload : list Z) : packet :=
  {| udp := Some (40000, 10000);
     ip := Some ("10.0.0.1", "10.0.0.2");
     payload_of := bytes_of payload |}.

(** The records of the only endpoint of a capture, grouped by field. *)
Definition ex_fields (protocol_df : list Row.t) (payloads : list (list Z))
  : dict (list Rec.t) :=
  match parse_pcap_with_ip (RT := ex_rt) (map ex_packet payloads)
                           protocol_df with
  | Ok [(_, packets)] => group_fields packets
  | _ => []
  end.

Definition ex_stats (protocol_df : list Row.t) (payloads : list (list Z))
           (field_name : string) : list Rec.t :=
  match dict_get field_name (ex_fields protocol_df payloads) with
  | Some stats => stats
  | None => []
  end.

(** *** A length-prefixed text field *)

Definition ex1_len : Row.t := Row.mk "len" 1 "int" "" 0 false.
Definition ex1_name : Row.t := Row.mk "name" 0 "char" "len" 0 false.
Definition ex1_tail : Row.t := Row.mk "tail" 2 "int" "" 0 false.
Definition ex1_schema : list Row.t := [ex1_len; ex1_name; ex1_tail].


(** The same packet cut after the first byte of [tail]. *)
Definition ex1_short : list byte := bytes_of [3; 97; 98; 99; 0].


Definition ex1_after_name : dstate :=
  {| offset := PyInt 4;
     packet_data := [("len", VScalar (SInt 3));
                     ("name", VScalar (SStr "abc"))];
     records := [Rec.mk "len" 1 (VScalar (SInt 3)) "int"
                        (FieldKeys "" None None);
                 Rec.mk "name" 3 (VScalar (SStr "abc")) "char"
                        (FieldKeys "len" None None)] |}.

(** *** A field that takes the rest *)










(** A packet without a single record leaves the series as it was. *)
Lemma C3_empty_packet_kept_out :
  parse_packet (RT := ex_rt) ex1_schema []
    {| udp := Some (40000, 10000); ip := Some ("10.0.0.1", "10.0.0.2");
       payload_of := [] |}
  = Ok [].
Proof. reflexivity. Qed.





(** *** Arrays *)

Definition ex10_floats : Row.t :=
  Row.mk "v" 8 "array of float" "" 2 false.


(** Two floats, 1.0 and 2.0. *)
Definition ex10_payload : list byte := bytes_of [63; 128; 0; 0; 64; 0; 0; 0].





(** *** Segmentation *)

Definition ex_id : list Row.t := [Row.mk "id" 4 "int" "" 0 false].

(** Three packets with [id] 7, 9 and 200. *)
Definition ex2_stats : list Rec.t :=
  Eval vm_compute in
    ex_stats ex_id [[0; 0; 0; 7]; [0; 0; 0; 9]; [0; 0; 0; 200]] "id".






(** *** Synthesis *)

(** An [id] that varies and a [kind] of constant size 4. *)
Definition ex4_schema : list Row.t :=
  [Row.mk "id" 4 "int" "" 0 false; Row.mk "kind" 4 "int" "" 0 false].

Definition ex4_payloads : list (list Z) :=
  [[0; 0; 0; 7; 0; 0; 0; 1]; [0; 0; 0; 9; 0; 0; 0; 1]].

Definition ex4_stats : list Rec.t :=
  Eval vm_compute in ex_stats ex4_schema ex4_payloads "kind".

Definition ex4_features : Feat.t :=
  Eval vm_compute in
    match extract_aggregated_features (RT := ex_rt) ex4_stats with
    | Ok f => f
    | Raise _ => Feat.mk PyFloat.nan PyFloat.nan PyFloat.nan PyFloat.nan
                         PyFloat.nan PyFloat.nan PyFloat.nan PyFloat.nan
                         PyFloat.nan
    end.

Definition ex_no_dpi : Dpi.t :=
  Dpi.mk false (Scalar PyFloat.nan) (Scalar PyFloat.nan) None None None ""
         None.

Definition ex4_dpi : Dpi.t :=
  Eval vm_compute in
    try_default (synthesize (RT := ex_rt) ex4_schema "kind" ex4_stats
                            ex4_stats) ex_no_dpi.

(** The model predicts the dynamic class, the observed size is always 4
    and there is no size field: the descriptor is not dynamic. *)
Lemma C4_is_dynamic_array_witness :
  synthesize (RT := ex_rt) ex4_schema "kind" ex4_stats ex4_stats = Ok ex4_dpi
  /\ np_argmax (float64 (RT := ex_rt)) (Pred.is_dynamic (ex_model [])) = Ok 1%nat
  /\ Feat.min_size ex4_features = PyFloat.of_Z 4
  /\ Feat.max_size ex4_features = PyFloat.of_Z 4
  /\ Dpi.is_dynamic_array ex4_dpi = false
  /\ exists features cls,
      extract_aggregated_features (RT := ex_rt) ex4_stats = Ok features
      /\ np_argmax (float64 (RT := ex_rt))
           (Pred.is_dynamic
              (predict (Runtime := ex_rt) (create_feature_vector features)))
         = Ok cls
      /\ Dpi.is_dynamic_array ex4_dpi
         = match size_field_of ex4_schema "kind" with
           | Some _ => true
           | None =>
               if PyFloat.eqb (Feat.min_size features)
                              (Feat.max_size features)
               then false
               else negb (cls =? 0)%nat
           end.
Proof.
  split; [vm_compute; reflexivity|].
  split; [reflexivity|]. split; [reflexivity|]. split; [reflexivity|].
  split; [reflexivity|].
  apply (C4_is_dynamic_array (RT := ex_rt) ex4_schema "kind" ex4_stats
                             ex4_stats ex4_dpi).
  vm_compute; reflexivity.
Defined.

(** Five rows that share the name [x]: two ints on one byte, a text on one
    byte and two texts on nine bytes. *)
Definition ce5_schema : list Row.t :=
  [Row.mk "x" 1 "int" "" 0 false; Row.mk "x" 1 "int" "" 0 false;
   Row.mk "x" 1 "char" "" 0 false; Row.mk "x" 9 "char" "" 0 false;
   Row.mk "x" 9 "char" "" 0 false].

Definition ce5_payload : list Z :=
  [1; 2; 97;
   98; 98; 98; 98; 98; 98; 98; 98; 98;
   99; 99; 99; 99; 99; 99; 99; 99; 99].

Definition ce5_stats : list Rec.t :=
  Eval vm_compute in ex_stats ce5_schema [ce5_payload] "x".

Definition ce5_main : list Rec.t :=
  Eval vm_compute in firstn 3 ce5_stats.

Definition ce5_dpi : Dpi.t :=
  Eval vm_compute in
    try_default (synthesize (RT := ex_rt) ce5_schema "x" ce5_stats ce5_main)
                ex_no_dpi.

(** The main segment holds two ints and one text, yet its final type is
    the one most frequent among all five occurrences. *)
Lemma C5_counterexample :
  load_protocol_definitions (RT := ex_rt) [] "5"
    [["x"; "1"; "int"]; ["x"; "1"; "int"]; ["x"; "1"; "char"];
     ["x"; "9"; "char"]; ["x"; "9"; "char"]] = Ok ce5_schema
  /\ map Rec.field_type ce5_stats = ["int"; "int"; "char"; "char"; "char"]
  /\ segment_stats (RT := ex_rt) ce5_stats
     = Ok [("60%", [0%nat; 1%nat; 2%nat]);
           ("100%", [0%nat; 1%nat; 2%nat; 3%nat; 4%nat])]
  /\ take ce5_stats [0%nat; 1%nat; 2%nat] = Ok ce5_main
  /\ mode (map Rec.field_type ce5_main) = Some "int"
  /\ synthesize (RT := ex_rt) ce5_schema "x" ce5_stats ce5_main = Ok ce5_dpi
  /\ Dpi.field_type ce5_dpi = "char".
Proof. repeat split; vm_compute; reflexivity. Qed.

(** The final type of the main segment is the mode over all occurrences. *)
Lemma C5_field_type_witness :
  synthesize (RT := ex_rt) ce5_schema "x" ce5_stats ce5_main = Ok ce5_dpi
  /\ mode (map Rec.field_type ce5_stats) = Some "char"
  /\ Dpi.field_type ce5_dpi = "char"
  /\ exists m features ftc ftp,
      mode (map Rec.field_type ce5_stats) = Some m
      /\ In m (map Rec.field_type ce5_stats)
      /\ (forall t, (count_of t (map Rec.field_type ce5_stats)
                     <= count_of m (map Rec.field_type ce5_stats))%nat)
      /\ extract_aggregated_features (RT := ex_rt) ce5_main = Ok features
      /\ np_argmax (float64 (RT := ex_rt))
           (Pred.field_type
              (predict (Runtime := ex_rt) (create_feature_vector features)))
         = Ok ftc
      /\ inverse_transform (Runtime := ex_rt) ftc = Ok ftp
      /\ Dpi.field_type ce5_dpi = if String.eqb m "bitfield" then ftp else m.
Proof.
  split; [vm_compute; reflexivity|].
  split; [reflexivity|]. split; [reflexivity|].
  apply (C5_field_type (RT := ex_rt) ce5_schema "x" ce5_stats ce5_main
                       ce5_dpi).
  - discriminate.
  - vm_compute; reflexivity.
Defined.

(** The array [sensor_ids] of four ints on eight bytes, seen with the
    values 1, 2, 3, 4 and 5, 2, 1, 4. *)
Definition ex7_schema : list Row.t :=
  [Row.mk "sensor_ids" 8 "array of int" "" 4 false].

Definition ex7_stats : list Rec.t :=
  Eval vm_compute in
    ex_stats ex7_schema
             [[0; 1; 0; 2; 0; 3; 0; 4]; [0; 5; 0; 2; 0; 1; 0; 4]]
             "sensor_ids".

Definition ex7_dpi : Dpi.t :=
  Eval vm_compute in
    try_default (synthesize (RT := ex_rt) ex7_schema "sensor_ids" ex7_stats
                            ex7_stats) ex_no_dpi.

(** Element sizes 8 // 4 = 2 and the per-index extrema of the two packets. *)
Lemma C7_fixed_array_witness :
  load_protocol_definitions (RT := ex_rt) [] "1"
    [["sensor_ids"; "8"; "array"; "int"; "4"]] = Ok ex7_schema
  /\ synthesize (RT := ex_rt) ex7_schema "sensor_ids" ex7_stats ex7_stats
     = Ok ex7_dpi
  /\ Dpi.min_size ex7_dpi = PerElement (repeat (PyFloat.of_Z 2) 4)
  /\ Dpi.max_size ex7_dpi = PerElement (repeat (PyFloat.of_Z 2) 4)
  /\ Dpi.min_value ex7_dpi
     = Some (PerElement (map PyFloat.of_Z [1; 2; 1; 4]))
  /\ Dpi.max_value ex7_dpi
     = Some (PerElement (map PyFloat.of_Z [5; 2; 3; 4]))
  /\ exists features n qmin qmax,
      extract_aggregated_features (RT := ex_rt) ex7_stats = Ok features
      /\ PyFloat.of_int 4 = Ok n
      /\ PyFloat.floordiv
           (nan_fallback
              (Pred.min_size
                 (predict (Runtime := ex_rt) (create_feature_vector features)))
              (Feat.min_size features)) n = Ok qmin
      /\ PyFloat.floordiv
           (nan_fallback
              (Pred.max_size
                 (predict (Runtime := ex_rt) (create_feature_vector features)))
              (Feat.max_size features)) n = Ok qmax
      /\ Dpi.min_size ex7_dpi = PerElement (repeat (PyFloat.round3 qmin) 4)
      /\ Dpi.max_size ex7_dpi = PerElement (repeat (PyFloat.round3 qmax) 4).
Proof.
  split; [reflexivity|]. split; [vm_compute; reflexivity|].
  split; [reflexivity|]. split; [reflexivity|].
  split; [reflexivity|]. split; [reflexivity|].
  destruct (C7_fixed_array (RT := ex_rt) ex7_schema "sensor_ids" ex7_stats
              ex7_stats ex7_dpi
              (Row.mk "sensor_ids" 8 "array of int" "" 4 false) "int")
    as (features & n & qmin & qmax & H1 & H2 & H3 & H4 & H5 & H6 & _).
  - reflexivity.
  - reflexivity.
  - reflexivity.
  - discriminate.
  - vm_compute; reflexivity.
  - exists features, n, qmin, qmax. auto 10.
Defined.

(** One float on four bytes, seen once with the value [2^-10]. *)
Definition ce7_schema : list Row.t :=
  [Row.mk "v" 4 "array of float" "" 1 false].

Definition ce7_stats : list Rec.t :=
  Eval vm_compute in ex_stats ce7_schema [[58; 128; 0; 0]] "v".

Definition ce7_value : float := PyFloat.div (PyFloat.of_Z 1) (PyFloat.of_Z 1024).

Definition ce7_dpi : Dpi.t :=
  Eval vm_compute in
    try_default (synthesize (RT := ex_rt) ce7_schema "v" ce7_stats ce7_stats)
                ex_no_dpi.

(** The only observed element value is [2^-10]; the descriptor reports
    0.001. *)
Lemma C7_counterexample :
  load_protocol_definitions (RT := ex_rt) [] "1"
    [["v"; "4"; "array"; "float"; "1"]] = Ok ce7_schema
  /\ map Rec.value ce7_stats = [VList [SFloat ce7_value]]
  /\ py_min [SFloat ce7_value] = Ok (SFloat ce7_value)
  /\ synthesize (RT := ex_rt) ce7_schema "v" ce7_stats ce7_stats = Ok ce7_dpi
  /\ Dpi.min_value ce7_dpi
     = Some (PerElement [PyFloat.div (PyFloat.of_Z 1) (PyFloat.of_Z 1000)])
  /\ PyFloat.eqb (PyFloat.div (PyFloat.of_Z 1) (PyFloat.of_Z 1000)) ce7_value
     = false.
Proof. repeat split; vm_compute; reflexivity. Qed.






(** An [id] and a text that takes the rest of the packet. *)
Definition ex9_schema : list Row.t :=
  [Row.mk "id" 4 "int" "" 0 false; Row.mk "name" 0 "char" "" 0 false].

Definition ex9_packets : list (list Rec.t) :=
  Eval vm_compute in
    match parse_pcap_with_ip (RT := ex_rt)
            (map ex_packet [[0; 0; 0; 7; 97; 98]; [0; 0; 0; 9; 99; 100]])
            ex9_schema with
    | Ok [(_, packets)] => packets
    | _ => []
    end.

Definition ex9_fields : dict (dict Dpi.t) * list string :=
  Eval vm_compute in
    try_default (synthesize_fields (RT := ex_rt) ex9_schema
                   (group_fields ex9_packets) [] []) ([], []).

Definition ex9_result : dict (dict Dpi.t) :=
  Eval vm_compute in
    try_default (endpoint_dpi (RT := ex_rt) ex9_schema ex9_packets) [].

Definition opt_bind {A B} (o : option A) (f : A -> option B) : option B :=
  match o with
  | Some a => f a
  | None => None
  end.

(** [id] splits into two segments, [name] does not: under ["50%"] the
    field [name] has its ["100%"] descriptor. *)
Lemma C9_labels_for_all_fields_witness :
  synthesize_fields (RT := ex_rt) ex9_schema (group_fields ex9_packets) [] []
  = Ok ex9_fields
  /\ snd ex9_fields = ["50%"; "100%"]
  /\ opt_bind (dict_get "id" (fst ex9_fields)) (fun a => Some (keys a))
     = Some ["50%"; "100%"]
  /\ opt_bind (dict_get "name" (fst ex9_fields)) (fun a => Some (keys a))
     = Some ["100%"]
  /\ endpoint_dpi (RT := ex_rt) ex9_schema ex9_packets = Ok ex9_result
  /\ opt_bind (dict_get "50%" ex9_result) (dict_get "name")
     = opt_bind (dict_get "name" (fst ex9_fields)) (dict_get "100%")
  /\ exists res,
      endpoint_dpi (RT := ex_rt) ex9_schema ex9_packets = Ok res
      /\ (forall f alts label,
             dict_get f (fst ex9_fields) = Some alts ->
             In label (keys alts) ->
             dict_mem label res = true).
Proof.
  split; [vm_compute; reflexivity|].
  split; [reflexivity|]. split; [reflexivity|]. split; [reflexivity|].
  split; [vm_compute; reflexivity|]. split; [reflexivity|].
  destruct (C9_labels_for_all_fields (RT := ex_rt) ex9_schema ex9_packets
              (fst ex9_fields) (snd ex9_fields))
    as (res & Hres & Hlabels & _).
  - vm_compute; reflexivity.
  - exists res. auto.
Defined.

(** * Further properties of the decoder *)

Lemma sumZ_from (l : list Z) (acc : Z) :
  fold_left Z.add l acc = acc + sumZ l.
Proof.
  unfold sumZ. revert acc. induction l as [|x l IH]; intros acc; simpl.
  - lia.
  - rewrite IH, (IH x). lia.
Qed.

Lemma sumZ_app (l l' : list Z) : sumZ (l ++ l') = sumZ l + sumZ l'.
Proof. unfold sumZ at 1. rewrite fold_left_app, sumZ_from. reflexivity. Qed.

Lemma sumZ_cons (x : Z) (l : list Z) : sumZ (x :: l) = x + sumZ l.
Proof. unfold sumZ. simpl. apply sumZ_from. Qed.

Section DecoderInvariants.

Context {RT : Runtime}.

(** The bytes of the records: the sum of their sizes. *)
Definition bytes_used (recs : list Rec.t) : Z := sumZ (map Rec.size recs).

(** What a decoded record takes over from the row it was decoded for. *)
Definition mirrors (rec : Rec.t) (row : Row.t) : Prop :=
  Rec.field_name rec = Row.name row
  /\ Rec.field_type rec = Row.type row
  /\ (Row.size row <> 0 -> Rec.size rec = Row.size row).

Lemma resolve_size_declared protocol_df payload idx row st :
  Row.size row <> 0 ->
  resolve_size protocol_df payload idx row st = Ok (PyInt (Row.size row)).
Proof.
  intros Hne. unfold resolve_size. apply Z.eqb_neq in Hne.
  now rewrite Hne.
Qed.

Lemma decode_field_record protocol_df payload idx row st st' :
  decode_field protocol_df payload idx row st = Ok (Some st') ->
  exists rec fsize,
    records st' = records st ++ [rec]
    /\ mirrors rec row
    /\ resolve_size protocol_df payload idx row st = Ok fsize
    /\ Rec.size rec = num_val fsize
    /\ int_add (offset st) fsize = Ok (offset st')
    /\ num_val (offset st') <= len payload
    /\ packet_data st' = dict_set (Row.name row) (Rec.value rec)
                                  (packet_data st).
Proof.
  intros H.
  destruct (decode_field_advances _ _ _ _ _ _ H)
    as (rec & fsize & stop & Hres & Hadd & Hle & Hrec & Hoff & Hpd & Hsz
        & Hname & Htype).
  exists rec, fsize. subst stop.
  assert (Hm : mirrors rec row).
  { split; [exact Hname|]. split; [exact Htype|].
    intros Hne. rewrite (resolve_size_declared _ _ _ _ _ Hne) in Hres.
    injection Hres as <-. exact Hsz. }
  repeat (split; [assumption|]). assumption.
Qed.


Lemma wrap_kind_absorb (k1 k : column) (x b : Z) :
  k1 = ObjectColumn \/ k1 = k ->
  wrap_kind k (wrap_kind k1 x + b) = wrap_kind k (x + b).
Proof.
  intros [->| ->]; [reflexivity|].
  destruct k; [| |reflexivity]; apply wrap_kind_congr; try discriminate;
    rewrite Zplus_mod, wrap_kind_eqm, <- Zplus_mod; reflexivity.
Qed.

Lemma decode_rows_records protocol_df payload idx rows st b st' :
  decode_rows protocol_df payload idx rows st = Ok (b, st') ->
  exists new,
    records st' = records st ++ new
    /\ (new = [] -> offset st' = offset st)
    /\ (kind_of (offset st') = kind_of (offset st)
        \/ kind_of (offset st) = ObjectColumn)
    /\ (new <> [] ->
        num_val (offset st')
        = wrap_kind (kind_of (offset st'))
                    (num_val (offset st) + bytes_used new))
    /\ Forall2 mirrors new (firstn (List.length new) rows)
    /\ (if b then (List.length new < List.length rows)%nat
        else List.length new = List.length rows)
    /\ (new <> [] -> num_val (offset st') <= len payload)
    /\ (kind_of (offset st') = ObjectColumn ->
        forall pre rec post,
          new = pre ++ rec :: post ->
          num_val (offset st) + bytes_used pre + Rec.size rec
          <= len payload)
    /\ (kind_of (offset st) = ObjectColumn ->
        Forall (fun r => Row.size r <> 0) rows ->
        kind_of (offset st') = ObjectColumn).
Proof.
  revert idx st. induction rows as [|row rows IH]; intros idx st H.
  - simpl in H. injection H as <- <-. exists []. rewrite app_nil_r.
    split; [reflexivity|]. split; [reflexivity|]. split; [now left|].
    split; [congruence|]. split; [constructor|]. split; [reflexivity|].
    split; [congruence|].
    split; [intros _ [|? ?] ? ? Heq; discriminate Heq|].
    intros Hk _. exact Hk.
  - simpl in H. inv_bind H. destruct x as [st1|].
    + destruct (decode_field_record _ _ _ _ _ _ E)
        as (rec & fsize & Hr & Hm & Hres & Hsz & Hadd & Hle & _).
      destruct (arith_spec _ _ _ _ Hadd) as [Hk Hv].
      destruct (IH _ _ H)
        as (new & Hn & Hnone & Hmono & Hoff & Hmir & Hlen & Hin & Hpre
            & Hdecl).
      exists (rec :: new).
      assert (Hb : bytes_used (rec :: new) = num_val fsize + bytes_used new).
      { unfold bytes_used. simpl. rewrite sumZ_cons, Hsz. reflexivity. }
      split; [rewrite Hn, Hr, <- app_assoc; reflexivity|].
      split; [discriminate|].
      assert (Hmono' : kind_of (offset st') = kind_of (offset st)
                       \/ kind_of (offset st) = ObjectColumn).
      { destruct (kind_of (offset st)); auto; left;
          destruct Hmono as [Hmono|Hmono]; congruence. }
      split; [exact Hmono'|].
      split.
      { intros _. rewrite Hb. destruct new as [|r new].
        - rewrite (Hnone eq_refl). unfold bytes_used at 1, sumZ. simpl.
          rewrite Z.add_0_r. exact Hv.
        - rewrite Hoff by discriminate. rewrite Hv, Z.add_assoc.
          apply wrap_kind_absorb.
          destruct Hmono as [Hmono|Hmono]; auto. }
      split; [simpl; constructor; assumption|].
      split; [simpl; destruct b; lia|].
      split.
      { intros _. destruct new as [|r new].
        - rewrite (Hnone eq_refl). exact Hle.
        - apply Hin. discriminate. }
      assert (Hobj : kind_of (offset st') = ObjectColumn ->
                     kind_of (offset st1) = ObjectColumn
                     /\ kind_of (offset st) = ObjectColumn
                     /\ kind_of fsize = ObjectColumn).
      { intros Hk'.
        assert (Hk1 : kind_of (offset st1) = ObjectColumn)
          by (destruct Hmono as [Hmono|Hmono]; congruence).
        split; [exact Hk1|]. rewrite Hk1 in Hk.
        destruct (kind_of (offset st)); try discriminate Hk. auto. }
      split.
      { intros Hk' pre rec' post Heq.
        destruct (Hobj Hk') as (Hk1 & Hk0 & Hkf).
        rewrite Hk1 in Hv. cbn [wrap_kind] in Hv.
        destruct pre as [|p pre]; simpl in Heq.
        - injection Heq as <- _. unfold bytes_used, sumZ. simpl. lia.
        - injection Heq as <- Heq.
          specialize (Hpre Hk' pre rec' post Heq).
          unfold bytes_used in *. simpl. rewrite sumZ_cons. lia. }
      intros Hk0 Hall. inversion Hall as [|? ? Hrow Hrows]; subst.
      apply Hdecl; [|exact Hrows].
      rewrite (resolve_size_declared _ _ _ _ _ Hrow) in Hres.
      injection Hres as <-. rewrite Hk0 in Hk. exact Hk.
    + injection H as <- <-. exists []. rewrite app_nil_r.
      split; [reflexivity|]. split; [reflexivity|]. split; [now left|].
      split; [congruence|]. split; [constructor|]. split; [simpl; lia|].
      split; [congruence|].
      split; [intros _ [|? ?] ? ? Heq; discriminate Heq|].
      intros Hk _. exact Hk.
Qed.

(** X1: the end of every decoded field, as the program computes it, lies
    inside the payload: after any number of rows the offset is at most the
    payload length. The offset is the sum of the sizes of the records,
    exactly as long as it is a Python int, and wrapped around into the type
    of the NumPy scalar once a size computed from the rest of the payload
    has been added. While the offset is a Python int the sizes of the
    records up to and including any one of them add up to at most the
    payload length, and the offset is one as long as every row declares a
    non-zero size. *)
Theorem decoded_fields_end_in_payload protocol_df payload rows b st :
  decode_rows protocol_df payload 0 rows dstate0 = Ok (b, st) ->
  num_val (offset st) <= len payload
  /\ num_val (offset st)
     = wrap_kind (kind_of (offset st)) (bytes_used (records st))
  /\ (kind_of (offset st) = ObjectColumn ->
      bytes_used (records st) <= len payload
      /\ forall pre rec post,
          records st = pre ++ rec :: post ->
          bytes_used pre + Rec.size rec <= len payload)
  /\ (Forall (fun r => Row.size r <> 0) rows ->
      kind_of (offset st) = ObjectColumn)
  /\ (rows = protocol_df ->
      decode_packet protocol_df payload = Ok (records st)).
Proof.
  intros H.
  destruct (decode_rows_records _ _ _ _ _ _ _ H)
    as (new & Hn & Hnone & _ & Hoff & _ & _ & Hin & Hpre & Hdecl).
  simpl in Hn, Hoff, Hpre. subst new.
  assert (Hlen : 0 <= len payload) by (unfold len; lia).
  assert (Hval : num_val (offset st)
                 = wrap_kind (kind_of (offset st)) (bytes_used (records st))).
  { destruct (records st) as [|r rs].
    - rewrite (Hnone eq_refl). reflexivity.
    - apply Hoff. discriminate. }
  split.
  { destruct (records st) as [|r rs].
    - rewrite (Hnone eq_refl). exact Hlen.
    - apply Hin. discriminate. }
  split; [exact Hval|]. split; [|split].
  - intros Hk. split.
    + rewrite Hk in Hval. cbn [wrap_kind] in Hval. rewrite <- Hval.
      destruct (records st) as [|r rs].
      * rewrite (Hnone eq_refl). exact Hlen.
      * apply Hin. discriminate.
    + intros pre rec post Heq. specialize (Hpre Hk pre rec post Heq). lia.
  - intros Hall. apply Hdecl; [reflexivity|exact Hall].
  - intros ->. unfold decode_packet. rewrite H. reflexivity.
Qed.

(** X2: the records of a packet mirror a prefix of the schema: the i-th record
    has the name and the type of the i-th row, and the size of that row when
    the row declares one (a non-zero size), whatever the payload holds. *)
Theorem records_mirror_schema protocol_df payload recs :
  decode_packet protocol_df payload = Ok recs ->
  (List.length recs <= List.length protocol_df)%nat
  /\ Forall2 mirrors recs (firstn (List.length recs) protocol_df).
Proof.
  unfold decode_packet. intros H. inv_bind H. destruct x as [b st].
  injection H as <-.
  destruct (decode_rows_records _ _ _ _ _ _ _ E)
    as (new & Hn & _ & _ & _ & Hmir & Hlen & _).
  simpl in Hn. subst new. split; [destruct b; lia|exact Hmir].
Qed.




End DecoderInvariants.

(** ** Values read from the bytes *)

Lemma from_bytes_big_snoc (chunk : list byte) (b : byte) :
  from_bytes_big (chunk ++ [b])
  = from_bytes_big chunk * 256 + Z.of_N (Strings.Byte.to_N b).
Proof. unfold from_bytes_big. rewrite fold_left_app. reflexivity. Qed.

Lemma byte_range (b : byte) : 0 <= Z.of_N (Strings.Byte.to_N b) <= 255.
Proof. pose proof (Strings.Byte.to_N_bounded b). lia. Qed.

Lemma byte_to_N_inj (a b : byte) :
  Strings.Byte.to_N a = Strings.Byte.to_N b -> a = b.
Proof.
  intros H. pose proof (Strings.Byte.of_to_N a) as Ha.
  rewrite H, Strings.Byte.of_to_N in Ha. congruence.
Qed.

Lemma from_bytes_big_range (chunk : list byte) :
  0 <= from_bytes_big chunk < 256 ^ len chunk.
Proof.
  induction chunk as [|b chunk IH] using rev_ind.
  - unfold from_bytes_big, len. simpl. lia.
  - rewrite from_bytes_big_snoc. unfold len in *.
    rewrite length_app, Nat2Z.inj_add. simpl List.length.
    rewrite Z.pow_add_r by lia. pose proof (byte_range b). lia.
Qed.

Lemma from_bytes_big_inj (c1 c2 : list byte) :
  List.length c1 = List.length c2 ->
  from_bytes_big c1 = from_bytes_big c2 -> c1 = c2.
Proof.
  revert c2. induction c1 as [|b1 c1 IH] using rev_ind; intros c2 Hl Hv.
  - destruct c2; [reflexivity|discriminate].
  - destruct c2 as [|b2 c2 _] using rev_ind.
    + rewrite length_app in Hl. simpl in Hl. lia.
    + rewrite !from_bytes_big_snoc in Hv. rewrite !length_app in Hl.
      simpl in Hl.
      pose proof (byte_range b1). pose proof (byte_range b2).
      assert (from_bytes_big c1 = from_bytes_big c2) by lia.
      assert (Strings.Byte.to_N b1 = Strings.Byte.to_N b2) by lia.
      f_equal; [apply IH; [lia|assumption]|].
      f_equal. now apply byte_to_N_inj.
Qed.

Lemma from_bytes_big_zero (chunk : list byte) :
  from_bytes_big chunk = 0 <-> Forall (fun b => b = Init.Byte.x00) chunk.
Proof.
  induction chunk as [|b chunk IH] using rev_ind.
  - split; [constructor|reflexivity].
  - rewrite from_bytes_big_snoc, Forall_app.
    pose proof (from_bytes_big_range chunk). pose proof (byte_range b).
    split.
    + intros Hz. split; [apply IH; lia|].
      constructor; [|constructor]. apply byte_to_N_inj.
      change (Strings.Byte.to_N Init.Byte.x00) with 0%N. lia.
    + intros [Hc Hb]. apply IH in Hc. inversion Hb; subst.
      rewrite Hc. reflexivity.
Qed.

Section ScalarValues.

Context {RT : Runtime}.

Ltac scalar_cases H :=
  unfold decode_scalar, unpack_f, unpack_d in H;
  repeat match type of H with
         | (if ?c then _ else _) = _ => destruct c eqn:?
         | bind _ _ = Ok _ => inv_bind H
         end;
  try discriminate.

(** X4: an int field decodes to the unsigned big-endian number of its bytes:
    it is never negative, it is below 256 to the number of bytes read, and two
    readings of as many bytes with the same value read the same bytes. *)
Theorem int_field_value ftype_descr chunk n :
  decode_scalar ftype_descr chunk = Ok (SInt n) ->
  0 <= n < 256 ^ len chunk
  /\ forall chunk',
      len chunk' = len chunk ->
      decode_scalar ftype_descr chunk' = Ok (SInt n) -> chunk' = chunk.
Proof.
  intros H. scalar_cases H. injection H as <-.
  split; [apply from_bytes_big_range|].
  intros chunk' Hl H'. unfold decode_scalar in H'. rewrite Heqb in H'.
  injection H' as H'. apply from_bytes_big_inj; [|exact H'].
  unfold len in Hl. lia.
Qed.

(** X5: a bool field is [False] exactly when every byte read is zero; this
    holds for a field of any size, also of no bytes at all. *)
Theorem bool_field_value ftype_descr chunk b :
  decode_scalar ftype_descr chunk = Ok (SBool b) ->
  (b = false <-> Forall (fun x => x = Init.Byte.x00) chunk).
Proof.
  intros H. scalar_cases H. injection H as <-.
  rewrite <- from_bytes_big_zero, Bool.negb_false_iff, Z.eqb_eq.
  reflexivity.
Qed.

End ScalarValues.

(** ** Fields of unknown type *)

(** The digit that [hex_digit] writes, read back. *)
Definition unhex_digit (c : ascii) : N :=
  match String.index 0 (String c EmptyString) "0123456789abcdef" with
  | Some i => N.of_nat i
  | None => 0%N
  end.

Lemma unhex_hex_digit (n : N) : (n < 16)%N -> unhex_digit (hex_digit n) = n.
Proof.
  intros H. rewrite <- (Nnat.N2Nat.id n).
  assert (Hk : (N.to_nat n < 16)%nat) by lia.
  revert Hk. generalize (N.to_nat n). clear. intros k Hk.
  do 16 (destruct k as [|k]; [reflexivity|]). lia.
Qed.

Lemma hex_length (chunk : list byte) :
  String.length (hex chunk) = (2 * List.length chunk)%nat.
Proof. induction chunk as [|b chunk IH]; simpl; [reflexivity|]. lia. Qed.

Lemma hex_inj (c1 c2 : list byte) : hex c1 = hex c2 -> c1 = c2.
Proof.
  revert c2. induction c1 as [|b1 c1 IH]; intros [|b2 c2] H;
    try discriminate; [reflexivity|].
  simpl in H. injection H as Hhi Hlo Ht.
  pose proof (Strings.Byte.to_N_bounded b1) as H1.
  pose proof (Strings.Byte.to_N_bounded b2) as H2.
  apply (f_equal unhex_digit) in Hhi, Hlo.
  rewrite !unhex_hex_digit in Hhi, Hlo
    by (try apply N.mod_lt; try apply N.Div0.div_lt_upper_bound; lia).
  f_equal; [|now apply IH].
  apply byte_to_N_inj.
  rewrite (N.div_mod (Strings.Byte.to_N b1) 16) by lia.
  rewrite (N.div_mod (Strings.Byte.to_N b2) 16) by lia.
  congruence.
Qed.

Section UnknownTypes.

Context {RT : Runtime}.

(** X6: a field whose type is none of int, float, double, char and bool is
    never refused: its value is the hexadecimal text of its bytes, two
    characters for each byte, and different bytes give different texts. *)
Theorem unknown_type_kept_as_hex ftype_descr chunk :
  existsb (String.eqb (lower ftype_descr))
          ["int"; "float"; "double"; "char"; "bool"] = false ->
  exists s,
    decode_scalar ftype_descr chunk = Ok (SStr s)
    /\ String.length s = (2 * List.length chunk)%nat
    /\ forall chunk',
        decode_scalar ftype_descr chunk' = Ok (SStr s) -> chunk' = chunk.
Proof.
  intros H. simpl in H. rewrite !Bool.orb_false_iff in H.
  destruct H as (Hi & Hf & Hd & Hc & Hb & _).
  assert (Hdec : forall c, decode_scalar ftype_descr c = Ok (SStr (hex c))).
  { intros c. unfold decode_scalar.
    rewrite Hi, Hf, Hd, Hc, Hb. reflexivity. }
  exists (hex chunk). split; [apply Hdec|]. split; [apply hex_length|].
  intros chunk' H'. rewrite Hdec in H'. injection H' as H'.
  now apply hex_inj.
Qed.

End UnknownTypes.

(** ** Bit fields *)

(** The number written by a list of binary digits, most significant
    first. *)
Definition bits_value (bits : list Z) : Z :=
  fold_left (fun acc b => 2 * acc + b) bits 0.

Definition is_bit_digit (b : Z) : Prop := b = 0 \/ b = 1.

Lemma bits_of_pos_app (p : positive) (acc : list Z) :
  bits_of_pos p acc = bits_of_pos p [] ++ acc.
Proof.
  revert acc. induction p as [p IH|p IH|]; intros acc; simpl.
  - rewrite IH, (IH [1]), <- app_assoc. reflexivity.
  - rewrite IH, (IH [0]), <- app_assoc. reflexivity.
  - reflexivity.
Qed.

Lemma bits_of_pos_value (p : positive) : bits_value (bits_of_pos p []) = Zpos p.
Proof.
  unfold bits_value. induction p as [p IH|p IH|]; cbn [bits_of_pos].
  - rewrite bits_of_pos_app, fold_left_app, IH. cbn [fold_left]. lia.
  - rewrite bits_of_pos_app, fold_left_app, IH. cbn [fold_left]. lia.
  - reflexivity.
Qed.

Lemma bits_of_pos_digits (p : positive) :
  Forall is_bit_digit (bits_of_pos p []).
Proof.
  induction p as [p IH|p IH|]; simpl.
  - rewrite bits_of_pos_app, Forall_app. split; [exact IH|].
    constructor; [right; reflexivity|constructor].
  - rewrite bits_of_pos_app, Forall_app. split; [exact IH|].
    constructor; [left; reflexivity|constructor].
  - constructor; [right; reflexivity|constructor].
Qed.

Lemma bits_of_pos_length (p : positive) :
  2 ^ Z.of_nat (List.length (bits_of_pos p [])) <= 2 * Zpos p.
Proof.
  induction p as [p IH|p IH|]; simpl.
  - rewrite bits_of_pos_app, length_app, Nat2Z.inj_add. simpl List.length.
    rewrite Z.pow_add_r by lia. lia.
  - rewrite bits_of_pos_app, length_app, Nat2Z.inj_add. simpl List.length.
    rewrite Z.pow_add_r by lia. lia.
  - lia.
Qed.

Lemma bits_value_zeros (k : nat) (bits : list Z) :
  bits_value (repeat 0 k ++ bits) = bits_value bits.
Proof.
  unfold bits_value. rewrite fold_left_app. f_equal.
  induction k as [|k IH]; simpl; [reflexivity|exact IH].
Qed.

Lemma sumZ_digits (bits : list Z) :
  Forall is_bit_digit bits -> 0 <= sumZ bits <= len bits.
Proof.
  unfold len. induction 1 as [|b bits Hb _ IH].
  - unfold sumZ. simpl. lia.
  - rewrite sumZ_cons. simpl List.length. destruct Hb; lia.
Qed.

Lemma format_bits_spec (n w : Z) (bits : list Z) :
  0 < w -> 0 <= n < 2 ^ w ->
  format_bits n w = Ok bits ->
  len bits = w /\ Forall is_bit_digit bits /\ bits_value bits = n.
Proof.
  intros Hw Hn H. unfold format_bits in H.
  destruct (w <? 0) eqn:E; [apply Z.ltb_lt in E; lia|].
  injection H as <-. rewrite bits_value_zeros.
  assert (Hd : Forall is_bit_digit (binary_digits n)
               /\ bits_value (binary_digits n) = n
               /\ len (binary_digits n) <= w).
  { destruct n as [|p|p]; simpl.
    - split; [constructor; [left; reflexivity|constructor]|].
      split; [reflexivity|]. unfold len. simpl. lia.
    - split; [apply bits_of_pos_digits|].
      split; [apply bits_of_pos_value|].
      pose proof (bits_of_pos_length p) as Hl. unfold len.
      destruct (Z_le_gt_dec (Z.of_nat (List.length (bits_of_pos p []))) w)
        as [Hle|Hgt]; [exact Hle|].
      assert (2 ^ (w + 1) <= 2 ^ Z.of_nat (List.length (bits_of_pos p [])))
        by (apply Z.pow_le_mono_r; lia).
      rewrite Z.pow_add_r in * by lia. lia.
    - lia. }
  destruct Hd as (Hdig & Hval & Hlen). unfold len in *.
  split; [|split; [|exact Hval]].
  - rewrite length_app, repeat_length. lia.
  - rewrite Forall_app. split; [|exact Hdig].
    apply Forall_forall. intros x Hx. apply repeat_spec in Hx. now left.
Qed.

Section BitFields.

Context {RT : Runtime}.

(** X7: a bit-field row of positive size read at a non-negative offset gives a
    bit vector of eight digits per byte, each 0 or 1, that writes in binary
    the big-endian number of the bytes read; the value of the record is that
    vector, and [bitfields_count] is the number of ones in it. The offset
    and the size are Python ints, or the field lies in a payload shorter
    than 2^60 bytes, so that neither the end of the field nor the number
    of bits wraps around. *)
Theorem bitfield_bit_vector protocol_df payload idx row st st' size :
  decode_field protocol_df payload idx row st = Ok (Some st') ->
  String.prefix "array of " (Row.type row) = false ->
  Row.is_bitfield row = true ->
  resolve_size protocol_df payload idx row st = Ok size ->
  0 <= num_val (offset st) ->
  0 < num_val size ->
  (kind_of (offset st) = ObjectColumn /\ kind_of size = ObjectColumn)
  \/ (num_val (offset st) + num_val size <= len payload
      /\ len payload < 2 ^ 60) ->
  let fsize := num_val size in
  let off := num_val (offset st) in
  exists bits,
    records st'
    = records st
      ++ [Rec.mk (Row.name row) fsize (VList (map SInt bits)) (Row.type row)
                 (FieldKeys (Row.size_field row) (Some (sumZ bits))
                            (Some bits))]
    /\ len bits = 8 * fsize
    /\ Forall is_bit_digit bits
    /\ bits_value bits = from_bytes_big (slice payload off (off + fsize))
    /\ 0 <= sumZ bits <= 8 * fsize.
Proof.
  intros H Harr Hbit Hres Hoff Hpos Hnw fsize off. unfold decode_field in H.
  rewrite Hres in H. cbn [bind] in H. inv_bind H.
  destruct (Z.gtb_spec (num_val x) (len payload)) as [|Hfit];
    [discriminate|].
  rewrite Harr, Hbit in H. inv_bind H. inv_bind H. injection H as <-.
  destruct (arith_spec _ _ _ _ E) as [Hks Hvs].
  destruct (arith_spec _ _ _ _ E0) as [Hkw Hvw].
  cbn [kind_of num_val] in Hkw, Hvw.
  fold fsize off in Hvs, Hvw, Hpos, Hoff, Hnw.
  assert (Hstop : num_val x = off + fsize).
  { rewrite Hvs. destruct Hnw as [[Ho Hf]|[Hin Hlen]].
    - rewrite Hks, Ho, Hf. reflexivity.
    - destruct (kind_of x); cbn [wrap_kind];
        [apply wrap_int64_small|apply wrap_uint64_small|reflexivity]; lia. }
  assert (Hwidth : num_val x0 = fsize * 8).
  { rewrite Hvw. destruct Hnw as [[Ho Hf]|[Hin Hlen]].
    - assert (Hk : kind_of x0 = ObjectColumn).
      { rewrite Hkw. unfold fsize in *. rewrite Hf. reflexivity. }
      rewrite Hk. reflexivity.
    - destruct (kind_of x0); cbn [wrap_kind];
        [apply wrap_int64_small|apply wrap_uint64_small|reflexivity]; lia. }
  rewrite Hstop in *. rewrite Hwidth in *.
  exists x1. split; [reflexivity|].
  pose proof (from_bytes_big_range (slice payload off (off + fsize))) as Hr.
  rewrite slice_len in Hr by lia.
  replace (off + fsize - off) with fsize in Hr by lia.
  replace (256 ^ fsize) with (2 ^ (fsize * 8)) in Hr
    by (rewrite Z.mul_comm, Z.pow_mul_r by lia; reflexivity).
  assert (Hw : 0 < fsize * 8) by lia.
  destruct (format_bits_spec _ _ _ Hw Hr E1) as (Hl & Hd & Hv).
  split; [lia|]. split; [exact Hd|]. split; [exact Hv|].
  pose proof (sumZ_digits _ Hd). lia.
Qed.

End BitFields.

(** ** The series of the endpoints *)

Lemma lower_length (s : string) : String.length (lower s) = String.length s.
Proof. induction s as [|c s IH]; simpl; [reflexivity|now rewrite IH]. Qed.

Lemma prefix_length (p s : string) :
  String.prefix p s = true -> (String.length p <= String.length s)%nat.
Proof.
  revert s. induction p as [|a p IH]; intros s H; simpl; [lia|].
  destruct s as [|b s]; simpl in H; [discriminate|].
  destruct (ascii_dec a b); [|discriminate].
  apply IH in H. simpl. lia.
Qed.

Section Series.

Context {RT : Runtime}.

(** The test of the loop over the packets. *)
Definition on_port_10000 (pkt : packet) : bool :=
  match udp pkt with
  | Some (sport, dport) => (dport =? 10000) || (sport =? 10000)
  | None => false
  end.

(** The endpoint a datagram is filed under: its source when it is sent to
    port 10000, its destination otherwise. *)
Definition endpoint_of (pkt : packet) : option string :=
  match udp pkt, ip pkt with
  | Some (sport, dport), Some (src, dst) =>
      if (dport =? 10000) || (sport =? 10000)
      then Some (if dport =? 10000 then src else dst)
      else None
  | _, _ => None
  end.

(** The record lists of the packets of an endpoint that hold at least one
    record, in the order of the capture. *)
Definition decoded_for (protocol_df : list Row.t) (endpoint : string)
           (packets : list packet) : list (list Rec.t) :=
  flat_map (fun pkt =>
              match endpoint_of pkt with
              | Some e =>
                  if String.eqb e endpoint then
                    match decode_packet protocol_df (payload_of pkt) with
                    | Ok (r :: recs) => [r :: recs]
                    | _ => []
                    end
                  else []
              | None => []
              end) packets.

Definition get_list {V} (k : string) (d : dict (list V)) : list V :=
  match dict_get k d with
  | Some l => l
  | None => []
  end.

(** No endpoint of the series has an empty list of packets. *)
Definition no_empty_entry {V} (d : dict (list V)) : Prop :=
  forall k, dict_get k d <> Some [].

Lemma parse_packet_skip protocol_df data pkt :
  on_port_10000 pkt = false -> parse_packet protocol_df data pkt = Ok data.
Proof.
  unfold on_port_10000, parse_packet. destruct (udp pkt) as [[s d]|]; auto.
  intros ->. reflexivity.
Qed.

Lemma parse_packet_ok protocol_df data pkt data' :
  parse_packet protocol_df data pkt = Ok data' ->
  on_port_10000 pkt = true ->
  exists e recs,
    endpoint_of pkt = Some e
    /\ decode_packet protocol_df (payload_of pkt) = Ok recs
    /\ data' = match recs with
               | [] => data
               | _ :: _ => dict_append e recs data
               end.
Proof.
  unfold parse_packet, on_port_10000, endpoint_of.
  destruct (udp pkt) as [[s d]|]; [|discriminate].
  intros H Hp. rewrite Hp in *. inv_bind H. destruct x as [src dst].
  destruct (ip pkt) as [[src' dst']|]; [|discriminate].
  injection E as -> ->. inv_bind H.
  exists (if d =? 10000 then src else dst), x.
  split; [reflexivity|]. split; [assumption|].
  destruct x; injection H as <-; reflexivity.
Qed.

Lemma get_list_append {V} (k e : string) (x : V) (d : dict (list V)) :
  get_list k (dict_append e x d)
  = get_list k d ++ (if String.eqb e k then [x] else []).
Proof.
  unfold get_list. destruct (String.eqb e k) eqn:E.
  - apply String.eqb_eq in E. subst. rewrite dict_append_get.
    destruct (dict_get k d); reflexivity.
  - apply String.eqb_neq in E. unfold dict_append.
    destruct (dict_get e d); rewrite dict_get_set_other by congruence;
      now rewrite app_nil_r.
Qed.

Lemma no_empty_entry_append {V} (e : string) (x : V) (d : dict (list V)) :
  no_empty_entry d -> no_empty_entry (dict_append e x d).
Proof.
  intros Hd k. destruct (String.eqb e k) eqn:E.
  - apply String.eqb_eq in E. subst. rewrite dict_append_get.
    destruct (dict_get k d) as [[|? ?]|]; discriminate.
  - apply String.eqb_neq in E. unfold dict_append.
    destruct (dict_get e d); rewrite dict_get_set_other by congruence;
      apply Hd.
Qed.

Lemma keys_append_NoDup {V} (e : string) (x : V) (d : dict (list V)) :
  NoDup (keys d) -> NoDup (keys (dict_append e x d)).
Proof.
  intros H. unfold dict_append.
  destruct (dict_get e d); now apply keys_dict_set_NoDup.
Qed.

Lemma parse_packets_series protocol_df data packets data' :
  parse_packets protocol_df data packets = Ok data' ->
  (forall k, get_list k data'
             = get_list k data ++ decoded_for protocol_df k packets)
  /\ (no_empty_entry data -> no_empty_entry data')
  /\ (NoDup (keys data) -> NoDup (keys data'))
  /\ (forall pkt, In pkt packets -> on_port_10000 pkt = true ->
      exists e recs, endpoint_of pkt = Some e
        /\ decode_packet protocol_df (payload_of pkt) = Ok recs).
Proof.
  revert data. induction packets as [|pkt packets IH]; intros data H.
  - simpl in H. injection H as <-. simpl.
    split; [intros k; now rewrite app_nil_r|].
    split; [auto|]. split; [auto|]. intros ? [].
  - simpl in H. inv_bind H. destruct (IH _ H) as (Hg & He & Hk & Hp).
    destruct (on_port_10000 pkt) eqn:Eport.
    + destruct (parse_packet_ok _ _ _ _ E Eport) as (e & recs & Hep & Hd & ->).
      split; [|split; [|split]].
      * intros k. rewrite Hg. cbn [decoded_for flat_map].
        fold (decoded_for protocol_df k packets).
        rewrite Hep, Hd. destruct recs as [|r recs].
        -- destruct (String.eqb e k); reflexivity.
        -- rewrite get_list_append, <- app_assoc. reflexivity.
      * intros Hn. apply He. destruct recs; [assumption|].
        now apply no_empty_entry_append.
      * intros Hn. apply Hk. destruct recs; [assumption|].
        now apply keys_append_NoDup.
      * intros p [<-|Hin] Hport; [eauto|eauto].
    + rewrite parse_packet_skip in E by assumption. injection E as <-.
      split; [|split; [|split]]; try assumption.
      * intros k. rewrite Hg. cbn [decoded_for flat_map].
        fold (decoded_for protocol_df k packets).
        assert (Hnone : endpoint_of pkt = None).
        { unfold endpoint_of, on_port_10000 in *.
          destruct (udp pkt) as [[s d]|]; [|reflexivity].
          rewrite Eport. destruct (ip pkt) as [[? ?]|]; reflexivity. }
        rewrite Hnone. reflexivity.
      * intros p [<-|Hin] Hport; [congruence|eauto].
Qed.

(** X8: packets that are not UDP datagrams from or to port 10000 change
    nothing: the capture parses to what the datagrams on that port alone parse
    to. *)
Theorem other_traffic_ignored packets protocol_df :
  parse_pcap_with_ip packets protocol_df
  = parse_pcap_with_ip (filter on_port_10000 packets) protocol_df.
Proof.
  unfold parse_pcap_with_ip. generalize (@nil (string * list (list Rec.t))).
  induction packets as [|pkt packets IH]; intros data; [reflexivity|].
  simpl. destruct (on_port_10000 pkt) eqn:E; simpl.
  - destruct (parse_packet protocol_df data pkt); simpl; [apply IH|reflexivity].
  - rewrite parse_packet_skip by assumption. simpl. apply IH.
Qed.

Lemma series_entries packets protocol_df data :
  parse_pcap_with_ip packets protocol_df = Ok data ->
  (forall k, get_list k data = decoded_for protocol_df k packets)
  /\ no_empty_entry data.
Proof.
  unfold parse_pcap_with_ip. intros H.
  destruct (parse_packets_series _ _ _ _ H) as (Hg & He & _ & _).
  split; [intros k; exact (Hg k)|apply He; intros k; discriminate].
Qed.

Lemma dict_get_Some_In {V} (k : string) (v : V) (d : dict V) :
  dict_get k d = Some v -> In (k, v) d.
Proof.
  induction d as [|[k' v'] d IH]; [discriminate|]. simpl.
  destruct (String.eqb k k') eqn:E.
  - apply String.eqb_eq in E. subst. intros H. injection H as ->. now left.
  - right. auto.
Qed.

(** X9: the series of an endpoint is the list, in the order of the capture, of
    the record lists of its packets that decoded to at least one record; an
    endpoint none of whose packets gave a record is not a key of the result. *)
Theorem series_of_endpoint packets protocol_df data endpoint :
  parse_pcap_with_ip packets protocol_df = Ok data ->
  dict_get endpoint data
  = match decoded_for protocol_df endpoint packets with
    | [] => None
    | l => Some l
    end.
Proof.
  intros H. destruct (series_entries _ _ _ H) as (Hg & Hn).
  specialize (Hg endpoint). specialize (Hn endpoint).
  unfold get_list in Hg.
  destruct (dict_get endpoint data) as [l|]; rewrite <- Hg.
  - destruct l; [congruence|reflexivity].
  - reflexivity.
Qed.

(** X10: the endpoints of the result are pairwise different, and the result is
    empty exactly when every datagram on port 10000 decoded to no record at
    all. *)
Theorem series_empty_iff packets protocol_df data :
  parse_pcap_with_ip packets protocol_df = Ok data ->
  NoDup (keys data)
  /\ (data = [] <->
      forall pkt, In pkt packets -> on_port_10000 pkt = true ->
                  decode_packet protocol_df (payload_of pkt) = Ok []).
Proof.
  intros H. pose proof H as H0. unfold parse_pcap_with_ip in H0.
  destruct (parse_packets_series _ _ _ _ H0) as (_ & _ & Hk & Hp).
  split; [apply Hk; constructor|]. split.
  - intros -> pkt Hin Hport.
    destruct (Hp pkt Hin Hport) as (e & recs & He & Hd).
    destruct recs as [|r recs]; [assumption|]. exfalso.
    pose proof (proj1 (series_entries _ _ _ H) e) as Hs.
    assert (Hr : In (r :: recs) (decoded_for protocol_df e packets)).
    { unfold decoded_for. apply in_flat_map. exists pkt.
      split; [assumption|]. rewrite He, String.eqb_refl, Hd. now left. }
    rewrite <- Hs in Hr. destruct Hr.
  - intros Hall. destruct data as [|[e l] data]; [reflexivity|]. exfalso.
    destruct (series_entries _ _ _ H) as (Hg & Hn).
    specialize (Hg e). specialize (Hn e).
    unfold get_list in Hg. cbn [dict_get] in Hg, Hn.
    rewrite String.eqb_refl in Hg, Hn.
    destruct l as [|x xs]; [congruence|].
    assert (Hx : In x (decoded_for protocol_df e packets))
      by (rewrite <- Hg; now left).
    unfold decoded_for in Hx. apply in_flat_map in Hx.
    destruct Hx as (pkt & Hin & Hx).
    destruct (endpoint_of pkt) as [e'|] eqn:Ee; [|destruct Hx].
    assert (Hport : on_port_10000 pkt = true).
    { unfold endpoint_of, on_port_10000 in *.
      destruct (udp pkt) as [[s d]|]; [|discriminate].
      destruct (ip pkt) as [[? ?]|]; [|discriminate].
      destruct ((d =? 10000) || (s =? 10000)); [reflexivity|discriminate]. }
    rewrite (Hall pkt Hin Hport) in Hx.
    destruct (String.eqb e' e); destruct Hx.
Qed.

Lemma parse_packets_raise protocol_df data0 before data pkt e after :
  parse_packets protocol_df data0 before = Ok data ->
  parse_packet protocol_df data pkt = Raise e ->
  parse_packets protocol_df data0 (before ++ pkt :: after) = Raise e.
Proof.
  revert data0. induction before as [|p before IH]; intros data0 Hb Hp.
  - simpl in Hb. injection Hb as ->. simpl. now rewrite Hp.
  - simpl in *. inv_bind Hb. rewrite E. simpl. now apply IH.
Qed.

(** X11: nothing is caught around the decoding. A float row of a declared size
    other than 4, or a double row of a size other than 8, stops the whole
    parse with [struct.error] at the first datagram on port 10000 that is long
    enough to hold the row, whatever the packets after it are. The offset
    of the row is a Python int, or the payload is shorter than 2^63 bytes,
    so that the end of the row does not wrap around. *)
Theorem mis_sized_float_stops_parse protocol_df pre row post
        before pkt after data st :
  protocol_df = pre ++ row :: post ->
  (lower (Row.type row) = "float" /\ Row.size row <> 4)
  \/ (lower (Row.type row) = "double" /\ Row.size row <> 8) ->
  Row.is_bitfield row = false ->
  0 < Row.size row ->
  parse_packets protocol_df [] before = Ok data ->
  on_port_10000 pkt = true ->
  ip pkt <> None ->
  decode_rows protocol_df (payload_of pkt) 0 pre dstate0 = Ok (false, st) ->
  0 <= num_val (offset st) ->
  num_val (offset st) + Row.size row <= len (payload_of pkt) ->
  kind_of (offset st) = ObjectColumn \/ len (payload_of pkt) < 2 ^ 63 ->
  parse_pcap_with_ip (before ++ pkt :: after) protocol_df
  = Raise StructError.
Proof.
  intros Hdf Hty Hbf Hsz Hbefore Hport Hip Hpre Hoff Hfit Hnw.
  unfold parse_pcap_with_ip. apply (parse_packets_raise _ _ _ _ _ _ _ Hbefore).
  unfold parse_packet. unfold on_port_10000 in Hport.
  destruct (udp pkt) as [[s d]|]; [|discriminate]. rewrite Hport.
  destruct (ip pkt) as [[src dst]|]; [|congruence]. simpl.
  assert (Hd : decode_packet protocol_df (payload_of pkt) = Raise StructError).
  { unfold decode_packet. rewrite Hdf at 2. rewrite decode_rows_app, Hpre.
    cbn [decode_rows]. unfold decode_field.
    rewrite resolve_size_declared by lia. cbn [bind].
    assert (Hstop : exists stop,
               int_add (offset st) (PyInt (Row.size row)) = Ok stop
               /\ num_val stop = num_val (offset st) + Row.size row).
    { destruct Hnw as [Hk|Hlen].
      - destruct (offset st); try discriminate Hk.
        eexists. split; reflexivity.
      - destruct (arith_small Z.add (offset st) (PyInt (Row.size row)))
          as (c & Hc & Hv & _);
          [right; left; reflexivity|lia|cbn [num_val]; lia
          |cbn [num_val]; lia|].
        exists c. split; [exact Hc|exact Hv]. }
    destruct Hstop as (stop & Hadd & Hv). rewrite Hadd. cbn [bind].
    rewrite Hv.
    destruct (Z.gtb_spec (num_val (offset st) + Row.size row)
                         (len (payload_of pkt)));
      [lia|].
    assert (Harr : String.prefix "array of " (Row.type row) = false).
    { destruct (String.prefix "array of " (Row.type row)) eqn:Ep;
        [|reflexivity].
      apply prefix_length in Ep.
      rewrite <- (lower_length (Row.type row)) in Ep.
      destruct Hty as [[Ht _]|[Ht _]]; rewrite Ht in Ep; simpl in Ep; lia. }
    rewrite Harr, Hbf. unfold decode_scalar, unpack_f, unpack_d.
    rewrite slice_len by lia.
    replace (num_val (offset st) + Row.size row - num_val (offset st))
      with (Row.size row) by lia.
    destruct Hty as [[Ht Hw]|[Ht Hw]]; rewrite Ht;
      cbn [String.eqb Ascii.eqb Bool.eqb];
      apply Z.eqb_neq in Hw; rewrite Hw; reflexivity. }
  rewrite Hd. reflexivity.
Qed.

End Series.

(** * Further properties of the schema compiler *)

Lemma mapM_Forall2 {A B} (f : A -> result B) (l : list A) (r : list B) :
  mapM f l = Ok r -> Forall2 (fun x y => f x = Ok y) l r.
Proof.
  revert r. induction l as [|x l IH]; simpl; intros r H.
  - injection H as <-. constructor.
  - inv_bind H. inv_bind H. injection H as <-. constructor; auto.
Qed.

Lemma sumZ_concat (ls : list (list Z)) :
  sumZ (List.concat ls) = sumZ (map sumZ ls).
Proof.
  induction ls as [|l ls IH]; simpl; [reflexivity|].
  rewrite sumZ_app, sumZ_cons, IH. reflexivity.
Qed.

Lemma sumZ_repeat (x : Z) (k : nat) : sumZ (repeat x k) = Z.of_nat k * x.
Proof.
  induction k as [|k IH]; [reflexivity|].
  cbn [repeat]. rewrite sumZ_cons, IH. lia.
Qed.

Lemma map_const_repeat {A B} (y : B) (l : list A) :
  map (fun _ => y) l = repeat y (List.length l).
Proof. induction l as [|x l IH]; simpl; [reflexivity|now rewrite IH]. Qed.

Lemma string_app_assoc (a b c : string) :
  ((a ++ b) ++ c = a ++ (b ++ c))%string.
Proof. induction a as [|x a IH]; simpl; [reflexivity|now rewrite IH]. Qed.

Section SchemaCompiler.

Context {RT : Runtime}.

(** What a row takes from the tokens of a line that names no custom
    type. *)
Definition row_of_tokens (toks : list string) (r : Row.t) : Prop :=
  Row.name r = nth 0 toks ""
  /\ int_of_str (nth 1 toks "") = Ok (Row.size r)
  /\ (3 <= List.length toks <= 5)%nat
  /\ (List.length toks = 5%nat ->
      lower (nth 2 toks "") = "array"
      /\ Row.type r = ("array of " ++ nth 3 toks "")%string
      /\ int_of_str (nth 4 toks "") = Ok (Row.num_elements r)
      /\ Row.is_bitfield r = false)
  /\ (List.length toks <> 5%nat ->
      Row.type r = nth 2 toks ""
      /\ Row.size_field r = nth 3 toks ""
      /\ Row.num_elements r = 0
      /\ Row.is_bitfield r = is_bit (nth 2 toks "")).

Lemma compile_plain_line toks rows :
  compile_line [] toks = Ok rows ->
  exists r, rows = [r] /\ row_of_tokens toks r.
Proof.
  unfold compile_line, row_of_tokens. intros H.
  destruct toks as [|n [|sz [|t3 [|t4 [|t5 [|t6 toks]]]]]];
    try discriminate; cbn [dict_get] in H.
  - inv_bind H. injection H as <-. eexists. split; [reflexivity|].
    cbn [nth List.length Row.name Row.size Row.type Row.size_field
         Row.num_elements Row.is_bitfield].
    repeat split; try assumption; try lia; intros; try lia; try reflexivity.
  - inv_bind H. injection H as <-. eexists. split; [reflexivity|].
    cbn [nth List.length Row.name Row.size Row.type Row.size_field
         Row.num_elements Row.is_bitfield].
    repeat split; try assumption; try lia; intros; try lia; try reflexivity.
  - destruct (String.eqb (lower t3) "array") eqn:Ea; [|discriminate].
    apply String.eqb_eq in Ea.
    inv_bind H. inv_bind H. injection H as <-.
    eexists. split; [reflexivity|].
    cbn [nth List.length Row.name Row.size Row.type Row.size_field
         Row.num_elements Row.is_bitfield].
    repeat split; try assumption; try lia; intros; try lia; try reflexivity.
    all: exfalso; auto.
Qed.

(** X12: without custom types the schema has one row for each line of the
    description, in the order of the lines, whatever count the first line
    declares: the row has the name and the size of the first two tokens, and
    a line has three, four or five tokens. A line of five tokens, whose
    third token is then [array] in any case, gives a row of the type
    [array of] the fourth token with the count of the fifth; any other line
    gives a row of the type of the third token without a count. *)
Theorem plain_schema_rows header lines rows :
  load_protocol_definitions [] header lines = Ok rows ->
  Forall2 row_of_tokens lines rows.
Proof.
  unfold load_protocol_definitions. intros H.
  inv_bind H. inv_bind H. injection H as <-.
  apply mapM_Forall2 in E0. clear E.
  induction E0 as [|toks g lines groups Hc _ IH]; simpl; [constructor|].
  destruct (compile_plain_line _ _ Hc) as (r & -> & Hr).
  simpl. constructor; assumption.
Qed.

(** X13: an array of a custom type is unrolled into one copy of the fields of
    the type for each element. The line compiles when its size token and
    its count token convert to integers, and raises what the conversion
    raises when one of them does not. Only the count decides how many rows
    there are: the count times the fields of the type, none for a count
    below one, and their sizes add up to the count times the sizes of the
    fields, whatever integer the size token is and whatever the total size
    of the type is. *)
Theorem custom_array_unrolled custom_types n sz arr base ne ct :
  lower arr = "array" ->
  dict_get base custom_types = Some ct ->
  (forall total count,
      int_of_str sz = Ok total ->
      int_of_str ne = Ok count ->
      exists rows,
        compile_line custom_types [n; sz; arr; base; ne] = Ok rows
        /\ List.length rows = (Z.to_nat count * List.length (fields ct))%nat
        /\ sumZ (map Row.size rows)
           = Z.max 0 count * sumZ (map Row.size (fields ct))
        /\ Forall (fun r =>
                     String.prefix (n ++ "[")%string (Row.name r) = true)
                  rows)
  /\ (forall e,
        int_of_str sz = Raise e ->
        compile_line custom_types [n; sz; arr; base; ne] = Raise e)
  /\ (forall total e,
        int_of_str sz = Ok total ->
        int_of_str ne = Raise e ->
        compile_line custom_types [n; sz; arr; base; ne] = Raise e).
Proof.
  intros Ha Hb.
  split; [|split;
            [intros e Hs; unfold compile_line; rewrite Ha, Hb, Hs;
             reflexivity
            |intros total e Hs Hc; unfold compile_line;
             rewrite Ha, Hb, Hs, Hc; reflexivity]].
  intros total count Hs Hc. unfold compile_line.
  rewrite Ha, Hb, Hs, Hc. cbn [String.eqb Ascii.eqb Bool.eqb bind].
  eexists. split; [reflexivity|]. unfold range.
  replace (Z.max 0 count) with (Z.of_nat (Z.to_nat count)) by lia.
  remember (seq 0 (Z.to_nat count)) as l eqn:Hl.
  assert (Hlen : Z.to_nat count = List.length l)
    by (subst l; now rewrite length_seq).
  rewrite Hlen. clear Hl Hlen.
  rewrite flat_map_concat_map, map_map. split; [|split].
  - induction l as [|i l IH]; [reflexivity|].
    cbn [map List.concat]. rewrite length_app, length_map, IH.
    reflexivity.
  - rewrite concat_map, sumZ_concat, !map_map.
    rewrite (map_ext _ (fun _ => sumZ (map Row.size (fields ct)))).
    + rewrite map_const_repeat, sumZ_repeat. reflexivity.
    + intros i. rewrite map_map. reflexivity.
  - apply Forall_concat, Forall_map, Forall_forall. intros i _.
    apply Forall_map, Forall_forall. intros sub _.
    cbn [inline Row.name].
    rewrite string_app_assoc.
    match goal with
    | |- String.prefix _ (n ++ ?t)%string = true =>
        match eval cbn [String.append] in t with
        | String _ ?z =>
            replace (n ++ t)%string with ((n ++ "[") ++ z)%string
              by (rewrite string_app_assoc; reflexivity)
        end
    end.
    apply prefix_append.
Qed.

(** X14: the size field looked up for a field name is the one of the last row
    of that name in the schema, so rows that share a name share the size field
    of the last of them; a blank one counts as none. *)
Theorem size_field_of_last_row protocol_df field_name :
  size_field_of protocol_df field_name
  = match find (fun r => String.eqb (Row.name r) field_name)
               (rev protocol_df) with
    | Some r => if blank (Row.size_field r) then None
                else Some (Row.size_field r)
    | None => None
    end.
Proof.
  unfold size_field_of, protocol_mapping.
  assert (Hgen : forall d,
    dict_get field_name
      (fold_left (fun d r => dict_set (Row.name r) (Row.size_field r) d)
                 protocol_df d)
    = match find (fun r => String.eqb (Row.name r) field_name)
                 (rev protocol_df) with
      | Some r => Some (Row.size_field r)
      | None => dict_get field_name d
      end).
  { induction protocol_df as [|r df IH] using rev_ind; intros d.
    - reflexivity.
    - rewrite fold_left_app, rev_app_distr. cbn [fold_left rev app find].
      destruct (String.eqb (Row.name r) field_name) eqn:E.
      + apply String.eqb_eq in E. subst. apply dict_get_set_same.
      + apply String.eqb_neq in E.
        rewrite dict_get_set_other by congruence. apply IH. }
  rewrite Hgen. destruct (find _ _); reflexivity.
Qed.

End SchemaCompiler.

(** * Custom types: [load_custom_types] *)

(** The documents of the collection. An entry that a document may lack is
    an option. The entries [name], [type] and [arrayType] hold strings
    (of ASCII letters where [lower] is applied), and the entries handed
    to [int] hold a number, a string or a boolean. *)

Module FieldDoc.
Record t : Type := mk {
  name : option string;
  size : option value;
  type : option string;
  arrayType : option string;
  arrayCount : option value
}.
End FieldDoc.

Module TypeDoc.
Record t : Type := mk {
  name : option string;
  totalSize : option value;
  fields : option (list FieldDoc.t)
}.
End TypeDoc.

Section CustomTypes.

Context {RT : Runtime}.

(** The body of the loop over the fields of a document. *)
Definition field_row (f : FieldDoc.t) : result Row.t :=
  fname <- of_option KeyError (FieldDoc.name f) ;;
  sz <- of_option KeyError (FieldDoc.size f) ;;
  fsize <- py_int sz ;;
  t <- of_option KeyError (FieldDoc.type f) ;;
  let ftype := lower t in
  if String.eqb ftype "array" then
    base <- of_option KeyError (FieldDoc.arrayType f) ;;
    c <- of_option KeyError (FieldDoc.arrayCount f) ;;
    ne <- py_int c ;;
    Ok (Row.mk fname fsize ("array of " ++ base) "" ne false)
  else if String.eqb ftype "bitfield" || String.eqb ftype "bit" then
    Ok (Row.mk fname fsize "bitfield" "" 0 true)
  else Ok (Row.mk fname fsize ftype "" 0 false).

(** The body of the loop over the documents. *)
Definition type_entry (acc : dict custom_type) (doc : TypeDoc.t)
  : result (dict custom_type) :=
  type_name <- of_option KeyError (TypeDoc.name doc) ;;
  total <- py_int (match TypeDoc.totalSize doc with
                   | Some v => v
                   | None => VScalar (SInt 0)
                   end) ;;
  subs <- mapM field_row (match TypeDoc.fields doc with
                          | Some l => l
                          | None => []
                          end) ;;
  Ok (dict_set type_name {| fields := subs; total_size := total |} acc).

Fixpoint load_types (acc : dict custom_type) (docs : list TypeDoc.t)
  : result (dict custom_type) :=
  match docs with
  | [] => Ok acc
  | doc :: rest =>
      acc' <- type_entry acc doc ;;
      load_types acc' rest
  end.

Definition load_custom_types (docs : list TypeDoc.t)
  : result (dict custom_type) :=
  load_types [] docs.

(** What holds of every field of a custom type: it has no size field, it
    is a bit field exactly when its type is [bitfield], and it has a count
    of elements only as an array that is no bit field. *)
Definition sub_field_ok (r : Row.t) : Prop :=
  Row.size_field r = ""
  /\ (Row.is_bitfield r = true <-> Row.type r = "bitfield")
  /\ (Row.num_elements r <> 0 ->
      String.prefix "array of " (Row.type r) = true
      /\ Row.is_bitfield r = false).

Definition is_named (typ : string) (doc : TypeDoc.t) : bool :=
  match TypeDoc.name doc with
  | Some n => String.eqb n typ
  | None => false
  end.

Lemma field_row_ok f r : field_row f = Ok r -> sub_field_ok r.
Proof.
  unfold field_row, sub_field_ok. intros H.
  inv_bind H. inv_bind H. inv_bind H. inv_bind H.
  destruct (String.eqb (lower x2) "array") eqn:Ea.
  - inv_bind H. inv_bind H. inv_bind H. injection H as <-.
    cbn [Row.size_field Row.is_bitfield Row.type Row.num_elements].
    split; [reflexivity|]. split; [split; discriminate|].
    intros _. split; [apply (prefix_append "array of ")|reflexivity].
  - destruct (String.eqb (lower x2) "bitfield" || String.eqb (lower x2) "bit")
      eqn:Eb; injection H as <-;
      cbn [Row.size_field Row.is_bitfield Row.type Row.num_elements].
    + split; [reflexivity|]. split; [tauto|]. intros Hne. now elim Hne.
    + split; [reflexivity|]. split.
      * split; [discriminate|]. intros Ht. rewrite Ht in Eb. discriminate.
      * intros Hne. now elim Hne.
Qed.

Lemma load_types_get acc docs cts typ :
  load_types acc docs = Ok cts ->
  match find (is_named typ) (rev docs) with
  | Some doc =>
      exists ct,
        dict_get typ cts = Some ct
        /\ py_int (match TypeDoc.totalSize doc with
                   | Some v => v
                   | None => VScalar (SInt 0)
                   end) = Ok (total_size ct)
        /\ mapM field_row (match TypeDoc.fields doc with
                           | Some l => l
                           | None => []
                           end) = Ok (fields ct)
  | None => dict_get typ cts = dict_get typ acc
  end.
Proof.
  revert acc cts. induction docs as [|doc docs IH] using rev_ind;
    intros acc cts H.
  - simpl in H. injection H as <-. reflexivity.
  - assert (Happ : forall a l1 l2,
               load_types a (l1 ++ l2)
               = (a' <- load_types a l1 ;; load_types a' l2)).
    { intros a l1. revert a. induction l1 as [|d l1 IHl]; intros a l2;
        simpl; [reflexivity|].
      destruct (type_entry a d); simpl; [apply IHl|reflexivity]. }
    rewrite Happ in H. inv_bind H. cbn [load_types] in H. inv_bind H.
    injection H as <-. specialize (IH _ _ E).
    rewrite rev_app_distr. cbn [rev app find].
    unfold type_entry in E0. inv_bind E0. inv_bind E0. inv_bind E0.
    injection E0 as <-. unfold is_named at 1.
    destruct (TypeDoc.name doc) as [n|]; [|discriminate].
    injection E1 as <-.
    destruct (String.eqb n typ) eqn:En.
    + apply String.eqb_eq in En. subst n.
      eexists. rewrite dict_get_set_same. split; [reflexivity|].
      split; assumption.
    + apply String.eqb_neq in En.
      destruct (find (is_named typ) (rev docs)) as [d|].
      * destruct IH as (ct & Hg & Ht & Hf). exists ct.
        rewrite dict_get_set_other by congruence. auto.
      * rewrite dict_get_set_other by congruence. exact IH.
Qed.

(** X15: when two documents define a type of the same name the last one is the
    definition: a name is a custom type exactly when a document has it, and
    its fields and total size are then those of the last such document. *)
Theorem last_type_definition_wins docs cts typ :
  load_custom_types docs = Ok cts ->
  match find (is_named typ) (rev docs) with
  | Some doc =>
      exists ct,
        dict_get typ cts = Some ct
        /\ py_int (match TypeDoc.totalSize doc with
                   | Some v => v
                   | None => VScalar (SInt 0)
                   end) = Ok (total_size ct)
        /\ mapM field_row (match TypeDoc.fields doc with
                           | Some l => l
                           | None => []
                           end) = Ok (fields ct)
  | None => dict_get typ cts = None
  end.
Proof.
  intros H. apply (load_types_get _ _ _ typ) in H.
  destruct (find (is_named typ) (rev docs)); exact H.
Qed.

(** X16: a line that names a custom type is replaced by the fields of the
    type, one row each with the sizes of the type, under the name of the line;
    the size token of the line is never read. None of these rows has a size
    field, so one of size 0 always takes the bytes that the later rows leave,
    and a row is a bit field exactly when its type is [bitfield]. *)
Theorem custom_type_inlined docs cts n sz typ ct :
  load_custom_types docs = Ok cts ->
  dict_get typ cts = Some ct ->
  exists rows,
    compile_line cts [n; sz; typ] = Ok rows
    /\ map Row.size rows = map Row.size (fields ct)
    /\ Forall sub_field_ok rows
    /\ Forall (fun r => String.prefix (n ++ ".")%string (Row.name r) = true)
              rows.
Proof.
  intros H Hg. unfold compile_line. rewrite Hg.
  eexists. split; [reflexivity|].
  assert (Hok : Forall sub_field_ok (fields ct)).
  { pose proof (last_type_get := load_types_get _ _ _ typ H).
    destruct (find (is_named typ) (rev docs)) as [doc|].
    - destruct last_type_get as (ct' & Hg' & _ & Hf).
      rewrite Hg in Hg'. injection Hg' as <-.
      apply mapM_Forall2 in Hf. clear -Hf.
      induction Hf as [|f r l rs Hr _ IH]; constructor;
        [exact (field_row_ok _ _ Hr)|exact IH].
    - rewrite Hg in last_type_get. discriminate. }
  split; [|split].
  - rewrite map_map. reflexivity.
  - apply Forall_map. revert Hok. apply Forall_impl. intros r Hr. exact Hr.
  - apply Forall_map, Forall_forall. intros sub _. cbn [inline Row.name].
    change (n ++ "." ++ Row.name sub)%string
      with (n ++ ("." ++ Row.name sub))%string.
    rewrite <- string_app_assoc. apply prefix_append.
Qed.

End CustomTypes.

(** * Further properties of the synthesizer *)

Lemma take_values_in {A} (values : list A) (indices : list nat)
      (s : list A) :
  take values indices = Ok s -> forall x, In x s -> In x values.
Proof.
  unfold take. intros H. apply mapM_Forall2 in H.
  induction H as [|i y l r Hy _ IH]; intros x Hx; [destruct Hx|].
  destruct Hx as [<-|Hx]; [|auto].
  destruct (nth_error values i) eqn:E; [|discriminate].
  injection Hy as <-. eapply nth_error_In, E.
Qed.

Lemma take_in_range {A} (values : list A) (indices : list nat) :
  (forall i, In i indices -> (i < List.length values)%nat) ->
  exists s, take values indices = Ok s
            /\ List.length s = List.length indices.
Proof.
  intros Hr. destruct (mapM_total
    (fun i => of_option IndexError (nth_error values i)) indices) as [s Hs].
  - intros i Hi. specialize (Hr i Hi).
    destruct (nth_error values i) eqn:E; [simpl; eauto|].
    apply nth_error_None in E. lia.
  - exists s. split; [exact Hs|]. now apply mapM_length in Hs.
Qed.

Section Grouping.

Context {RT : Runtime}.

Lemma group_records_spec (recs : list Rec.t) (acc : dict (list Rec.t)) :
  let fs := fold_left
              (fun fs field => dict_append (Rec.field_name field) field fs)
              recs acc in
  (forall k, get_list k fs
             = get_list k acc
               ++ filter (fun r => String.eqb (Rec.field_name r) k) recs)
  /\ (no_empty_entry acc -> no_empty_entry fs)
  /\ (NoDup (keys acc) -> NoDup (keys fs)).
Proof.
  revert acc. induction recs as [|r recs IH]; intros acc; cbn [fold_left].
  - split; [intros k; simpl; now rewrite app_nil_r|]. split; auto.
  - destruct (IH (dict_append (Rec.field_name r) r acc)) as (Hg & He & Hk).
    split; [|split].
    + intros k. rewrite Hg, get_list_append, <- app_assoc. f_equal.
      cbn [filter]. destruct (String.eqb (Rec.field_name r) k); reflexivity.
    + intros Hn. apply He. now apply no_empty_entry_append.
    + intros Hn. apply Hk. now apply keys_append_NoDup.
Qed.

Lemma group_fields_concat (packets : list (list Rec.t)) :
  group_fields packets
  = fold_left (fun fs field => dict_append (Rec.field_name field) field fs)
              (List.concat packets) [].
Proof.
  unfold group_fields. generalize (@nil (string * list Rec.t)).
  induction packets as [|p packets IH]; intros acc; simpl; [reflexivity|].
  rewrite fold_left_app. apply IH.
Qed.

(** X17: the occurrences of a field at an endpoint are all the records of that
    name in all the packets of the endpoint, in the order they were decoded; a
    name without any record is not a key, so no field has an empty list of
    occurrences, and no name is a key twice. *)
Theorem occurrences_of_field packets field_name :
  dict_get field_name (group_fields packets)
  = match filter (fun r => String.eqb (Rec.field_name r) field_name)
                 (List.concat packets) with
    | [] => None
    | l => Some l
    end
  /\ NoDup (keys (group_fields packets)).
Proof.
  rewrite group_fields_concat.
  destruct (group_records_spec (List.concat packets) []) as (Hg & He & Hk).
  split; [|apply Hk; constructor].
  specialize (Hg field_name). unfold get_list in Hg. simpl in Hg.
  assert (Hn : dict_get field_name
                 (fold_left (fun fs field =>
                               dict_append (Rec.field_name field) field fs)
                            (List.concat packets) []) <> Some [])
    by (apply He; intros k; discriminate).
  destruct (dict_get field_name _) as [l|]; rewrite <- Hg.
  - destruct l; [congruence|reflexivity].
  - reflexivity.
Qed.

Lemma generate_endpoints_spec protocol_df endpoints acc res :
  generate_endpoints protocol_df endpoints acc = Ok res ->
  NoDup (keys endpoints) ->
  (forall k, ~ In k (keys endpoints) -> dict_get k res = dict_get k acc)
  /\ forall k packets,
      In (k, packets) endpoints ->
      exists d, endpoint_dpi protocol_df packets = Ok d
                /\ dict_get k res = Some d.
Proof.
  revert acc. induction endpoints as [|[e pk] endpoints IH];
    intros acc H Hnd.
  - simpl in H. injection H as <-. split; [reflexivity|]. intros ? ? [].
  - cbn [generate_endpoints] in H. inv_bind H.
    inversion Hnd as [|? ? He Hnd']; subst.
    destruct (IH _ H Hnd') as (Hout & Hin). split.
    + intros k Hk. simpl in Hk. rewrite Hout by tauto.
      apply dict_get_set_other. intros ->. tauto.
    + intros k packets [Heq|Hk].
      * injection Heq as <- <-. exists x. split; [assumption|].
        rewrite Hout by assumption. apply dict_get_set_same.
      * now apply Hin.
Qed.

(** X18: the result of a capture has an entry for exactly the endpoints that
    sent at least one packet with a decoded record, and the entry of an
    endpoint is computed from the records of its own packets alone. *)
Theorem endpoint_result_from_own_packets packets protocol_df data res
        endpoint :
  parse_pcap_with_ip packets protocol_df = Ok data ->
  generate_dpi protocol_df data = Ok res ->
  match decoded_for protocol_df endpoint packets with
  | [] => dict_get endpoint res = None
  | own =>
      exists d, endpoint_dpi protocol_df own = Ok d
                /\ dict_get endpoint res = Some d
  end.
Proof.
  intros Hp Hg. destruct (series_entries _ _ _ Hp) as (Hs & Hn).
  specialize (Hs endpoint). specialize (Hn endpoint).
  unfold get_list in Hs.
  destruct (parse_packets_series _ _ _ _ Hp) as (_ & _ & Hk & _).
  specialize (Hk (NoDup_nil _)).
  destruct (generate_endpoints_spec _ _ _ _ Hg Hk) as (Hout & Hin).
  destruct (decoded_for protocol_df endpoint packets) as [|r own].
  - rewrite Hout; [reflexivity|]. intros Hmem.
    apply dict_mem_In in Hmem. unfold dict_mem in Hmem.
    destruct (dict_get endpoint data) as [l|]; [|discriminate].
    subst l. congruence.
  - apply Hin, dict_get_Some_In.
    destruct (dict_get endpoint data) as [l|]; [|discriminate].
    now subst l.
Qed.

End Grouping.

(** ** The shape of a segmentation *)

Arguments axis_of {RT A} T values ax.

Section SegmentShape.

Context {RT : Runtime}.

(** What holds of the index list of every segment: it is not empty, it
    names occurrences of the field, each at most once, and at least half
    of them. *)
Definition segment_ok (stats : list Rec.t) (indices : list nat) : Prop :=
  indices <> []
  /\ NoDup indices
  /\ (forall i, In i indices -> (i < List.length stats)%nat)
  /\ (List.length stats <= 2 * List.length indices)%nat.

Lemma all_indices_ok (stats : list Rec.t) :
  stats <> [] -> segment_ok stats (all_indices stats).
Proof.
  intros Hne. unfold segment_ok, all_indices.
  split; [destruct stats; [congruence|discriminate]|].
  split; [apply seq_NoDup|]. split.
  - intros i Hi. apply in_seq in Hi. lia.
  - rewrite length_seq. lia.
Qed.

Lemma segment_values_shape {A} (T : dtype A) (values : list A) (ax : axis)
      (stats : list Rec.t) (seg_dict : dict (list nat)) :
  axis_of T values ax ->
  List.length values = List.length stats ->
  segment_values T values stats = Ok seg_dict ->
  seg_dict = [("100%", all_indices stats)]
  \/ exists label main_indices,
      label <> "100%"
      /\ seg_dict = [(label, main_indices); ("100%", all_indices stats)]
      /\ segment_ok stats main_indices.
Proof.
  intros Hax Hlen H. unfold segment_values in H.
  destruct (len values <? 2) eqn:E2; [injection H as <-; now left|].
  apply Z.ltb_ge in E2. unfold len in E2.
  inv_bind H. inv_bind H. inv_bind H.
  destruct (is_zero T _); [injection H as <-; now left|].
  inv_bind H. inv_bind H.
  destruct (gap_small T _ _); [injection H as <-; now left|].
  pose proof (split_groups_perm (argsort T values) x2) as Hperm.
  pose proof (proj1 (split_groups_main (argsort T values) x2)) as Hmain.
  destruct (split_groups (argsort T values) x2) as [main outliers].
  cbn [fst snd] in Hperm, Hmain.
  inv_bind H.
  assert (Hsd : seg_dict = dict_set "100%" (all_indices stats)
                                    [(label_of x4, main)]).
  { change [(label_of x4, main)] with (dict_set (label_of x4) main []).
    congruence. }
  clear H.
  assert (Hd : forall (k k' : string) (v v' : list nat),
             dict_set k v [(k', v')]
             = if String.eqb k k' then [(k, v)] else [(k', v'); (k, v)])
    by reflexivity.
  rewrite Hd in Hsd.
  destruct (String.eqb "100%" (label_of x4)) eqn:El.
  - left. exact Hsd.
  - right. exists (label_of x4), main.
    apply String.eqb_neq in El.
    split; [congruence|]. split; [exact Hsd|].
    pose proof (axis_of_perm T values ax Hax) as Hp.
    assert (Hall : Permutation (main ++ outliers)
                               (seq 0 (List.length stats))).
    { rewrite Hperm, Hp, Hlen. reflexivity. }
    pose proof (Permutation_length Hall) as Hl.
    rewrite length_app, length_seq in Hl.
    unfold segment_ok. split; [|split; [|split]].
    + destruct main; [simpl in *; lia|discriminate].
    + apply (NoDup_app_remove_r _ outliers).
      apply (Permutation_NoDup (Permutation_sym Hall)), seq_NoDup.
    + intros i Hi.
      assert (Hin : In i (seq 0 (List.length stats))).
      { apply (Permutation_in _ Hall), in_or_app. now left. }
      apply in_seq in Hin. lia.
    + lia.
Qed.

(** X19: whatever the values are, a segmentation has at most two segments, one
    of them ["100%"] with every occurrence; each segment names at least one
    occurrence and at least half of them, none twice and none out of range, so
    the occurrences of every segment can be taken and are not empty. *)
Theorem segments_are_well_formed stats seg_dict :
  segment_stats stats = Ok seg_dict ->
  dict_get "100%" seg_dict = Some (all_indices stats)
  /\ (List.length seg_dict <= 2)%nat
  /\ forall label indices,
      In (label, indices) seg_dict ->
      segment_ok stats indices
      /\ exists alt_stats,
          take stats indices = Ok alt_stats /\ alt_stats <> [].
Proof.
  unfold segment_stats. intros H. inv_bind H.
  assert (Hne : stats <> []).
  { unfold clustering_axis in E. destruct stats; [discriminate|discriminate]. }
  pose proof (clustering_axis_length _ _ E) as Hlen.
  assert (Hshape :
    seg_dict = [("100%", all_indices stats)]
    \/ exists label main_indices,
        label <> "100%"
        /\ seg_dict = [(label, main_indices); ("100%", all_indices stats)]
        /\ segment_ok stats main_indices).
  { destruct x as [values|values].
    - exact (segment_values_shape int64 values _ stats _
               (axis_int values) Hlen H).
    - exact (segment_values_shape float64 values _ stats _
               (axis_float values) Hlen H). }
  assert (Htake : forall indices, segment_ok stats indices ->
            exists alt_stats,
              take stats indices = Ok alt_stats /\ alt_stats <> []).
  { intros indices (Hn & _ & Hr & _).
    destruct (take_in_range stats indices Hr) as (s & Hs & Hl).
    exists s. split; [exact Hs|].
    destruct s; [|discriminate]. destruct indices; [congruence|discriminate]. }
  pose proof (all_indices_ok stats Hne) as Hall.
  destruct Hshape as [->|(label & main & Hl & -> & Hm)].
  - split; [reflexivity|]. split; [simpl; lia|].
    intros l i [Heq|[]]. injection Heq as <- <-. auto.
  - split.
    + cbn [dict_get]. apply String.eqb_neq in Hl.
      rewrite String.eqb_sym, Hl. reflexivity.
    + split; [simpl; lia|].
      intros l i [Heq|[Heq|[]]]; injection Heq as <- <-; auto.
Qed.

(** X20: a field whose first occurrence has no numeric type and whose
    occurrences all have the same size is never split: its only segment is
    ["100%"], and the segmentation does not fail. *)
Theorem constant_size_not_split stats first size :
  hd_error stats = Some first ->
  mem (lower (Rec.field_type first)) ["int"; "float"; "double"; "long"]
  = false ->
  (forall s, In s stats -> Rec.size s = size) ->
  segment_stats stats = Ok [("100%", all_indices stats)].
Proof.
  intros Hhd Hty Hsz. unfold segment_stats, clustering_axis.
  rewrite Hhd. cbn [of_option bind]. rewrite Hty. cbn [bind].
  unfold segment_values.
  destruct (len (sizes_of stats) <? 2) eqn:E2; [reflexivity|].
  apply Z.ltb_ge in E2. unfold len in E2.
  cbn [argsort int64].
  destruct (take_perm (sizes_of stats) (argsort_int (sizes_of stats))
              (argsort_int_perm _)) as (sorted & Hs & Hl).
  rewrite Hs. cbn [bind].
  assert (Hc : forall x, In x sorted -> x = size).
  { intros x Hx. apply (take_values_in _ _ _ Hs) in Hx.
    unfold sizes_of in Hx. apply in_map_iff in Hx.
    destruct Hx as (s & <- & Hin). now apply Hsz. }
  destruct sorted as [|a sorted]; [simpl in Hl; lia|].
  cbn [hd_error of_option bind].
  destruct (hd_error (rev (a :: sorted))) as [b|] eqn:Er.
  - cbn [of_option bind minus is_zero].
    assert (Hb : In b (a :: sorted)).
    { apply in_rev. destruct (rev (a :: sorted)); [discriminate|].
      injection Er as ->. now left. }
    rewrite (Hc a (or_introl eq_refl)), (Hc b Hb).
    change (minus int64 size size) with (wrap_int64 (size - size)).
    rewrite Z.sub_diag. reflexivity.
  - exfalso. destruct (rev (a :: sorted)) eqn:Erev; [|discriminate].
    apply (f_equal (@List.length Z)) in Erev.
    rewrite length_rev in Erev. discriminate.
Qed.

End SegmentShape.

(** ** The observed sizes *)

Lemma shr_1_nonneg (mrs : shr_record) :
  0 <= shr_m mrs -> 0 <= shr_m (shr_1 mrs).
Proof.
  destruct mrs as [m r s]. simpl. intros H.
  destruct m as [|[p|p|]|p]; simpl; lia.
Qed.

Lemma iter_shr_1_nonneg (p : positive) (mrs : shr_record) :
  0 <= shr_m mrs -> 0 <= shr_m (iter_pos shr_1 p mrs).
Proof.
  revert mrs. induction p as [p IH|p IH|]; intros mrs H; simpl.
  - apply IH, IH, shr_1_nonneg, H.
  - apply IH, IH, H.
  - apply shr_1_nonneg, H.
Qed.

Lemma shr_fexp_nonneg (prec emax m e : Z) (l : location) :
  0 <= m -> 0 <= shr_m (fst (shr_fexp prec emax m e l)).
Proof.
  intros H. unfold shr_fexp, shr.
  assert (H0 : 0 <= shr_m (shr_record_of_loc m l))
    by (destruct l as [|[]]; exact H).
  destruct (_ - _); simpl; [exact H0| |exact H0].
  now apply iter_shr_1_nonneg.
Qed.

Lemma binary_round_aux_not_nan (prec emax : Z) (sx : bool) (mx ex : Z)
      (lx : location) :
  0 <= mx ->
  PyFloat.is_nan (binary_round_aux prec emax sx mx ex lx) = false.
Proof.
  intros H. unfold binary_round_aux.
  pose proof (shr_fexp_nonneg prec emax mx ex lx H) as H1.
  destruct (shr_fexp prec emax mx ex lx) as [mrs' e']. simpl in H1.
  assert (H2 : 0 <= round_nearest_even (shr_m mrs')
                                       (loc_of_shr_record mrs')).
  { unfold round_nearest_even. destruct (loc_of_shr_record mrs') as [|[]];
      try destruct (Z.even _); lia. }
  pose proof (shr_fexp_nonneg prec emax _ e' loc_Exact H2) as H3.
  destruct (shr_fexp prec emax _ _ _) as [mrs'' e'']. simpl in H3.
  destruct (shr_m mrs''); try reflexivity; [|lia].
  destruct (_ <=? _); reflexivity.
Qed.

(** The float of an int is a number. *)
Lemma of_Z_not_nan (n : Z) : PyFloat.is_nan (PyFloat.of_Z n) = false.
Proof.
  unfold PyFloat.of_Z, binary_normalize. destruct n; try reflexivity;
    unfold binary_round; destruct (shl_align _ _ _);
    apply binary_round_aux_not_nan; lia.
Qed.

Lemma leb_np_le (x y : float) :
  PyFloat.is_nan x = false -> PyFloat.is_nan y = false ->
  PyFloat.leb x y = np_le x y.
Proof. unfold np_le. intros -> ->. reflexivity. Qed.

Lemma leb_refl (x : float) :
  PyFloat.is_nan x = false -> PyFloat.leb x x = true.
Proof.
  intros Hx. rewrite leb_np_le by assumption.
  destruct (np_le_total x x); assumption.
Qed.

(** Two numbers are in strict order, or the second is at most the first. *)
Lemma ltb_cases (x z : float) :
  PyFloat.is_nan x = false -> PyFloat.is_nan z = false ->
  if PyFloat.ltb x z then PyFloat.leb x z = true
  else PyFloat.leb z x = true.
Proof.
  unfold PyFloat.ltb, PyFloat.leb, SFltb, SFleb.
  rewrite (SFcompare_antisym x z).
  destruct x as [sx|sx| |sx mx ex], z as [sz|sz| |sz mz ez];
    try discriminate; intros _ _;
    destruct (SFcompare _ _) as [[ | | ]|] eqn:E; simpl; auto;
    simpl in E; discriminate E.
Qed.

Lemma np_min_spec (x : float) (a : list float) :
  (forall y, In y (x :: a) -> PyFloat.is_nan y = false) ->
  In (np_min (x :: a)) (x :: a)
  /\ forall y, In y (x :: a) -> PyFloat.leb (np_min (x :: a)) y = true.
Proof.
  cbn [np_min]. revert x. induction a as [|z a IH]; intros x Hn.
  - cbn [fold_left]. split; [now left|]. intros y [<-|[]].
    rewrite leb_np_le by (apply Hn; now left).
    destruct (np_le_total x x); assumption.
  - cbn [fold_left]. rewrite (Hn x (or_introl eq_refl)), Bool.orb_false_r.
    set (x' := if PyFloat.ltb x z then x else z).
    assert (Hx' : x' = x \/ x' = z)
      by (unfold x'; destruct (PyFloat.ltb x z); auto).
    assert (Hn' : forall y, In y (x' :: a) -> PyFloat.is_nan y = false).
    { intros y [<-|Hy]; [|apply Hn; simpl; auto].
      destruct Hx' as [->| ->]; apply Hn; simpl; auto. }
    destruct (IH x' Hn') as (Hin & Hle). split.
    + destruct Hin as [<-|Hin]; [|simpl; auto].
      destruct Hx' as [->| ->]; simpl; auto.
    + assert (Hr : PyFloat.is_nan
                     (fold_left (fun io1 in2 =>
                        if PyFloat.ltb io1 in2 || PyFloat.is_nan io1
                        then io1 else in2) a x') = false)
        by (apply Hn'; exact Hin).
      assert (Hxz : PyFloat.leb x' x = true /\ PyFloat.leb x' z = true).
      { pose proof (ltb_cases x z (Hn x (or_introl eq_refl))
                                (Hn z (or_intror (or_introl eq_refl)))) as Hc.
        unfold x'. destruct (PyFloat.ltb x z).
        - split; [|exact Hc]. apply leb_refl. apply Hn. now left.
        - split; [exact Hc|]. apply leb_refl. apply Hn. simpl. auto. }
      pose proof (Hle x' (or_introl eq_refl)) as Hrx'.
      assert (Hnx' : PyFloat.is_nan x' = false)
        by (apply Hn'; now left).
      intros y [<-|[<-|Hy]]; [| |apply Hle; simpl; auto].
      * rewrite leb_np_le by (assumption || apply Hn; simpl; auto).
        apply (np_le_trans _ x'); rewrite <- leb_np_le;
          try assumption; try (apply Hn; simpl; auto); tauto.
      * rewrite leb_np_le by (assumption || apply Hn; simpl; auto).
        apply (np_le_trans _ x'); rewrite <- leb_np_le;
          try assumption; try (apply Hn; simpl; auto); tauto.
Qed.

Lemma np_max_spec (x : float) (a : list float) :
  (forall y, In y (x :: a) -> PyFloat.is_nan y = false) ->
  In (np_max (x :: a)) (x :: a)
  /\ forall y, In y (x :: a) -> PyFloat.leb y (np_max (x :: a)) = true.
Proof.
  cbn [np_max]. revert x. induction a as [|z a IH]; intros x Hn.
  - cbn [fold_left]. split; [now left|]. intros y [<-|[]].
    rewrite leb_np_le by (apply Hn; now left).
    destruct (np_le_total x x); assumption.
  - cbn [fold_left]. rewrite (Hn x (or_introl eq_refl)), Bool.orb_false_r.
    set (x' := if PyFloat.ltb z x then x else z).
    assert (Hx' : x' = x \/ x' = z)
      by (unfold x'; destruct (PyFloat.ltb z x); auto).
    assert (Hn' : forall y, In y (x' :: a) -> PyFloat.is_nan y = false).
    { intros y [<-|Hy]; [|apply Hn; simpl; auto].
      destruct Hx' as [->| ->]; apply Hn; simpl; auto. }
    destruct (IH x' Hn') as (Hin & Hle). split.
    + destruct Hin as [<-|Hin]; [|simpl; auto].
      destruct Hx' as [->| ->]; simpl; auto.
    + assert (Hr : PyFloat.is_nan
                     (fold_left (fun io1 in2 =>
                        if PyFloat.ltb in2 io1 || PyFloat.is_nan io1
                        then io1 else in2) a x') = false)
        by (apply Hn'; exact Hin).
      assert (Hxz : PyFloat.leb x x' = true /\ PyFloat.leb z x' = true).
      { pose proof (ltb_cases z x (Hn z (or_intror (or_introl eq_refl)))
                                (Hn x (or_introl eq_refl))) as Hc.
        unfold x'. destruct (PyFloat.ltb z x).
        - split; [|exact Hc]. apply leb_refl. apply Hn. now left.
        - split; [exact Hc|]. apply leb_refl. apply Hn. simpl. auto. }
      pose proof (Hle x' (or_introl eq_refl)) as Hrx'.
      assert (Hnx' : PyFloat.is_nan x' = false)
        by (apply Hn'; now left).
      intros y [<-|[<-|Hy]]; [| |apply Hle; simpl; auto].
      * rewrite leb_np_le by (assumption || apply Hn; simpl; auto).
        apply (np_le_trans _ x'); rewrite <- leb_np_le;
          try assumption; try (apply Hn; simpl; auto); tauto.
      * rewrite leb_np_le by (assumption || apply Hn; simpl; auto).
        apply (np_le_trans _ x'); rewrite <- leb_np_le;
          try assumption; try (apply Hn; simpl; auto); tauto.
Qed.

Section ObservedSizes.

Context {RT : Runtime}.

(** X21: the observed minimum and maximum size of a segment are the sizes of
    two of its occurrences, and the size of every occurrence lies between
    them; the count is the number of occurrences. *)
Theorem observed_sizes_bound_all stats features :
  extract_aggregated_features stats = Ok features ->
  stats <> [] ->
  Feat.count features = PyFloat.of_Z (len stats)
  /\ (exists s, In s stats
                /\ Feat.min_size features = PyFloat.of_Z (Rec.size s))
  /\ (exists s, In s stats
                /\ Feat.max_size features = PyFloat.of_Z (Rec.size s))
  /\ forall s, In s stats ->
      PyFloat.leb (Feat.min_size features) (PyFloat.of_Z (Rec.size s)) = true
      /\ PyFloat.leb (PyFloat.of_Z (Rec.size s)) (Feat.max_size features)
         = true.
Proof.
  unfold extract_aggregated_features. intros H Hne. inv_bind H.
  injection H as <-. cbn [Feat.count Feat.min_size Feat.max_size].
  assert (Hx : x = map (fun s => PyFloat.of_Z (Rec.size s)) stats).
  { clear Hne. revert x E. induction stats as [|s stats IH]; intros x E.
    - injection E as <-. reflexivity.
    - simpl in E. inv_bind E. inv_bind E. injection E as <-.
      simpl. f_equal; [|now apply IH].
      unfold PyFloat.of_int in E0.
      destruct (PyFloat.is_inf _); [discriminate|congruence]. }
  assert (Hnan : forall y, In y x -> PyFloat.is_nan y = false).
  { intros y Hy. rewrite Hx in Hy. apply in_map_iff in Hy.
    destruct Hy as (s & <- & _). apply of_Z_not_nan. }
  assert (Hin : forall y, In y x ->
            exists s, In s stats /\ y = PyFloat.of_Z (Rec.size s)).
  { intros y Hy. rewrite Hx in Hy. apply in_map_iff in Hy.
    destruct Hy as (s & <- & Hs). eauto. }
  split; [unfold len; now rewrite Hx, length_map|].
  destruct x as [|x0 x]; [destruct stats; [congruence|discriminate]|].
  cbn [stat].
  destruct (np_min_spec x0 x Hnan) as (Hmi & Hml).
  destruct (np_max_spec x0 x Hnan) as (Hxi & Hxl).
  split; [now apply Hin|]. split; [now apply Hin|].
  intros s Hs.
  assert (Hm : In (PyFloat.of_Z (Rec.size s)) (x0 :: x)).
  { rewrite Hx. apply in_map_iff. eauto. }
  split; [now apply Hml|now apply Hxl].
Qed.

End ObservedSizes.

(** ** The shape of a descriptor *)

(** A bound is one number, or one number for each of so many elements. *)
Definition shape (b : bound) : option nat :=
  match b with
  | Scalar _ => None
  | PerElement l => Some (List.length l)
  end.

Lemma shape_round_bound (b : bound) : shape (round_bound b) = shape b.
Proof. destruct b; simpl; [reflexivity|now rewrite length_map]. Qed.

Section DescriptorShape.

Context {RT : Runtime}.

Lemma bounds_of_shape proto_row mins maxs minv maxv alt_stats a b c e :
  bounds_of proto_row mins maxs minv maxv alt_stats = Ok (a, b, c, e) ->
  shape a = shape b
  /\ match c, e with
     | None, None => True
     | Some c', Some e' => shape c' = shape a /\ shape e' = shape a
     | _, _ => False
     end.
Proof.
  unfold bounds_of. intros H.
  destruct (String.prefix _ _ && _).
  - inv_bind H.
    destruct (expand_array_inv _ _ _ _ _ _ _ _ _ H)
      as (n & qmin & qmax & vl & _ & _ & _ & Hvl & -> & -> & Hv).
    apply mapM_length in Hvl. rewrite range_length in Hvl.
    cbn [shape]. rewrite !repeat_length. split; [reflexivity|].
    destruct (mem _ _).
    + destruct Hv as (mn & mx & Hmn & Hmx & -> & ->). cbn [shape].
      unfold extreme_vals in Hmn, Hmx.
      apply mapM_length in Hmn, Hmx. split; congruence.
    + destruct Hv as [-> ->]. exact I.
  - injection H as <- <- <- <-. simpl. auto.
Qed.

(** X22: whatever the model predicts, a descriptor that is synthesized hangs
    together: its two size bounds are both one number or both lists of the
    same length; its two value bounds are both absent, and always so when the
    final type is not numeric, or both present in the shape of the size
    bounds; it has a bit count exactly when the type most frequent among all
    occurrences of the field is [bitfield] in any case; and its size-defining
    field is never blank. *)
Theorem descriptor_hangs_together protocol_df field_name stats alt_stats d :
  synthesize protocol_df field_name stats alt_stats = Ok d ->
  shape (Dpi.min_size d) = shape (Dpi.max_size d)
  /\ match Dpi.min_value d, Dpi.max_value d with
     | None, None => True
     | Some lo, Some hi =>
         numeric_type (lower (Dpi.field_type d)) = true
         /\ shape lo = shape (Dpi.min_size d)
         /\ shape hi = shape (Dpi.min_size d)
     | _, _ => False
     end
  /\ (Dpi.bitfields_count d = None
      <-> lower (aggregated_type stats) <> "bitfield")
  /\ forall sf, Dpi.size_defining_field d = Some sf -> blank sf = false.
Proof.
  intros H. apply synthesize_inv in H. destruct H as (features & _ & H).
  apply synthesize_from_inv in H.
  destruct H as (cls & ftc & ftp & bc & proto_row & mn & mx & mnv & mxv
                 & _ & _ & _ & Hbc & _ & Hb & Hd).
  cbv zeta in Hd. subst d.
  cbn [Dpi.min_size Dpi.max_size Dpi.min_value Dpi.max_value
       Dpi.bitfields_count Dpi.size_defining_field Dpi.field_type].
  destruct (bounds_of_shape _ _ _ _ _ _ _ _ _ _ Hb) as (Hs & Hv).
  rewrite !shape_round_bound. split; [exact Hs|]. split; [|split].
  - destruct (numeric_type _); [|exact I].
    destruct mnv, mxv; cbn [option_map]; try exact Hv.
    rewrite !shape_round_bound. tauto.
  - unfold bit_count_of in Hbc.
    destruct (String.eqb (lower (aggregated_type stats)) "bitfield") eqn:E.
    + apply String.eqb_eq in E.
      assert (Hsome : bc <> None).
      { destruct (PyFloat.is_nan _).
        - inv_bind Hbc. inv_bind Hbc. injection Hbc as <-. discriminate.
        - inv_bind Hbc. injection Hbc as <-. discriminate. }
      split; [intros ->; congruence|intros Hn; congruence].
    + apply String.eqb_neq in E. injection Hbc as <-. tauto.
  - intros sf. unfold size_field_of.
    destruct (dict_get field_name (protocol_mapping protocol_df));
      [|discriminate].
    destruct (blank s) eqn:Eb; [discriminate|].
    intros Hsf. injection Hsf as <-. exact Eb.
Qed.

End DescriptorShape.

(** ** The aggregated type and the order of the occurrences *)

Lemma string_compare_refl (s : string) : String.compare s s = Eq.
Proof.
  induction s as [|c s IH]; simpl; [reflexivity|].
  unfold Ascii.compare. now rewrite N.compare_refl.
Qed.

Lemma string_compare_lt_trans (a b c : string) :
  String.compare a b = Lt -> String.compare b c = Lt ->
  String.compare a c = Lt.
Proof.
  revert b c. induction a as [|x a IH]; intros [|y b] [|z c]; simpl;
    try discriminate; try reflexivity.
  destruct (Ascii.compare x y) eqn:Exy; try discriminate;
    destruct (Ascii.compare y z) eqn:Eyz; try discriminate.
  - apply Ascii.compare_eq_iff in Exy, Eyz. subst.
    unfold Ascii.compare. rewrite N.compare_refl. apply IH.
  - apply Ascii.compare_eq_iff in Exy. subst. now rewrite Eyz.
  - apply Ascii.compare_eq_iff in Eyz. subst. now rewrite Exy.
  - unfold Ascii.compare in *.
    destruct (N.compare_spec (N_of_ascii x) (N_of_ascii y));
      try discriminate.
    destruct (N.compare_spec (N_of_ascii y) (N_of_ascii z));
      try discriminate.
    destruct (N.compare_spec (N_of_ascii x) (N_of_ascii z));
      [lia|reflexivity|lia].
Qed.

Lemma string_ltb_lt (a b : string) :
  String.ltb a b = true <-> String.compare a b = Lt.
Proof.
  unfold String.ltb. destruct (String.compare a b);
    split; congruence.
Qed.

Lemma better_irrefl (l : list string) (t : string) : better l t t = false.
Proof.
  unfold better. rewrite Nat.ltb_irrefl, Nat.eqb_refl. simpl.
  unfold String.ltb. now rewrite string_compare_refl.
Qed.

Lemma better_trans (l : list string) (a b c : string) :
  better l a b = true -> better l b c = true -> better l a c = true.
Proof.
  unfold better. intros Hab Hbc.
  apply orb_true_iff in Hab. apply orb_true_iff in Hbc.
  apply orb_true_iff.
  destruct Hab as [Hab|Hab], Hbc as [Hbc|Hbc];
    rewrite ?andb_true_iff, ?Nat.ltb_lt, ?Nat.eqb_eq in *.
  - left. lia.
  - left. lia.
  - left. lia.
  - right. split; [lia|].
    destruct Hab as [_ Hab], Hbc as [_ Hbc].
    rewrite string_ltb_lt in *. eapply string_compare_lt_trans; eassumption.
Qed.

Lemma better_total (l : list string) (a b : string) :
  better l a b = false -> better l b a = false -> a = b.
Proof.
  unfold better. intros Hab Hba.
  apply orb_false_iff in Hab. apply orb_false_iff in Hba.
  destruct Hab as [Hab Hab'], Hba as [Hba Hba'].
  apply Nat.ltb_ge in Hab, Hba.
  assert (Heq : count_of a l = count_of b l) by lia.
  rewrite Heq, Nat.eqb_refl in Hab'. rewrite Heq, Nat.eqb_refl in Hba'.
  simpl in Hab', Hba'. unfold String.ltb in *.
  rewrite (String.compare_antisym b a) in Hba'.
  destruct (String.compare a b) eqn:E; try discriminate.
  now apply String.compare_eq_iff.
Qed.

Lemma better_between (l : list string) (a b c : string) :
  better l a c = true -> better l a b = true \/ better l b c = true.
Proof.
  intros Hac. destruct (better l a b) eqn:Hab; [now left|right].
  destruct (better l b a) eqn:Hba.
  - eapply better_trans; eassumption.
  - now rewrite <- (better_total l a b Hab Hba).
Qed.

Lemma mode_scan_least (l rest : list string) (best : string) :
  let r := fold_left (fun best t => if better l t best then t else best)
                     rest best in
  (r = best \/ In r rest)
  /\ better l best r = false
  /\ forall t, In t rest -> better l t r = false.
Proof.
  revert best. induction rest as [|t0 rest IH]; intros best; cbn [fold_left].
  - split; [now left|]. split; [apply better_irrefl|]. intros ? [].
  - cbv zeta in IH.
    destruct (better l t0 best) eqn:E.
    + destruct (IH t0) as (Hin & Hb & Hall).
      set (r := fold_left _ rest t0) in *. split; [|split].
      * right. destruct Hin as [->|Hin]; [now left|now right].
      * destruct (better l best r) eqn:Hbr; [|reflexivity].
        rewrite (better_trans l _ _ _ E Hbr) in Hb. discriminate.
      * intros t [<-|Ht]; [exact Hb|now apply Hall].
    + destruct (IH best) as (Hin & Hb & Hall).
      set (r := fold_left _ rest best) in *. split; [|split].
      * destruct Hin as [->|Hin]; [now left|right; now right].
      * exact Hb.
      * intros t [Heq|Ht]; [subst t|now apply Hall].
        destruct (better l t0 r) eqn:Htr; [|reflexivity].
        destruct (better_between l _ best _ Htr); congruence.
Qed.

Lemma count_of_perm (t : string) (l l' : list string) :
  Permutation l l' -> count_of t l = count_of t l'.
Proof.
  unfold count_of. induction 1 as [|x l l' _ IH|x y l|l l' l'' _ IH1 _ IH2];
    simpl.
  - reflexivity.
  - destruct (String.eqb t x); simpl; congruence.
  - destruct (String.eqb t x), (String.eqb t y); reflexivity.
  - congruence.
Qed.

Lemma mode_least (l : list string) (m : string) :
  mode l = Some m -> In m l /\ forall t, In t l -> better l t m = false.
Proof.
  destruct l as [|x l']; [discriminate|]. cbn [mode]. intros H.
  injection H as <-.
  destruct (mode_scan_least (x :: l') l' x) as (Hin & Hb & Hall).
  split.
  - destruct Hin as [->|Hin]; [now left|now right].
  - intros t [<-|Ht]; [exact Hb|now apply Hall].
Qed.

Lemma mode_perm (l l' : list string) :
  Permutation l l' -> mode l = mode l'.
Proof.
  intros Hp. destruct (mode l) as [m|] eqn:Em, (mode l') as [m'|] eqn:Em'.
  - destruct (mode_least _ _ Em) as (Hin & Hl).
    destruct (mode_least _ _ Em') as (Hin' & Hl').
    f_equal. apply (better_total l).
    + specialize (Hl' m (Permutation_in _ Hp Hin)).
      unfold better in *.
      now rewrite !(count_of_perm _ _ _ Hp).
    + apply Hl. apply (Permutation_in _ (Permutation_sym Hp)). exact Hin'.
  - destruct l'; [|discriminate]. apply Permutation_sym in Hp.
    apply Permutation_nil in Hp. subst. discriminate.
  - destruct l; [|discriminate].
    apply Permutation_nil in Hp. subst. discriminate.
  - reflexivity.
Qed.

Section AggregatedType.

Context {RT : Runtime}.

(** X23: the type aggregated from the occurrences of a field is one of their
    types, no other type occurs more often, and among the types that occur as
    often it is the first in the order of strings; so it does not depend on
    the order in which the occurrences were captured. *)
Theorem aggregated_type_order_free stats stats' :
  Permutation stats stats' ->
  aggregated_type stats = aggregated_type stats'
  /\ (stats <> [] ->
      In (aggregated_type stats) (map Rec.field_type stats)
      /\ forall s, In s stats ->
          let t := Rec.field_type s in
          let n := count_of t (map Rec.field_type stats) in
          let m := count_of (aggregated_type stats)
                            (map Rec.field_type stats) in
          (n <= m)%nat
          /\ (n = m ->
              t = aggregated_type stats
              \/ String.ltb (aggregated_type stats) t = true)).
Proof.
  intros Hp. unfold aggregated_type.
  rewrite (mode_perm _ _ (Permutation_map Rec.field_type Hp)). split;
    [reflexivity|].
  rewrite <- (mode_perm _ _ (Permutation_map Rec.field_type Hp)).
  intros Hne. destruct (mode (map Rec.field_type stats)) as [m|] eqn:Em.
  - destruct (mode_least _ _ Em) as (Hin & Hl). split; [exact Hin|].
    intros s Hs. cbv zeta.
    specialize (Hl (Rec.field_type s) (in_map _ _ _ Hs)).
    split; [now apply better_not|].
    intros Heq. unfold better in Hl. apply orb_false_iff in Hl.
    destruct Hl as [_ Hl]. rewrite Heq, Nat.eqb_refl in Hl. simpl in Hl.
    unfold String.ltb in *.
    rewrite (String.compare_antisym m (Rec.field_type s)).
    destruct (String.compare (Rec.field_type s) m) eqn:E;
      [left; now apply String.compare_eq_iff|discriminate|now right].
  - destruct stats; [congruence|discriminate].
Qed.

End AggregatedType.

(** ** The bytes of the elements of an array *)

Lemma firstn_plus {A} (n m : nat) (l : list A) :
  firstn (n + m) l = firstn n l ++ firstn m (skipn n l).
Proof.
  revert l. induction n as [|n IH]; intros l; [reflexivity|].
  destruct l as [|x l]; simpl.
  - now rewrite firstn_nil.
  - now rewrite IH.
Qed.

Lemma slice_in_range {A} (l : list A) (a b : Z) :
  0 <= a -> a <= b -> b <= len l ->
  slice l a b = firstn (Z.to_nat (b - a)) (skipn (Z.to_nat a) l).
Proof.
  intros Ha Hab Hb. unfold slice, slice_bound.
  destruct (Z.ltb_spec a 0); [lia|]. destruct (Z.ltb_spec b 0); [lia|].
  rewrite !Z.min_l by lia. reflexivity.
Qed.

Lemma slice_app {A} (l : list A) (a b c : Z) :
  0 <= a -> a <= b -> b <= c -> c <= len l ->
  slice l a b ++ slice l b c = slice l a c.
Proof.
  intros Ha Hab Hbc Hc. rewrite !slice_in_range by lia.
  replace (Z.to_nat (c - a))
    with (Z.to_nat (b - a) + Z.to_nat (c - b))%nat by lia.
  rewrite firstn_plus, skipn_skipn. do 3 f_equal. lia.
Qed.

Lemma mapM_map {A B C} (f : B -> result C) (g : A -> B) (l : list A) :
  mapM f (map g l) = mapM (fun x => f (g x)) l.
Proof.
  induction l as [|x l IH]; simpl; [reflexivity|]. now rewrite IH.
Qed.

Lemma range_succ (k : Z) : 0 <= k -> range (k + 1) = range k ++ [k].
Proof.
  intros Hk. unfold range.
  replace (Z.to_nat (k + 1)) with (Z.to_nat k + 1)%nat by lia.
  rewrite seq_app, map_app. simpl. now rewrite Z2Nat.id.
Qed.

Section ArrayBytes.

Context {RT : Runtime}.

(** X24: the elements of an array field that lies in the payload are decoded
    from consecutive pieces of equal length, the declared size divided by the
    count and rounded down. Together the pieces are the bytes of the field
    without its last [fsize mod ne] bytes, which belong to no element. The
    offset and the size are Python ints, or the payload is shorter than
    2^63 bytes and the count below 2^63, so that no NumPy scalar wraps
    around. *)
Theorem array_elements_tile payload base offset size ne :
  let off := num_val offset in
  let fsize := num_val size in
  0 < ne -> 0 <= off -> 0 <= fsize -> off + fsize <= len payload ->
  plain_or_bounded payload offset size ne ->
  exists chunks,
    decode_array payload base offset size ne
    = mapM (decode_element base) chunks
    /\ len chunks = ne
    /\ Forall (fun chunk => len chunk = fsize / ne) chunks
    /\ List.concat chunks
       = slice payload off (off + fsize - fsize mod ne).
Proof.
  intros off fsize Hne Hoff Hsz Hfit Hnw.
  set (w := fsize / ne).
  assert (Hw : 0 <= w) by (apply Z.div_pos; lia).
  assert (Hm : ne * w <= fsize) by (apply Z.mul_div_le; lia).
  assert (Hmod : fsize - fsize mod ne = ne * w)
    by (unfold w; rewrite (Z.div_mod fsize ne) at 1 by lia; lia).
  exists (map (fun i => slice payload (off + i * w) (off + i * w + w))
              (range ne)).
  split; [|split; [|split]].
  - rewrite (decode_array_exact _ _ _ _ _ Hne Hnw). unfold elements_at.
    rewrite mapM_map. reflexivity.
  - unfold len. rewrite length_map, range_length. lia.
  - apply Forall_map, Forall_forall. intros i Hi. apply range_In in Hi.
    rewrite slice_len; nia.
  - replace (off + fsize - fsize mod ne) with (off + ne * w) by lia.
    assert (Hk : forall k : nat,
      Z.of_nat k <= ne ->
      List.concat
        (map (fun i => slice payload (off + i * w) (off + i * w + w))
             (range (Z.of_nat k)))
      = slice payload off (off + Z.of_nat k * w)).
    { induction k as [|k IH]; intros Hk.
      - simpl. rewrite Z.add_0_r. rewrite slice_in_range by lia.
        now rewrite Z.sub_diag.
      - rewrite Nat2Z.inj_succ, <- Z.add_1_r, range_succ by lia.
        rewrite map_app, concat_app, IH by lia. simpl.
        rewrite app_nil_r, slice_app by nia. f_equal. lia. }
    specialize (Hk (Z.to_nat ne)). rewrite Z2Nat.id in Hk by lia.
    apply Hk. lia.
Qed.

End ArrayBytes.

(** * Examples of the further properties *)

(** ** Decoder *)

(** The cut packet of the length-prefixed example: [len] and [name] take
    four of its five bytes. *)
Lemma decoded_fields_end_in_payload_witness :
  decode_rows (RT := ex_rt) ex1_schema ex1_short 0 ex1_schema dstate0
  = Ok (true, ex1_after_name)
  /\ num_val (offset ex1_after_name) <= len ex1_short
  /\ bytes_used (records ex1_after_name) <= len ex1_short
  /\ bytes_used (firstn 1 (records ex1_after_name)) + 3 <= len ex1_short
  /\ decode_packet (RT := ex_rt) ex1_schema ex1_short
     = Ok (records ex1_after_name).
Proof.
  split; [reflexivity|].
  destruct (decoded_fields_end_in_payload (RT := ex_rt) ex1_schema ex1_short
              ex1_schema true ex1_after_name eq_refl)
    as (Hle & _ & Hobj & _ & Hpkt).
  destruct (Hobj eq_refl) as [Hall Hpre].
  split; [exact Hle|]. split; [exact Hall|].
  split; [|exact (Hpkt eq_refl)].
  exact (Hpre (firstn 1 (records ex1_after_name))
              (Rec.mk "name" 3 (VScalar (SStr "abc")) "char"
                      (FieldKeys "len" None None)) [] eq_refl).
Defined.

(** Its two records are those of the rows [len] and [name]. *)
Lemma records_mirror_schema_witness :
  (List.length (records ex1_after_name) <= List.length ex1_schema)%nat
  /\ Forall2 mirrors (records ex1_after_name) [ex1_len; ex1_name].
Proof.
  exact (records_mirror_schema (RT := ex_rt) ex1_schema ex1_short
           (records ex1_after_name) eq_refl).
Defined.




(** Two bytes 1 and 2 read as the int 258. *)
Lemma int_field_value_witness :
  decode_scalar (RT := ex_rt) "int" (bytes_of [1; 2]) = Ok (SInt 258)
  /\ 0 <= 258 < 256 ^ len (bytes_of [1; 2]).
Proof.
  split; [reflexivity|].
  exact (proj1 (int_field_value (RT := ex_rt) "int" (bytes_of [1; 2]) 258
                                eq_refl)).
Defined.

(** A bool of two zero bytes is [False]. *)
Lemma bool_field_value_witness :
  decode_scalar (RT := ex_rt) "bool" (bytes_of [0; 0]) = Ok (SBool false)
  /\ Forall (fun x => x = Init.Byte.x00) (bytes_of [0; 0]).
Proof.
  split; [reflexivity|].
  exact (proj1 (bool_field_value (RT := ex_rt) "bool" (bytes_of [0; 0])
                                 false eq_refl) eq_refl).
Defined.

(** A field of the unknown type [mac]. *)
Lemma unknown_type_kept_as_hex_witness :
  decode_scalar (RT := ex_rt) "mac" (bytes_of [222; 173]) = Ok (SStr "dead")
  /\ exists s,
      decode_scalar (RT := ex_rt) "mac" (bytes_of [222; 173]) = Ok (SStr s)
      /\ String.length s = 4%nat.
Proof.
  split; [reflexivity|].
  destruct (unknown_type_kept_as_hex (RT := ex_rt) "mac"
              (bytes_of [222; 173]) eq_refl) as (s & Hs & Hl & _).
  exists s. split; [exact Hs|exact Hl].
Defined.

(** One byte of flags with the value 5. *)
Definition exb_flags : Row.t := Row.mk "flags" 1 "bitfield" "" 0 true.

Definition exb_final : dstate :=
  Eval vm_compute in
    match decode_field (RT := ex_rt) [exb_flags] (bytes_of [5]) 0 exb_flags
                       dstate0 with
    | Ok (Some st) => st
    | _ => dstate0
    end.

Lemma bitfield_bit_vector_witness :
  decode_field (RT := ex_rt) [exb_flags] (bytes_of [5]) 0 exb_flags dstate0
  = Ok (Some exb_final)
  /\ map Rec.value (records exb_final)
     = [VList (map SInt [0; 0; 0; 0; 0; 1; 0; 1])]
  /\ exists bits,
      records exb_final
      = [Rec.mk "flags" 1 (VList (map SInt bits)) "bitfield"
                (FieldKeys "" (Some (sumZ bits)) (Some bits))]
      /\ len bits = 8
      /\ bits_value bits = 5.
Proof.
  split; [reflexivity|]. split; [reflexivity|].
  destruct (bitfield_bit_vector (RT := ex_rt) [exb_flags] (bytes_of [5]) 0
              exb_flags dstate0 exb_final (PyInt 1) eq_refl eq_refl eq_refl
              eq_refl (Z.le_refl 0) eq_refl
              (or_introl (conj eq_refl eq_refl)))
    as (bits & Hrec & Hlen & _ & Hval & _).
  exists bits. split; [exact Hrec|]. split; [exact Hlen|exact Hval].
Defined.

(** Eight bytes as an array of three ints: elements of two bytes, and the
    last two bytes in no element. *)
Lemma array_elements_tile_witness :
  decode_array (RT := ex_rt) ex10_payload "int" (PyInt 0) (PyInt 8) 3
  = Ok [SInt 16256; SInt 0; SInt 16384]
  /\ exists chunks,
      decode_array (RT := ex_rt) ex10_payload "int" (PyInt 0) (PyInt 8) 3
      = mapM (decode_element (RT := ex_rt) "int") chunks
      /\ len chunks = 3
      /\ List.concat chunks = slice ex10_payload 0 6.
Proof.
  split; [reflexivity|].
  destruct (array_elements_tile (RT := ex_rt) ex10_payload "int" (PyInt 0)
              (PyInt 8) 3 eq_refl (Z.le_refl 0) ltac:(discriminate)
              ltac:(discriminate) (or_introl (conj eq_refl eq_refl)))
    as (chunks & Hdec & Hlen & _ & Hcat).
  exists chunks. split; [exact Hdec|]. split; [exact Hlen|exact Hcat].
Defined.

(** ** Series *)

(** Two packets of the length-prefixed example around a datagram on
    another port. *)
Definition exs_packets : list packet :=
  [ ex_packet [3; 97; 98; 99; 0; 7];
    {| udp := Some (40000, 53); ip := Some ("10.0.0.1", "10.0.0.9");
       payload_of := bytes_of [1; 2; 3] |};
    ex_packet [1; 100; 0; 9] ].

Definition exs_series : series :=
  Eval vm_compute in
    try_default (parse_pcap_with_ip (RT := ex_rt) exs_packets ex1_schema) [].

Lemma series_of_endpoint_witness :
  parse_pcap_with_ip (RT := ex_rt) exs_packets ex1_schema = Ok exs_series
  /\ List.length (decoded_for (RT := ex_rt) ex1_schema "10.0.0.1" exs_packets)
     = 2%nat
  /\ dict_get "10.0.0.1" exs_series
     = Some (decoded_for (RT := ex_rt) ex1_schema "10.0.0.1" exs_packets).
Proof.
  split; [reflexivity|]. split; [reflexivity|].
  exact (series_of_endpoint (RT := ex_rt) exs_packets ex1_schema exs_series
                            "10.0.0.1" eq_refl).
Defined.

(** A datagram without payload gives no record and no endpoint. *)
Definition exs_empty : packet := ex_packet [].

Lemma series_empty_iff_witness :
  parse_pcap_with_ip (RT := ex_rt) [exs_empty] ex1_schema = Ok []
  /\ on_port_10000 exs_empty = true
  /\ decode_packet (RT := ex_rt) ex1_schema (payload_of exs_empty) = Ok [].
Proof.
  split; [reflexivity|]. split; [reflexivity|].
  exact (proj1 (proj2 (series_empty_iff (RT := ex_rt) [exs_empty] ex1_schema
                                        [] eq_refl))
               eq_refl exs_empty (or_introl eq_refl) eq_refl).
Defined.

(** A float declared on two bytes: the first datagram is too short for
    it, the second one holds it and stops the parse. *)
Definition exf_row : Row.t := Row.mk "temp" 2 "float" "" 0 false.

Lemma mis_sized_float_stops_parse_witness :
  parse_pcap_with_ip (RT := ex_rt) [ex_packet [0]] [exf_row] = Ok []
  /\ parse_pcap_with_ip (RT := ex_rt)
       ([ex_packet [0]] ++ ex_packet [0; 0] :: [ex_packet [0]]) [exf_row]
     = Raise StructError.
Proof.
  split; [reflexivity|].
  refine (mis_sized_float_stops_parse (RT := ex_rt) [exf_row] [] exf_row []
            [ex_packet [0]] (ex_packet [0; 0]) [ex_packet [0]] [] dstate0
            eq_refl (or_introl (conj eq_refl _)) eq_refl eq_refl eq_refl
            eq_refl _ eq_refl (Z.le_refl 0) _ (or_introl eq_refl));
    discriminate.
Defined.

(** ** Schema compiler *)

Definition exp_lines : list (list string) :=
  [["len"; "1"; "int"]; ["name"; "0"; "char"; "len"];
   ["v"; "8"; "array"; "float"; "2"]].

Definition exp_rows : list Row.t :=
  [ex1_len; ex1_name; ex10_floats].

(** Three lines under a declared count of 7. *)
Lemma plain_schema_rows_witness :
  load_protocol_definitions (RT := ex_rt) [] "7" exp_lines = Ok exp_rows
  /\ Forall2 (row_of_tokens (RT := ex_rt)) exp_lines exp_rows.
Proof.
  split; [reflexivity|].
  exact (plain_schema_rows (RT := ex_rt) "7" exp_lines exp_rows eq_refl).
Defined.

(** A point of two coordinates of two bytes each. *)
Definition exc_point : custom_type :=
  {| fields := [Row.mk "x" 2 "int" "" 0 false; Row.mk "y" 2 "int" "" 0 false];
     total_size := 4 |}.

(** Three points declared on 99 bytes. *)
Lemma custom_array_unrolled_witness :
  exists rows,
    compile_line (RT := ex_rt) [("point", exc_point)]
                 ["pts"; "99"; "array"; "point"; "3"] = Ok rows
    /\ List.length rows = 6%nat
    /\ sumZ (map Row.size rows) = 12.
Proof.
  destruct (custom_array_unrolled (RT := ex_rt) [("point", exc_point)]
              "pts" "99" "array" "point" "3" exc_point eq_refl eq_refl)
    as [Hok _].
  destruct (Hok 99 3 eq_refl eq_refl) as (rows & Hrows & Hlen & Hsum & _).
  exists rows. split; [exact Hrows|]. split; [exact Hlen|exact Hsum].
Defined.

(** Two documents for the type [hdr]: the second one, with a bit field
    given as [Bit], is the definition. *)
Definition exc_first : TypeDoc.t :=
  TypeDoc.mk (Some "hdr") (Some (VScalar (SInt 1)))
    (Some [FieldDoc.mk (Some "ver") (Some (VScalar (SInt 1))) (Some "int")
                       None None]).

Definition exc_second_fields : list FieldDoc.t :=
  [FieldDoc.mk (Some "ver") (Some (VScalar (SStr "2"))) (Some "Int")
               None None;
   FieldDoc.mk (Some "flags") (Some (VScalar (SInt 1))) (Some "Bit")
               None None].

Definition exc_second : TypeDoc.t :=
  TypeDoc.mk (Some "hdr") (Some (VScalar (SInt 3))) (Some exc_second_fields).

Definition exc_hdr : custom_type :=
  {| fields := [Row.mk "ver" 2 "int" "" 0 false;
                Row.mk "flags" 1 "bitfield" "" 0 true];
     total_size := 3 |}.

Lemma last_type_definition_wins_witness :
  load_custom_types (RT := ex_rt) [exc_first; exc_second]
  = Ok [("hdr", exc_hdr)]
  /\ exists ct,
      dict_get "hdr" [("hdr", exc_hdr)] = Some ct
      /\ py_int (RT := ex_rt) (VScalar (SInt 3)) = Ok (total_size ct)
      /\ mapM (field_row (RT := ex_rt)) exc_second_fields = Ok (fields ct).
Proof.
  split; [reflexivity|].
  exact (last_type_definition_wins (RT := ex_rt) [exc_first; exc_second]
           [("hdr", exc_hdr)] "hdr" eq_refl).
Defined.

(** A line of the type [hdr] whose size token is no number. *)
Lemma custom_type_inlined_witness :
  exists rows,
    compile_line (RT := ex_rt) [("hdr", exc_hdr)] ["h"; "many"; "hdr"]
    = Ok rows
    /\ map Row.name rows = ["h.ver"; "h.flags"]
    /\ map Row.size rows = [2; 1]
    /\ Forall sub_field_ok rows.
Proof.
  destruct (custom_type_inlined (RT := ex_rt) [exc_first; exc_second]
              [("hdr", exc_hdr)] "h" "many" "hdr" exc_hdr eq_refl eq_refl)
    as (rows & Hrows & Hsize & Hok & _).
  exists rows. split; [exact Hrows|].
  split; [|split; [exact Hsize|exact Hok]].
  injection Hrows as <-. reflexivity.
Defined.

(** ** Synthesizer *)

Definition exg_series : series :=
  Eval vm_compute in
    try_default
      (parse_pcap_with_ip (RT := ex_rt)
         (map ex_packet [[0; 0; 0; 7; 97; 98]; [0; 0; 0; 9; 99; 100]])
         ex9_schema) [].

Definition exg_result : dict (dict (dict Dpi.t)) :=
  Eval vm_compute in
    try_default (generate_dpi (RT := ex_rt) ex9_schema exg_series) [].

(** The capture of one endpoint, and an address that sent nothing. *)
Lemma endpoint_result_from_own_packets_witness :
  keys exg_result = ["10.0.0.1"]
  /\ dict_get "10.0.0.7" exg_result = None
  /\ exists d,
      endpoint_dpi (RT := ex_rt) ex9_schema ex9_packets = Ok d
      /\ dict_get "10.0.0.1" exg_result = Some d.
Proof.
  split; [reflexivity|].
  assert (Hparse : parse_pcap_with_ip (RT := ex_rt)
            (map ex_packet [[0; 0; 0; 7; 97; 98]; [0; 0; 0; 9; 99; 100]])
            ex9_schema = Ok exg_series) by (vm_compute; reflexivity).
  assert (Hgen : generate_dpi (RT := ex_rt) ex9_schema exg_series
                 = Ok exg_result) by (vm_compute; reflexivity).
  split.
  - exact (endpoint_result_from_own_packets (RT := ex_rt) _ ex9_schema
             exg_series exg_result "10.0.0.7" Hparse Hgen).
  - exact (endpoint_result_from_own_packets (RT := ex_rt) _ ex9_schema
             exg_series exg_result "10.0.0.1" Hparse Hgen).
Defined.

(** The three occurrences 7, 9 and 200 of [id]. *)
Lemma segments_are_well_formed_witness :
  segment_stats (RT := ex_rt) ex2_stats
  = Ok [("67%", [0%nat; 1%nat]); ("100%", [0%nat; 1%nat; 2%nat])]
  /\ segment_ok ex2_stats [0%nat; 1%nat]
  /\ exists alt_stats,
      take ex2_stats [0%nat; 1%nat] = Ok alt_stats /\ alt_stats <> [].
Proof.
  assert (Hseg : segment_stats (RT := ex_rt) ex2_stats
            = Ok [("67%", [0%nat; 1%nat]); ("100%", [0%nat; 1%nat; 2%nat])])
    by (vm_compute; reflexivity).
  split; [exact Hseg|].
  exact (proj2 (proj2 (segments_are_well_formed (RT := ex_rt) ex2_stats _
                                                Hseg))
               "67%" [0%nat; 1%nat] (or_introl eq_refl)).
Defined.

(** Two texts of three bytes. *)
Definition exk_stats : list Rec.t :=
  [Rec.mk "tag" 3 (VScalar (SStr "abc")) "char" (FieldKeys "" None None);
   Rec.mk "tag" 3 (VScalar (SStr "xyz")) "char" (FieldKeys "" None None)].

Lemma constant_size_not_split_witness :
  segment_stats (RT := ex_rt) exk_stats = Ok [("100%", [0%nat; 1%nat])].
Proof.
  refine (constant_size_not_split (RT := ex_rt) exk_stats
            (Rec.mk "tag" 3 (VScalar (SStr "abc")) "char"
                    (FieldKeys "" None None)) 3 eq_refl eq_refl _).
  intros s [<-|[<-|[]]]; reflexivity.
Defined.

(** Occurrences of the sizes 3 and 1 in the series of the length-prefixed
    example. *)
Definition exo_stats : list Rec.t :=
  Eval vm_compute in
    flat_map (filter (fun r => String.eqb (Rec.field_name r) "name"))
             (match dict_get "10.0.0.1" exs_series with
              | Some packets => packets
              | None => []
              end).

Definition exo_features : Feat.t :=
  Eval vm_compute in
    match extract_aggregated_features (RT := ex_rt) exo_stats with
    | Ok f => f
    | Raise _ => Feat.mk PyFloat.nan PyFloat.nan PyFloat.nan PyFloat.nan
                         PyFloat.nan PyFloat.nan PyFloat.nan PyFloat.nan
                         PyFloat.nan
    end.

Lemma observed_sizes_bound_all_witness :
  extract_aggregated_features (RT := ex_rt) exo_stats = Ok exo_features
  /\ map Rec.size exo_stats = [3; 1]
  /\ Feat.count exo_features = PyFloat.of_Z 2
  /\ Feat.min_size exo_features = PyFloat.of_Z 1
  /\ Feat.max_size exo_features = PyFloat.of_Z 3
  /\ exists s, In s exo_stats
               /\ Feat.min_size exo_features = PyFloat.of_Z (Rec.size s).
Proof.
  assert (Hf : extract_aggregated_features (RT := ex_rt) exo_stats
               = Ok exo_features) by (vm_compute; reflexivity).
  split; [exact Hf|]. split; [reflexivity|].
  assert (Hne : exo_stats <> []) by discriminate.
  destruct (observed_sizes_bound_all (RT := ex_rt) exo_stats exo_features
              Hf Hne) as (Hcount & Hmin & _ & _).
  split; [exact Hcount|]. split; [reflexivity|]. split; [reflexivity|].
  exact Hmin.
Defined.

(** The descriptor of the array of four ints. *)
Lemma descriptor_hangs_together_witness :
  synthesize (RT := ex_rt) ex7_schema "sensor_ids" ex7_stats ex7_stats
  = Ok ex7_dpi
  /\ shape (Dpi.min_size ex7_dpi) = Some 4%nat
  /\ shape (Dpi.min_size ex7_dpi) = shape (Dpi.max_size ex7_dpi)
  /\ Dpi.bitfields_count ex7_dpi = None.
Proof.
  assert (Hs : synthesize (RT := ex_rt) ex7_schema "sensor_ids" ex7_stats
                          ex7_stats = Ok ex7_dpi) by (vm_compute; reflexivity).
  split; [exact Hs|]. split; [reflexivity|].
  destruct (descriptor_hangs_together (RT := ex_rt) ex7_schema "sensor_ids"
              ex7_stats ex7_stats ex7_dpi Hs) as (Hshape & _ & Hbits & _).
  split; [exact Hshape|]. apply Hbits. discriminate.
Defined.

(** A text and an int seen once each, in both orders: the type is [char],
    the first of the two in the order of strings. *)
Definition exa_text : Rec.t :=
  Rec.mk "x" 1 (VScalar (SStr "a")) "char" (FieldKeys "" None None).

Definition exa_int : Rec.t :=
  Rec.mk "x" 1 (VScalar (SInt 1)) "int" (FieldKeys "" None None).

Lemma aggregated_type_order_free_witness :
  aggregated_type [exa_int; exa_text] = "char"
  /\ aggregated_type [exa_int; exa_text]
     = aggregated_type [exa_text; exa_int].
Proof.
  split; [reflexivity|].
  exact (proj1 (aggregated_type_order_free [exa_int; exa_text]
                  [exa_text; exa_int] (perm_swap exa_text exa_int []))).
Defined.
